(** * libjass web renderer: span styles and animation collections

    A shallow embedding of [src/renderers/web/span-styles.ts] and
    [src/renderers/web/animation-collection.ts].

    JavaScript numbers are IEEE-754 binary64 values and are modelled by
    Rocq's primitive [float]; every value typed [T] in the TypeScript source
    may also be [null] or [undefined], which the wrapper [js T] makes
    explicit.  Strings are [string]; template literals become
    concatenations, with [Number.prototype.toFixed] and the conversion of a
    number to a string written out after ECMAScript 5.1.

    The numbers the source only counts with ([_numAnimations], [_nextId],
    [_nextFilterId], [outlineNumber]: they start at 0 and are incremented
    by 1) are modelled by [N]; a binary64 counter is exact up to 2^53.

    Objects are records passed and returned explicitly.  A method that
    can throw or loop returns an [outcome]; loops over numbers take the
    bound [fuel] on the number of their iterations, as a loop such as
    [for (x = 0; x <= w; x += increment)] need not end (an infinite [w], or
    an [x] so large that [x + increment] is [x]). *)

From Stdlib Require Import List String Ascii ZArith NArith Lia Bool Floats.
From Stdlib Require Import DecimalString DecimalN.
Import ListNotations.

Local Open Scope string_scope.

(** ** The JavaScript runtime the two classes rely on *)

Module Js.

(** A value of TypeScript type [T]: the type checker of the source does not
    exclude [null] and [undefined] from any type. *)
Inductive js (T : Type) : Type :=
| null
| undefined
| val (t : T).

Arguments null {T}.
Arguments undefined {T}.
Arguments val {T} t.

Definition number := float.

(** [v !== null] and [v === null]. *)
Definition isNull {T} (v : js T) : bool :=
  match v with null => true | _ => false end.

Definition isUndefined {T} (v : js T) : bool :=
  match v with undefined => true | _ => false end.

(** Strict equality [a === b] between two values of the same static type,
    given the strict equality of the underlying type. *)
Definition strictEq {T} (eqT : T -> T -> bool) (a b : js T) : bool :=
  match a, b with
  | null, null => true
  | undefined, undefined => true
  | val x, val y => eqT x y
  | _, _ => false
  end.

(** Strict equality on numbers is IEEE equality: [NaN !== NaN], [0 === -0]. *)
Definition numEq (a b : js number) : bool := strictEq PrimFloat.eqb a b.

(** ToNumber, as applied by the arithmetic and relational operators. *)
Definition ToNumber (v : js number) : number :=
  match v with
  | null => 0%float
  | undefined => nan
  | val x => x
  end.

(** ToBoolean of a boolean-typed value, as applied by [if (v)]. *)
Definition ToBoolean (v : js bool) : bool :=
  match v with val b => b | _ => false end.

(** The outcome of running code that may throw or loop: [OutOfFuel] stands
    for a loop that has not finished within the iteration bound given.
    What a run had changed before it threw is not kept. *)
Inductive outcome (A : Type) : Type :=
| Ok (a : A)
| TypeError
| OutOfFuel.

Arguments Ok {A} a.
Arguments TypeError {A}.
Arguments OutOfFuel {A}.

Definition bind {A B} (m : outcome A) (k : A -> outcome B) : outcome B :=
  match m with
  | Ok a => k a
  | TypeError => TypeError
  | OutOfFuel => OutOfFuel
  end.

(** *** Characters and small string helpers *)

Definition LF : string := String (ascii_of_nat 10) EmptyString.
Definition TAB : string := String (ascii_of_nat 9) EmptyString.
Definition DQUOTE : string := String (ascii_of_nat 34) EmptyString.

Fixpoint repeatString (n : nat) (s : string) : string :=
  match n with
  | O => EmptyString
  | S k => s ++ repeatString k s
  end.

Definition isEmpty (s : string) : bool :=
  match s with EmptyString => true | _ => false end.

(** White space recognised by [String.prototype.trim] among the 8-bit
    characters: TAB, LF, VT, FF, CR, SP and NBSP. *)
Definition isWhiteSpace (c : ascii) : bool :=
  let n := nat_of_ascii c in
  ((9 <=? n) && (n <=? 13))%nat || (n =? 32)%nat || (n =? 160)%nat.

Fixpoint trimStart (s : string) : string :=
  match s with
  | String c rest => if isWhiteSpace c then trimStart rest else s
  | EmptyString => EmptyString
  end.

Fixpoint trimEnd (s : string) : string :=
  match s with
  | EmptyString => EmptyString
  | String c rest =>
      match trimEnd rest with
      | EmptyString => if isWhiteSpace c then EmptyString else String c EmptyString
      | r => String c r
      end
  end.

Definition trim (s : string) : string := trimEnd (trimStart s).

(** [s.substr(n)]. *)
Fixpoint substr (n : nat) (s : string) : string :=
  match n, s with
  | O, _ => s
  | S k, String _ rest => substr k rest
  | S _, EmptyString => EmptyString
  end.

(** *** Numbers to strings *)

Definition decimalOfN (n : N) : string :=
  NilEmpty.string_of_uint (N.to_uint n).

Definition decimalOfZ (z : Z) : string :=
  match z with
  | Zneg p => "-" ++ decimalOfN (Npos p)
  | _ => decimalOfN (Z.to_N z)
  end.

(** The exact value of a positive finite float is [m * 2^e]; it is kept as
    the fraction [num / den]. *)
Definition fracOf (m : positive) (e : Z) : Z * Z :=
  if (0 <=? e)%Z then (Zpos m * 2 ^ e, 1)%Z else (Zpos m, 2 ^ (- e))%Z.

(** [Number.prototype.toFixed(f)] (ECMAScript 5.1, 15.7.4.5), for the part
    below [1e21]: the integer [n] nearest to [x * 10^f], the larger one on a
    tie, printed with [f] digits after the point. *)
Definition fixedDigits (f : nat) (n : Z) : string :=
  let m := decimalOfZ n in
  let k := String.length m in
  let m := if (k <=? f)%nat then repeatString (f + 1 - k) "0" ++ m else m in
  let k := String.length m in
  match f with
  | O => m
  | _ => substring 0 (k - f) m ++ "." ++ substring (k - f) f m
  end.

Definition roundHalfUp (num den : Z) : Z := ((2 * num + den) / (2 * den))%Z.

(** The shortest decimal digits that read back as the same float
    (ECMAScript 5.1, 9.8.1, step 5): [s] with [k] digits and the exponent
    [n], with [s * 10^(n-k)] inside the rounding interval of the float. *)
Fixpoint decadeUp (fuel : nat) (num den : Z) (n : Z) : Z :=
  (* least n with num/den < 10^n, searched upwards from n *)
  match fuel with
  | O => n
  | S k => if (num <? den * 10 ^ n)%Z then n else decadeUp k num den (n + 1)%Z
  end.

Fixpoint decadeDown (fuel : nat) (num den : Z) (j : Z) : Z :=
  (* least j >= 1 with num * 10^j >= den; the decade is then 1 - j *)
  match fuel with
  | O => (1 - j)%Z
  | S k => if (den <=? num * 10 ^ j)%Z then (1 - j)%Z else decadeDown k num den (j + 1)%Z
  end.

Definition decade (num den : Z) : Z :=
  if (den <=? num)%Z then decadeUp 400 num den 1 else decadeDown 400 num den 1.

Fixpoint stripZeros (fuel : nat) (s : Z) : Z :=
  match fuel with
  | O => s
  | S k => if ((s mod 10 =? 0) && (0 <? s))%Z then stripZeros k (s / 10)%Z else s
  end.

(** Scaled comparison of the candidate [s * 10^t] against a bound
    [b * 2^eb], both as exact rationals. *)
Definition cmpScaled (s t b eb : Z) : comparison :=
  let l := (s * (if 0 <=? t then 10 ^ t else 1) * (if 0 <=? eb then 1 else 2 ^ (- eb)))%Z in
  let r := (b * (if 0 <=? eb then 2 ^ eb else 1) * (if 0 <=? t then 1 else 10 ^ (- t)))%Z in
  (l ?= r)%Z.

Definition inInterval (m : positive) (e : Z) (s t : Z) : bool :=
  let boundary := ((Zpos m =? 2 ^ 52) && (-1074 <? e))%Z in
  let lo := if boundary then (4 * Zpos m - 1)%Z else (4 * Zpos m - 2)%Z in
  let hi := (4 * Zpos m + 2)%Z in
  let closed := Z.even (Zpos m) in
  let above := match cmpScaled s t lo (e - 2) with
               | Gt => true | Eq => closed | Lt => false end in
  let below := match cmpScaled s t hi (e - 2) with
               | Lt => true | Eq => closed | Gt => false end in
  above && below.

Fixpoint shortest (fuel : nat) (m : positive) (e : Z) (nv : Z) (k : Z) : Z * Z :=
  match fuel with
  | O => (Zpos m, 0%Z)
  | S fuel' =>
      let t := (nv - k)%Z in
      let (num, den) := fracOf m e in
      let s1 := if (0 <=? t)%Z then (num / (den * 10 ^ t))%Z
                else (num * 10 ^ (- t) / den)%Z in
      let s2 := (s1 + 1)%Z in
      let ok1 := inInterval m e s1 t && (0 <? s1)%Z in
      let ok2 := inInterval m e s2 t in
      (* distance to the value, doubled: s1 is nearer when 2*v <= (s1+s2)*10^t *)
      let nearer1 := match cmpScaled (s1 + s2) t (2 * Zpos m) e with
                     | Lt => false | _ => true end in
      if ok1 && (negb ok2 || nearer1) then (s1, nv)
      else if ok2 then
        (if (s2 =? 10 ^ k)%Z then (1%Z, (nv + 1)%Z) else (s2, nv))
      else shortest fuel' m e nv (k + 1)%Z
  end.

Definition digitsOf (m : positive) (e : Z) : Z * Z :=
  let (num, den) := fracOf m e in
  let nv := decade num den in
  let (s, n) := shortest 18 m e nv 1 in
  (stripZeros 400 s, n).

(** ECMAScript 5.1, 9.8.1, steps 6 to 10, for a positive finite number. *)
Definition formatDigits (s n : Z) : string :=
  let ds := decimalOfZ s in
  let k := Z.of_nat (String.length ds) in
  if ((k <=? n) && (n <=? 21))%Z then
    ds ++ repeatString (Z.to_nat (n - k)) "0"
  else if ((0 <? n) && (n <=? 21))%Z then
    substring 0 (Z.to_nat n) ds ++ "." ++ substring (Z.to_nat n) (Z.to_nat (k - n)) ds
  else if ((-6 <? n) && (n <=? 0))%Z then
    "0." ++ repeatString (Z.to_nat (- n)) "0" ++ ds
  else
    let ex := (if (0 <=? n - 1)%Z then "+" else "-") ++ decimalOfZ (Z.abs (n - 1)) in
    if (k =? 1)%Z then ds ++ "e" ++ ex
    else substring 0 1 ds ++ "." ++ substring 1 (Z.to_nat (k - 1)) ds ++ "e" ++ ex.

(** ToString applied to a number (ECMAScript 5.1, 9.8.1). *)
Definition Number_toString (x : number) : string :=
  match Prim2SF x with
  | S754_nan => "NaN"
  | S754_zero _ => "0"
  | S754_infinity s => if s then "-Infinity" else "Infinity"
  | S754_finite s m e =>
      let (d, n) := digitsOf m e in
      (if s then "-" else EmptyString) ++ formatDigits d n
  end.

Definition Number_toFixed (f : nat) (x : number) : string :=
  match Prim2SF x with
  | S754_nan => "NaN"
  | S754_zero _ => fixedDigits f 0
  | S754_infinity s => if s then "-Infinity" else "Infinity"
  | S754_finite s m e =>
      let (num, den) := fracOf m e in
      (if s then "-" else EmptyString) ++
      (if (10 ^ 21 * den <=? num)%Z then
         let (d, n) := digitsOf m e in formatDigits d n
       else fixedDigits f (roundHalfUp (num * 10 ^ Z.of_nat f) den))
  end.

(** ToString of a possibly absent number or string inside a template
    literal. *)
Definition numberInTemplate (v : js number) : string :=
  match v with
  | null => "null"
  | undefined => "undefined"
  | val x => Number_toString x
  end.

Definition stringInTemplate (v : js string) : string :=
  match v with
  | null => "null"
  | undefined => "undefined"
  | val s => s
  end.

(** SameValueZero on numbers, the key equality of [Map]: like [===] except
    that NaN equals itself. *)
Definition sameValueZero (a b : number) : bool :=
  (a =? b)%float || (is_nan a && is_nan b).

End Js.

Import Js.

(** ** The map utility *)

Module Map.

(** Modelled from the spec: [utility/map] is not among the sources given.
    The spec describes the maps built on it as "an ordered-but-keyed table"
    and as a "mapping font family -> mapping of size -> ... scale factor";
    this is the ES6 [Map] interface restricted to what the two classes call:
    [get] (absent keys give [undefined], here [None]), [set] (a present key
    keeps its position and takes the new value, a new key is appended) and
    [forEach] (insertion order).  Keys are compared with the equality
    [eqK]. *)
Definition Map (K V : Type) : Type := list (K * V).

Definition empty {K V} : Map K V := [].

Fixpoint get {K V} (eqK : K -> K -> bool) (k : K) (m : Map K V) : option V :=
  match m with
  | [] => None
  | (k', v) :: rest => if eqK k k' then Some v else get eqK k rest
  end.

Fixpoint set {K V} (eqK : K -> K -> bool) (k : K) (v : V) (m : Map K V) : Map K V :=
  match m with
  | [] => [(k, v)]
  | (k', v') :: rest =>
      if eqK k k' then (k', v) :: rest else (k', v') :: set eqK k v rest
  end.

(** [m.forEach((value, key) => ...)] threading the state the callback
    updates. *)
Definition forEach {K V A} (f : A -> V -> K -> A) (m : Map K V) (a : A) : A :=
  fold_left (fun acc kv => f acc (snd kv) (fst kv)) m a.

Definition keys {K V} (m : Map K V) : list K := map fst m.

End Map.

(** ** [AnimationCollection] *)

Module AnimationCollection.

(** Modelled from the spec: [./keyframe] is not among the sources given; "a
    single keyframe entry: (time value, mapping from visual-property name to
    property value string)". *)
Record Keyframe : Type := mkKeyframe {
  time : number;
  properties : Map.Map string string
}.

(** Modelled from the spec: the part of the renderer the constructor reads,
    its [id] and the playback [rate] of its clock. *)
Record NullRenderer : Type := mkRenderer {
  id : N;
  clock_rate : number
}.

(** The fields of the class; [_numAnimations] counts the animations added. *)
Record t : Type := mkAnimationCollection {
  _id : string;
  _rate : number;
  _cssText : string;
  _animationStyle : string;
  _animationDelays : Map.Map string (js number);
  _numAnimations : N
}.

(** [new AnimationCollection(renderer)], threading the static counter
    [AnimationCollection._nextId]. *)
Definition new (renderer : NullRenderer) (_nextId : N) : t * N :=
  ({| _id := decimalOfN (id renderer) ++ "-" ++ decimalOfN _nextId;
      _rate := clock_rate renderer;
      _cssText := EmptyString;
      _animationStyle := EmptyString;
      _animationDelays := Map.empty;
      _numAnimations := 0 |},
   (_nextId + 1)%N).

Definition cssText (this : t) : string := _cssText this.
Definition animationStyle (this : t) : string := _animationStyle this.
Definition animationDelays (this : t) : Map.Map string (js number) := _animationDelays this.

(** The first [forEach] of [add]: [start] takes the first keyframe's time,
    [end] the last one's. *)
Definition startEnd (keyframes : list Keyframe) : js number * js number :=
  fold_left
    (fun (se : js number * js number) keyframe =>
       let (start, _) := se in
       ((if isNull start then val (time keyframe) else start), val (time keyframe)))
    keyframes (null, null).

(** The expression interpolated before each block's percent sign. *)
Definition percentage (start end_ : js number) (keyframe : Keyframe) : number :=
  (100 * (if (ToNumber end_ - ToNumber start =? 0)
          then 1
          else (time keyframe - ToNumber start) / (ToNumber end_ - ToNumber start)))%float.

Definition propertiesCssText (keyframe : Keyframe) (ruleCssText : string) : string :=
  Map.forEach
    (fun ruleCssText value name =>
       ruleCssText ++ TAB ++ TAB ++ name ++ ": " ++ value ++ ";" ++ LF)
    (properties keyframe) ruleCssText.

(** The second [forEach] of [add]. *)
Definition ruleCssTextOf (start end_ : js number) (keyframes : list Keyframe) : string :=
  fold_left
    (fun ruleCssText keyframe =>
       let ruleCssText :=
         ruleCssText ++ TAB ++ Number_toFixed 3 (percentage start end_ keyframe) ++ "% {" ++ LF in
       let ruleCssText := propertiesCssText keyframe ruleCssText in
       ruleCssText ++ TAB ++ "}" ++ LF)
    keyframes EmptyString.

Definition animationNameOf (this : t) : string :=
  "animation-" ++ _id this ++ "-" ++ decimalOfN (_numAnimations this).

Definition add (timingFunction : string) (keyframes : list Keyframe) (this : t) : t :=
  let (start, end_) := startEnd keyframes in
  let ruleCssText := ruleCssTextOf start end_ keyframes in
  let animationName := animationNameOf this in
  let _numAnimations' := (_numAnimations this + 1)%N in
  let _cssText' :=
    _cssText this ++
    "@-webkit-keyframes " ++ animationName ++ " {" ++ LF ++
    ruleCssText ++ LF ++
    "}" ++ LF ++
    LF ++
    "@keyframes " ++ animationName ++ " {" ++ LF ++
    ruleCssText ++ LF ++
    "}" ++ LF ++
    LF in
  let _animationStyle' :=
    if negb (isEmpty (_animationStyle this)) then _animationStyle this ++ "," else _animationStyle this in
  let _animationStyle'' :=
    _animationStyle' ++ animationName ++ " " ++
    Number_toFixed 3 ((ToNumber end_ - ToNumber start) / _rate this)%float ++ "s " ++ timingFunction in
  {| _id := _id this;
     _rate := _rate this;
     _cssText := _cssText';
     _animationStyle := _animationStyle'';
     _animationDelays := Map.set String.eqb animationName start (_animationDelays this);
     _numAnimations := _numAnimations' |}.

End AnimationCollection.

(** ** Types the span styles read *)

Module Color.

(** Modelled from the spec: [parts.Color] is not among the sources given; "a
    structured RGB triple" with an embedded alpha, and the resolution
    "combining the stored RGB with the stored alpha override, or the RGB's
    own embedded alpha when the override is absent". *)
Record t : Type := mkColor {
  red : number;
  green : number;
  blue : number;
  alpha : number
}.

Definition withAlpha (value : js number) (this : t) : t :=
  match value with
  | val a => mkColor (red this) (green this) (blue this) a
  | _ => this
  end.

Definition toString (this : t) : string :=
  "rgba(" ++ Number_toString (red this) ++ ", " ++ Number_toString (green this) ++ ", " ++
  Number_toString (blue this) ++ ", " ++ Number_toFixed 3 (alpha this) ++ ")".

End Color.

Module Style.

(** Modelled from the spec: [types/style] is not among the sources given;
    "an immutable snapshot of the line's base style (font, colors, outline
    thickness, shadow depth, scale, spacing, rotation-Z, alphas)", with the
    fields [SpanStyles] reads from it. *)
Record t : Type := mkStyle {
  italic : js bool;
  bold : js (bool + number)%type;
  underline : js bool;
  strikeThrough : js bool;
  outlineThickness : js number;
  shadowDepth : js number;
  fontName : js string;
  fontSize : js number;
  fontScaleX : js number;
  fontScaleY : js number;
  letterSpacing : js number;
  rotationZ : js number;
  primaryColor : js Color.t;
  secondaryColor : js Color.t;
  outlineColor : js Color.t;
  shadowColor : js Color.t
}.

End Style.

Module RendererSettings.

(** Modelled from the spec: [../settings] is not among the sources given;
    the two settings read here are whether "filter primitives" are
    available ([enableSvg]) and the "precise-outline mode"
    ([preciseOutlines]). *)
Record t : Type := mkSettings {
  enableSvg : bool;
  preciseOutlines : bool
}.

End RendererSettings.

(** ** [SpanStyles] *)

Module SpanStyles.

(** [_bold : Object] holds a boolean or a numeric weight. *)
Definition boldValue : Type := (bool + number)%type.

Record t : Type := mkSpanStyles {
  _id : string;
  _defaultStyle : Style.t;
  _italic : js bool;
  _bold : js boldValue;
  _underline : js bool;
  _strikeThrough : js bool;
  _outlineWidth : js number;
  _outlineHeight : js number;
  _shadowDepthX : js number;
  _shadowDepthY : js number;
  _fontName : js string;
  _fontSize : js number;
  _fontScaleX : js number;
  _fontScaleY : js number;
  _letterSpacing : js number;
  _rotationX : js number;
  _rotationY : js number;
  _rotationZ : js number;
  _skewX : js number;
  _skewY : js number;
  _primaryColor : js Color.t;
  _secondaryColor : js Color.t;
  _outlineColor : js Color.t;
  _shadowColor : js Color.t;
  _primaryAlpha : js number;
  _secondaryAlpha : js number;
  _outlineAlpha : js number;
  _shadowAlpha : js number;
  _blur : js number;
  _gaussianBlur : js number;
  _nextFilterId : N;
  _scaleX : number;
  _scaleY : number;
  _settings : RendererSettings.t
}.

(** Assignment to one private field, [this._f = v]; the other fields are kept. *)
Definition assign_italic (v : js bool) (this : t) : t :=
  mkSpanStyles (_id this) (_defaultStyle this) v (_bold this) (_underline this)
    (_strikeThrough this) (_outlineWidth this) (_outlineHeight this) (_shadowDepthX this)
    (_shadowDepthY this) (_fontName this) (_fontSize this) (_fontScaleX this) (_fontScaleY this)
    (_letterSpacing this) (_rotationX this) (_rotationY this) (_rotationZ this) (_skewX this)
    (_skewY this) (_primaryColor this) (_secondaryColor this) (_outlineColor this)
    (_shadowColor this) (_primaryAlpha this) (_secondaryAlpha this) (_outlineAlpha this)
    (_shadowAlpha this) (_blur this) (_gaussianBlur this) (_nextFilterId this) (_scaleX this)
    (_scaleY this) (_settings this).

Definition assign_bold (v : js boldValue) (this : t) : t :=
  mkSpanStyles (_id this) (_defaultStyle this) (_italic this) v (_underline this)
    (_strikeThrough this) (_outlineWidth this) (_outlineHeight this) (_shadowDepthX this)
    (_shadowDepthY this) (_fontName this) (_fontSize this) (_fontScaleX this) (_fontScaleY this)
    (_letterSpacing this) (_rotationX this) (_rotationY this) (_rotationZ this) (_skewX this)
    (_skewY this) (_primaryColor this) (_secondaryColor this) (_outlineColor this)
    (_shadowColor this) (_primaryAlpha this) (_secondaryAlpha this) (_outlineAlpha this)
    (_shadowAlpha this) (_blur this) (_gaussianBlur this) (_nextFilterId this) (_scaleX this)
    (_scaleY this) (_settings this).

Definition assign_underline (v : js bool) (this : t) : t :=
  mkSpanStyles (_id this) (_defaultStyle this) (_italic this) (_bold this) v
    (_strikeThrough this) (_outlineWidth this) (_outlineHeight this) (_shadowDepthX this)
    (_shadowDepthY this) (_fontName this) (_fontSize this) (_fontScaleX this) (_fontScaleY this)
    (_letterSpacing this) (_rotationX this) (_rotationY this) (_rotationZ this) (_skewX this)
    (_skewY this) (_primaryColor this) (_secondaryColor this) (_outlineColor this)
    (_shadowColor this) (_primaryAlpha this) (_secondaryAlpha this) (_outlineAlpha this)
    (_shadowAlpha this) (_blur this) (_gaussianBlur this) (_nextFilterId this) (_scaleX this)
    (_scaleY this) (_settings this).

Definition assign_strikeThrough (v : js bool) (this : t) : t :=
  mkSpanStyles (_id this) (_defaultStyle this) (_italic this) (_bold this) (_underline this) v
    (_outlineWidth this) (_outlineHeight this) (_shadowDepthX this) (_shadowDepthY this)
    (_fontName this) (_fontSize this) (_fontScaleX this) (_fontScaleY this)
    (_letterSpacing this) (_rotationX this) (_rotationY this) (_rotationZ this) (_skewX this)
    (_skewY this) (_primaryColor this) (_secondaryColor this) (_outlineColor this)
    (_shadowColor this) (_primaryAlpha this) (_secondaryAlpha this) (_outlineAlpha this)
    (_shadowAlpha this) (_blur this) (_gaussianBlur this) (_nextFilterId this) (_scaleX this)
    (_scaleY this) (_settings this).

Definition assign_outlineWidth (v : js number) (this : t) : t :=
  mkSpanStyles (_id this) (_defaultStyle this) (_italic this) (_bold this) (_underline this)
    (_strikeThrough this) v (_outlineHeight this) (_shadowDepthX this) (_shadowDepthY this)
    (_fontName this) (_fontSize this) (_fontScaleX this) (_fontScaleY this)
    (_letterSpacing this) (_rotationX this) (_rotationY this) (_rotationZ this) (_skewX this)
    (_skewY this) (_primaryColor this) (_secondaryColor this) (_outlineColor this)
    (_shadowColor this) (_primaryAlpha this) (_secondaryAlpha this) (_outlineAlpha this)
    (_shadowAlpha this) (_blur this) (_gaussianBlur this) (_nextFilterId this) (_scaleX this)
    (_scaleY this) (_settings this).

Definition assign_outlineHeight (v : js number) (this : t) : t :=
  mkSpanStyles (_id this) (_defaultStyle this) (_italic this) (_bold this) (_underline this)
    (_strikeThrough this) (_outlineWidth this) v (_shadowDepthX this) (_shadowDepthY this)
    (_fontName this) (_fontSize this) (_fontScaleX this) (_fontScaleY this)
    (_letterSpacing this) (_rotationX this) (_rotationY this) (_rotationZ this) (_skewX this)
    (_skewY this) (_primaryColor this) (_secondaryColor this) (_outlineColor this)
    (_shadowColor this) (_primaryAlpha this) (_secondaryAlpha this) (_outlineAlpha this)
    (_shadowAlpha this) (_blur this) (_gaussianBlur this) (_nextFilterId this) (_scaleX this)
    (_scaleY this) (_settings this).

Definition assign_shadowDepthX (v : js number) (this : t) : t :=
  mkSpanStyles (_id this) (_defaultStyle this) (_italic this) (_bold this) (_underline this)
    (_strikeThrough this) (_outlineWidth this) (_outlineHeight this) v (_shadowDepthY this)
    (_fontName this) (_fontSize this) (_fontScaleX this) (_fontScaleY this)
    (_letterSpacing this) (_rotationX this) (_rotationY this) (_rotationZ this) (_skewX this)
    (_skewY this) (_primaryColor this) (_secondaryColor this) (_outlineColor this)
    (_shadowColor this) (_primaryAlpha this) (_secondaryAlpha this) (_outlineAlpha this)
    (_shadowAlpha this) (_blur this) (_gaussianBlur this) (_nextFilterId this) (_scaleX this)
    (_scaleY this) (_settings this).

Definition assign_shadowDepthY (v : js number) (this : t) : t :=
  mkSpanStyles (_id this) (_defaultStyle this) (_italic this) (_bold this) (_underline this)
    (_strikeThrough this) (_outlineWidth this) (_outlineHeight this) (_shadowDepthX this) v
    (_fontName this) (_fontSize this) (_fontScaleX this) (_fontScaleY this)
    (_letterSpacing this) (_rotationX this) (_rotationY this) (_rotationZ this) (_skewX this)
    (_skewY this) (_primaryColor this) (_secondaryColor this) (_outlineColor this)
    (_shadowColor this) (_primaryAlpha this) (_secondaryAlpha this) (_outlineAlpha this)
    (_shadowAlpha this) (_blur this) (_gaussianBlur this) (_nextFilterId this) (_scaleX this)
    (_scaleY this) (_settings this).

Definition assign_fontName (v : js string) (this : t) : t :=
  mkSpanStyles (_id this) (_defaultStyle this) (_italic this) (_bold this) (_underline this)
    (_strikeThrough this) (_outlineWidth this) (_outlineHeight this) (_shadowDepthX this)
    (_shadowDepthY this) v (_fontSize this) (_fontScaleX this) (_fontScaleY this)
    (_letterSpacing this) (_rotationX this) (_rotationY this) (_rotationZ this) (_skewX this)
    (_skewY this) (_primaryColor this) (_secondaryColor this) (_outlineColor this)
    (_shadowColor this) (_primaryAlpha this) (_secondaryAlpha this) (_outlineAlpha this)
    (_shadowAlpha this) (_blur this) (_gaussianBlur this) (_nextFilterId this) (_scaleX this)
    (_scaleY this) (_settings this).

Definition assign_fontSize (v : js number) (this : t) : t :=
  mkSpanStyles (_id this) (_defaultStyle this) (_italic this) (_bold this) (_underline this)
    (_strikeThrough this) (_outlineWidth this) (_outlineHeight this) (_shadowDepthX this)
    (_shadowDepthY this) (_fontName this) v (_fontScaleX this) (_fontScaleY this)
    (_letterSpacing this) (_rotationX this) (_rotationY this) (_rotationZ this) (_skewX this)
    (_skewY this) (_primaryColor this) (_secondaryColor this) (_outlineColor this)
    (_shadowColor this) (_primaryAlpha this) (_secondaryAlpha this) (_outlineAlpha this)
    (_shadowAlpha this) (_blur this) (_gaussianBlur this) (_nextFilterId this) (_scaleX this)
    (_scaleY this) (_settings this).

Definition assign_fontScaleX (v : js number) (this : t) : t :=
  mkSpanStyles (_id this) (_defaultStyle this) (_italic this) (_bold this) (_underline this)
    (_strikeThrough this) (_outlineWidth this) (_outlineHeight this) (_shadowDepthX this)
    (_shadowDepthY this) (_fontName this) (_fontSize this) v (_fontScaleY this)
    (_letterSpacing this) (_rotationX this) (_rotationY this) (_rotationZ this) (_skewX this)
    (_skewY this) (_primaryColor this) (_secondaryColor this) (_outlineColor this)
    (_shadowColor this) (_primaryAlpha this) (_secondaryAlpha this) (_outlineAlpha this)
    (_shadowAlpha this) (_blur this) (_gaussianBlur this) (_nextFilterId this) (_scaleX this)
    (_scaleY this) (_settings this).

Definition assign_fontScaleY (v : js number) (this : t) : t :=
  mkSpanStyles (_id this) (_defaultStyle this) (_italic this) (_bold this) (_underline this)
    (_strikeThrough this) (_outlineWidth this) (_outlineHeight this) (_shadowDepthX this)
    (_shadowDepthY this) (_fontName this) (_fontSize this) (_fontScaleX this) v
    (_letterSpacing this) (_rotationX this) (_rotationY this) (_rotationZ this) (_skewX this)
    (_skewY this) (_primaryColor this) (_secondaryColor this) (_outlineColor this)
    (_shadowColor this) (_primaryAlpha this) (_secondaryAlpha this) (_outlineAlpha this)
    (_shadowAlpha this) (_blur this) (_gaussianBlur this) (_nextFilterId this) (_scaleX this)
    (_scaleY this) (_settings this).

Definition assign_letterSpacing (v : js number) (this : t) : t :=
  mkSpanStyles (_id this) (_defaultStyle this) (_italic this) (_bold this) (_underline this)
    (_strikeThrough this) (_outlineWidth this) (_outlineHeight this) (_shadowDepthX this)
    (_shadowDepthY this) (_fontName this) (_fontSize this) (_fontScaleX this) (_fontScaleY this)
    v (_rotationX this) (_rotationY this) (_rotationZ this) (_skewX this) (_skewY this)
    (_primaryColor this) (_secondaryColor this) (_outlineColor this) (_shadowColor this)
    (_primaryAlpha this) (_secondaryAlpha this) (_outlineAlpha this) (_shadowAlpha this)
    (_blur this) (_gaussianBlur this) (_nextFilterId this) (_scaleX this) (_scaleY this)
    (_settings this).

Definition assign_rotationX (v : js number) (this : t) : t :=
  mkSpanStyles (_id this) (_defaultStyle this) (_italic this) (_bold this) (_underline this)
    (_strikeThrough this) (_outlineWidth this) (_outlineHeight this) (_shadowDepthX this)
    (_shadowDepthY this) (_fontName this) (_fontSize this) (_fontScaleX this) (_fontScaleY this)
    (_letterSpacing this) v (_rotationY this) (_rotationZ this) (_skewX this) (_skewY this)
    (_primaryColor this) (_secondaryColor this) (_outlineColor this) (_shadowColor this)
    (_primaryAlpha this) (_secondaryAlpha this) (_outlineAlpha this) (_shadowAlpha this)
    (_blur this) (_gaussianBlur this) (_nextFilterId this) (_scaleX this) (_scaleY this)
    (_settings this).

Definition assign_rotationY (v : js number) (this : t) : t :=
  mkSpanStyles (_id this) (_defaultStyle this) (_italic this) (_bold this) (_underline this)
    (_strikeThrough this) (_outlineWidth this) (_outlineHeight this) (_shadowDepthX this)
    (_shadowDepthY this) (_fontName this) (_fontSize this) (_fontScaleX this) (_fontScaleY this)
    (_letterSpacing this) (_rotationX this) v (_rotationZ this) (_skewX this) (_skewY this)
    (_primaryColor this) (_secondaryColor this) (_outlineColor this) (_shadowColor this)
    (_primaryAlpha this) (_secondaryAlpha this) (_outlineAlpha this) (_shadowAlpha this)
    (_blur this) (_gaussianBlur this) (_nextFilterId this) (_scaleX this) (_scaleY this)
    (_settings this).

Definition assign_rotationZ (v : js number) (this : t) : t :=
  mkSpanStyles (_id this) (_defaultStyle this) (_italic this) (_bold this) (_underline this)
    (_strikeThrough this) (_outlineWidth this) (_outlineHeight this) (_shadowDepthX this)
    (_shadowDepthY this) (_fontName this) (_fontSize this) (_fontScaleX this) (_fontScaleY this)
    (_letterSpacing this) (_rotationX this) (_rotationY this) v (_skewX this) (_skewY this)
    (_primaryColor this) (_secondaryColor this) (_outlineColor this) (_shadowColor this)
    (_primaryAlpha this) (_secondaryAlpha this) (_outlineAlpha this) (_shadowAlpha this)
    (_blur this) (_gaussianBlur this) (_nextFilterId this) (_scaleX this) (_scaleY this)
    (_settings this).

Definition assign_skewX (v : js number) (this : t) : t :=
  mkSpanStyles (_id this) (_defaultStyle this) (_italic this) (_bold this) (_underline this)
    (_strikeThrough this) (_outlineWidth this) (_outlineHeight this) (_shadowDepthX this)
    (_shadowDepthY this) (_fontName this) (_fontSize this) (_fontScaleX this) (_fontScaleY this)
    (_letterSpacing this) (_rotationX this) (_rotationY this) (_rotationZ this) v (_skewY this)
    (_primaryColor this) (_secondaryColor this) (_outlineColor this) (_shadowColor this)
    (_primaryAlpha this) (_secondaryAlpha this) (_outlineAlpha this) (_shadowAlpha this)
    (_blur this) (_gaussianBlur this) (_nextFilterId this) (_scaleX this) (_scaleY this)
    (_settings this).

Definition assign_skewY (v : js number) (this : t) : t :=
  mkSpanStyles (_id this) (_defaultStyle this) (_italic this) (_bold this) (_underline this)
    (_strikeThrough this) (_outlineWidth this) (_outlineHeight this) (_shadowDepthX this)
    (_shadowDepthY this) (_fontName this) (_fontSize this) (_fontScaleX this) (_fontScaleY this)
    (_letterSpacing this) (_rotationX this) (_rotationY this) (_rotationZ this) (_skewX this) v
    (_primaryColor this) (_secondaryColor this) (_outlineColor this) (_shadowColor this)
    (_primaryAlpha this) (_secondaryAlpha this) (_outlineAlpha this) (_shadowAlpha this)
    (_blur this) (_gaussianBlur this) (_nextFilterId this) (_scaleX this) (_scaleY this)
    (_settings this).

Definition assign_primaryColor (v : js Color.t) (this : t) : t :=
  mkSpanStyles (_id this) (_defaultStyle this) (_italic this) (_bold this) (_underline this)
    (_strikeThrough this) (_outlineWidth this) (_outlineHeight this) (_shadowDepthX this)
    (_shadowDepthY this) (_fontName this) (_fontSize this) (_fontScaleX this) (_fontScaleY this)
    (_letterSpacing this) (_rotationX this) (_rotationY this) (_rotationZ this) (_skewX this)
    (_skewY this) v (_secondaryColor this) (_outlineColor this) (_shadowColor this)
    (_primaryAlpha this) (_secondaryAlpha this) (_outlineAlpha this) (_shadowAlpha this)
    (_blur this) (_gaussianBlur this) (_nextFilterId this) (_scaleX this) (_scaleY this)
    (_settings this).

Definition assign_secondaryColor (v : js Color.t) (this : t) : t :=
  mkSpanStyles (_id this) (_defaultStyle this) (_italic this) (_bold this) (_underline this)
    (_strikeThrough this) (_outlineWidth this) (_outlineHeight this) (_shadowDepthX this)
    (_shadowDepthY this) (_fontName this) (_fontSize this) (_fontScaleX this) (_fontScaleY this)
    (_letterSpacing this) (_rotationX this) (_rotationY this) (_rotationZ this) (_skewX this)
    (_skewY this) (_primaryColor this) v (_outlineColor this) (_shadowColor this)
    (_primaryAlpha this) (_secondaryAlpha this) (_outlineAlpha this) (_shadowAlpha this)
    (_blur this) (_gaussianBlur this) (_nextFilterId this) (_scaleX this) (_scaleY this)
    (_settings this).

Definition assign_outlineColor (v : js Color.t) (this : t) : t :=
  mkSpanStyles (_id this) (_defaultStyle this) (_italic this) (_bold this) (_underline this)
    (_strikeThrough this) (_outlineWidth this) (_outlineHeight this) (_shadowDepthX this)
    (_shadowDepthY this) (_fontName this) (_fontSize this) (_fontScaleX this) (_fontScaleY this)
    (_letterSpacing this) (_rotationX this) (_rotationY this) (_rotationZ this) (_skewX this)
    (_skewY this) (_primaryColor this) (_secondaryColor this) v (_shadowColor this)
    (_primaryAlpha this) (_secondaryAlpha this) (_outlineAlpha this) (_shadowAlpha this)
    (_blur this) (_gaussianBlur this) (_nextFilterId this) (_scaleX this) (_scaleY this)
    (_settings this).

Definition assign_shadowColor (v : js Color.t) (this : t) : t :=
  mkSpanStyles (_id this) (_defaultStyle this) (_italic this) (_bold this) (_underline this)
    (_strikeThrough this) (_outlineWidth this) (_outlineHeight this) (_shadowDepthX this)
    (_shadowDepthY this) (_fontName this) (_fontSize this) (_fontScaleX this) (_fontScaleY this)
    (_letterSpacing this) (_rotationX this) (_rotationY this) (_rotationZ this) (_skewX this)
    (_skewY this) (_primaryColor this) (_secondaryColor this) (_outlineColor this) v
    (_primaryAlpha this) (_secondaryAlpha this) (_outlineAlpha this) (_shadowAlpha this)
    (_blur this) (_gaussianBlur this) (_nextFilterId this) (_scaleX this) (_scaleY this)
    (_settings this).

Definition assign_primaryAlpha (v : js number) (this : t) : t :=
  mkSpanStyles (_id this) (_defaultStyle this) (_italic this) (_bold this) (_underline this)
    (_strikeThrough this) (_outlineWidth this) (_outlineHeight this) (_shadowDepthX this)
    (_shadowDepthY this) (_fontName this) (_fontSize this) (_fontScaleX this) (_fontScaleY this)
    (_letterSpacing this) (_rotationX this) (_rotationY this) (_rotationZ this) (_skewX this)
    (_skewY this) (_primaryColor this) (_secondaryColor this) (_outlineColor this)
    (_shadowColor this) v (_secondaryAlpha this) (_outlineAlpha this) (_shadowAlpha this)
    (_blur this) (_gaussianBlur this) (_nextFilterId this) (_scaleX this) (_scaleY this)
    (_settings this).

Definition assign_secondaryAlpha (v : js number) (this : t) : t :=
  mkSpanStyles (_id this) (_defaultStyle this) (_italic this) (_bold this) (_underline this)
    (_strikeThrough this) (_outlineWidth this) (_outlineHeight this) (_shadowDepthX this)
    (_shadowDepthY this) (_fontName this) (_fontSize this) (_fontScaleX this) (_fontScaleY this)
    (_letterSpacing this) (_rotationX this) (_rotationY this) (_rotationZ this) (_skewX this)
    (_skewY this) (_primaryColor this) (_secondaryColor this) (_outlineColor this)
    (_shadowColor this) (_primaryAlpha this) v (_outlineAlpha this) (_shadowAlpha this)
    (_blur this) (_gaussianBlur this) (_nextFilterId this) (_scaleX this) (_scaleY this)
    (_settings this).

Definition assign_outlineAlpha (v : js number) (this : t) : t :=
  mkSpanStyles (_id this) (_defaultStyle this) (_italic this) (_bold this) (_underline this)
    (_strikeThrough this) (_outlineWidth this) (_outlineHeight this) (_shadowDepthX this)
    (_shadowDepthY this) (_fontName this) (_fontSize this) (_fontScaleX this) (_fontScaleY this)
    (_letterSpacing this) (_rotationX this) (_rotationY this) (_rotationZ this) (_skewX this)
    (_skewY this) (_primaryColor this) (_secondaryColor this) (_outlineColor this)
    (_shadowColor this) (_primaryAlpha this) (_secondaryAlpha this) v (_shadowAlpha this)
    (_blur this) (_gaussianBlur this) (_nextFilterId this) (_scaleX this) (_scaleY this)
    (_settings this).

Definition assign_shadowAlpha (v : js number) (this : t) : t :=
  mkSpanStyles (_id this) (_defaultStyle this) (_italic this) (_bold this) (_underline this)
    (_strikeThrough this) (_outlineWidth this) (_outlineHeight this) (_shadowDepthX this)
    (_shadowDepthY this) (_fontName this) (_fontSize this) (_fontScaleX this) (_fontScaleY this)
    (_letterSpacing this) (_rotationX this) (_rotationY this) (_rotationZ this) (_skewX this)
    (_skewY this) (_primaryColor this) (_secondaryColor this) (_outlineColor this)
    (_shadowColor this) (_primaryAlpha this) (_secondaryAlpha this) (_outlineAlpha this) v
    (_blur this) (_gaussianBlur this) (_nextFilterId this) (_scaleX this) (_scaleY this)
    (_settings this).

Definition assign_blur (v : js number) (this : t) : t :=
  mkSpanStyles (_id this) (_defaultStyle this) (_italic this) (_bold this) (_underline this)
    (_strikeThrough this) (_outlineWidth this) (_outlineHeight this) (_shadowDepthX this)
    (_shadowDepthY this) (_fontName this) (_fontSize this) (_fontScaleX this) (_fontScaleY this)
    (_letterSpacing this) (_rotationX this) (_rotationY this) (_rotationZ this) (_skewX this)
    (_skewY this) (_primaryColor this) (_secondaryColor this) (_outlineColor this)
    (_shadowColor this) (_primaryAlpha this) (_secondaryAlpha this) (_outlineAlpha this)
    (_shadowAlpha this) v (_gaussianBlur this) (_nextFilterId this) (_scaleX this)
    (_scaleY this) (_settings this).

Definition assign_gaussianBlur (v : js number) (this : t) : t :=
  mkSpanStyles (_id this) (_defaultStyle this) (_italic this) (_bold this) (_underline this)
    (_strikeThrough this) (_outlineWidth this) (_outlineHeight this) (_shadowDepthX this)
    (_shadowDepthY this) (_fontName this) (_fontSize this) (_fontScaleX this) (_fontScaleY this)
    (_letterSpacing this) (_rotationX this) (_rotationY this) (_rotationZ this) (_skewX this)
    (_skewY this) (_primaryColor this) (_secondaryColor this) (_outlineColor this)
    (_shadowColor this) (_primaryAlpha this) (_secondaryAlpha this) (_outlineAlpha this)
    (_shadowAlpha this) (_blur this) v (_nextFilterId this) (_scaleX this) (_scaleY this)
    (_settings this).

Definition assign_nextFilterId (v : N) (this : t) : t :=
  mkSpanStyles (_id this) (_defaultStyle this) (_italic this) (_bold this) (_underline this)
    (_strikeThrough this) (_outlineWidth this) (_outlineHeight this) (_shadowDepthX this)
    (_shadowDepthY this) (_fontName this) (_fontSize this) (_fontScaleX this) (_fontScaleY this)
    (_letterSpacing this) (_rotationX this) (_rotationY this) (_rotationZ this) (_skewX this)
    (_skewY this) (_primaryColor this) (_secondaryColor this) (_outlineColor this)
    (_shadowColor this) (_primaryAlpha this) (_secondaryAlpha this) (_outlineAlpha this)
    (_shadowAlpha this) (_blur this) (_gaussianBlur this) v (_scaleX this) (_scaleY this)
    (_settings this).

(** [_valueOrDefault]: only [null] is replaced by the default. *)
Definition _valueOrDefault {T} (newValue defaultValue : js T) : js T :=
  if negb (isNull newValue) then newValue else defaultValue.

(** *** The attribute setters *)

Definition set_italic (value : js bool) (this : t) : t :=
  assign_italic (_valueOrDefault value (Style.italic (_defaultStyle this))) this.

Definition set_bold (value : js boldValue) (this : t) : t :=
  assign_bold (_valueOrDefault value (Style.bold (_defaultStyle this))) this.

Definition set_underline (value : js bool) (this : t) : t :=
  assign_underline (_valueOrDefault value (Style.underline (_defaultStyle this))) this.

Definition set_strikeThrough (value : js bool) (this : t) : t :=
  assign_strikeThrough (_valueOrDefault value (Style.strikeThrough (_defaultStyle this))) this.

Definition set_outlineWidth (value : js number) (this : t) : t :=
  assign_outlineWidth (_valueOrDefault value (Style.outlineThickness (_defaultStyle this))) this.

Definition set_outlineHeight (value : js number) (this : t) : t :=
  assign_outlineHeight (_valueOrDefault value (Style.outlineThickness (_defaultStyle this))) this.

Definition set_shadowDepthX (value : js number) (this : t) : t :=
  assign_shadowDepthX (_valueOrDefault value (Style.shadowDepth (_defaultStyle this))) this.

Definition set_shadowDepthY (value : js number) (this : t) : t :=
  assign_shadowDepthY (_valueOrDefault value (Style.shadowDepth (_defaultStyle this))) this.

Definition set_blur (value : js number) (this : t) : t :=
  assign_blur (_valueOrDefault value (val 0%float)) this.

Definition set_gaussianBlur (value : js number) (this : t) : t :=
  assign_gaussianBlur (_valueOrDefault value (val 0%float)) this.

Definition set_fontName (value : js string) (this : t) : t :=
  assign_fontName (_valueOrDefault value (Style.fontName (_defaultStyle this))) this.

Definition set_fontSize (value : js number) (this : t) : t :=
  assign_fontSize (_valueOrDefault value (Style.fontSize (_defaultStyle this))) this.

Definition set_fontScaleX (value : js number) (this : t) : t :=
  assign_fontScaleX (_valueOrDefault value (Style.fontScaleX (_defaultStyle this))) this.

Definition set_fontScaleY (value : js number) (this : t) : t :=
  assign_fontScaleY (_valueOrDefault value (Style.fontScaleY (_defaultStyle this))) this.

Definition set_letterSpacing (value : js number) (this : t) : t :=
  assign_letterSpacing (_valueOrDefault value (Style.letterSpacing (_defaultStyle this))) this.

Definition set_rotationX (value : js number) (this : t) : t :=
  assign_rotationX value this.

Definition set_rotationY (value : js number) (this : t) : t :=
  assign_rotationY value this.

Definition set_rotationZ (value : js number) (this : t) : t :=
  assign_rotationZ (_valueOrDefault value (Style.rotationZ (_defaultStyle this))) this.

Definition set_skewX (value : js number) (this : t) : t :=
  assign_skewX value this.

Definition set_skewY (value : js number) (this : t) : t :=
  assign_skewY value this.

Definition get_primaryColor (this : t) : js Color.t := _primaryColor this.

Definition set_primaryColor (value : js Color.t) (this : t) : t :=
  assign_primaryColor (_valueOrDefault value (Style.primaryColor (_defaultStyle this))) this.

Definition get_secondaryColor (this : t) : js Color.t := _secondaryColor this.

Definition set_secondaryColor (value : js Color.t) (this : t) : t :=
  assign_secondaryColor (_valueOrDefault value (Style.secondaryColor (_defaultStyle this))) this.

Definition set_outlineColor (value : js Color.t) (this : t) : t :=
  assign_outlineColor (_valueOrDefault value (Style.outlineColor (_defaultStyle this))) this.

Definition set_shadowColor (value : js Color.t) (this : t) : t :=
  assign_shadowColor (_valueOrDefault value (Style.shadowColor (_defaultStyle this))) this.

Definition get_primaryAlpha (this : t) : js number := _primaryAlpha this.

Definition set_primaryAlpha (value : js number) (this : t) : t :=
  assign_primaryAlpha value this.

Definition get_secondaryAlpha (this : t) : js number := _secondaryAlpha this.

Definition set_secondaryAlpha (value : js number) (this : t) : t :=
  assign_secondaryAlpha value this.

Definition set_outlineAlpha (value : js number) (this : t) : t :=
  assign_outlineAlpha value this.

Definition set_shadowAlpha (value : js number) (this : t) : t :=
  assign_shadowAlpha value this.

(** *** [reset] *)

Definition reset (newStyle : js Style.t) (this : t) : t :=
  let newStyle :=
    match newStyle with
    | val style => style
    | _ => _defaultStyle this   (* newStyle === undefined || newStyle === null *)
    end in
  let this := set_italic (Style.italic newStyle) this in
  let this := set_bold (Style.bold newStyle) this in
  let this := set_underline (Style.underline newStyle) this in
  let this := set_strikeThrough (Style.strikeThrough newStyle) this in
  let this := set_outlineWidth (Style.outlineThickness newStyle) this in
  let this := set_outlineHeight (Style.outlineThickness newStyle) this in
  let this := set_shadowDepthX (Style.shadowDepth newStyle) this in
  let this := set_shadowDepthY (Style.shadowDepth newStyle) this in
  let this := set_fontName (Style.fontName newStyle) this in
  let this := set_fontSize (Style.fontSize newStyle) this in
  let this := set_fontScaleX (Style.fontScaleX newStyle) this in
  let this := set_fontScaleY (Style.fontScaleY newStyle) this in
  let this := set_letterSpacing (Style.letterSpacing newStyle) this in
  let this := assign_rotationX null this in
  let this := assign_rotationY null this in
  let this := assign_rotationZ (Style.rotationZ newStyle) this in
  let this := assign_skewX null this in
  let this := assign_skewY null this in
  let this := set_primaryColor (Style.primaryColor newStyle) this in
  let this := set_secondaryColor (Style.secondaryColor newStyle) this in
  let this := set_outlineColor (Style.outlineColor newStyle) this in
  let this := set_shadowColor (Style.shadowColor newStyle) this in
  let this := set_primaryAlpha null this in
  let this := set_secondaryAlpha null this in
  let this := set_outlineAlpha null this in
  let this := set_shadowAlpha null this in
  let this := set_blur null this in
  let this := set_gaussianBlur null this in
  this.

(** [new SpanStyles(renderer, dialogue, scaleX, scaleY, settings, ...)]: the
    fields are those of a fresh object ([undefined] until assigned), then
    [reset(null)]. *)
Definition new (rendererId dialogueId : N) (dialogueStyle : Style.t)
    (scaleX scaleY : number) (settings : RendererSettings.t) : t :=
  reset null
    (mkSpanStyles
       (decimalOfN rendererId ++ "-" ++ decimalOfN dialogueId) dialogueStyle
       undefined undefined undefined undefined undefined undefined undefined undefined
       undefined undefined undefined undefined undefined undefined undefined undefined
       undefined undefined undefined undefined undefined undefined undefined undefined
       undefined undefined undefined undefined
       0%N scaleX scaleY settings).

(** *** The document the styles are written to *)

(** [element.style], as the property bag the code assigns to: a property
    never assigned reads as the empty string, an assigned one reads as the
    text assigned (what the browser makes of that text is not modelled). *)
Definition CSSStyleDeclaration : Type := Map.Map string string.

Definition getProperty (name : string) (style : CSSStyleDeclaration) : string :=
  match Map.get String.eqb name style with
  | Some v => v
  | None => EmptyString
  end.

Definition setProperty (name value : string) (style : CSSStyleDeclaration) : CSSStyleDeclaration :=
  Map.set String.eqb name value style.

(** The [<span>] handed to [setStylesOnSpan]: whether
    [span.childNodes[0] instanceof Text], and its style. *)
Record HTMLSpanElement : Type := mkSpan {
  firstChildIsText : bool;
  style : CSSStyleDeclaration
}.

(** The [<span>] created around it. *)
Record FilterWrapperSpan : Type := mkWrapper {
  wrapperStyle : CSSStyleDeclaration;
  wrapped : HTMLSpanElement
}.

(** What the class shares with the rest of the page: the static
    [_fontSizeCache], the measuring [<div>] ([offsetHeight] is what the
    browser lays out for the family and the size that [_getFontSize] has
    just assigned to its style; every read of it is logged), the children
    appended to the SVG [<defs>] element and to the animation [<style>]
    element.  The size is the value [_getFontSize] is handed, a number,
    [null] or [undefined]: it is the key of the inner map as it is, and it
    is written to the style as [`${ lineHeight }px`]. *)
Record Dom : Type := mkDom {
  _fontSizeCache : Map.Map (js string) (Map.Map (js number) number);
  offsetHeight : js string -> js number -> number;
  offsetHeightReads : list (js string * js number);
  _svgDefsElement : list string;
  animationStyleElement : list string
}.

(** The key equalities of the two maps: SameValueZero, which on strings,
    [null] and [undefined] is [===]. *)
Definition familyEq : js string -> js string -> bool := strictEq String.eqb.

Definition sizeEq : js number -> js number -> bool := strictEq sameValueZero.

(** *** [_getFontSize] *)

Definition _getFontSize (fontFamily : js string) (lineHeight : js number) (dom : Dom)
  : number * Dom :=
  let (existingFontSizeMap, cache) :=
    match Map.get familyEq fontFamily (_fontSizeCache dom) with
    | Some m => (m, _fontSizeCache dom)
    | None => (Map.empty, Map.set familyEq fontFamily Map.empty (_fontSizeCache dom))
    end in
  match Map.get sizeEq lineHeight existingFontSizeMap with
  | Some existingFontSize =>
      (existingFontSize,
       mkDom cache (offsetHeight dom) (offsetHeightReads dom)
         (_svgDefsElement dom) (animationStyleElement dom))
  | None =>
      let existingFontSize :=
        (ToNumber lineHeight * ToNumber lineHeight /
         offsetHeight dom fontFamily lineHeight)%float in
      (* the inner map is one object: its update is seen through the cache *)
      let existingFontSizeMap :=
        Map.set sizeEq lineHeight existingFontSize existingFontSizeMap in
      (existingFontSize,
       mkDom (Map.set familyEq fontFamily existingFontSizeMap cache) (offsetHeight dom)
         (offsetHeightReads dom ++ [(fontFamily, lineHeight)])%list
         (_svgDefsElement dom) (animationStyleElement dom))
  end.

(** *** Loops *)

Notation "x <- m ;; k" := (bind m (fun x => k))
  (at level 61, m at next level, right associativity).
Notation "' p <- m ;; k" := (bind m (fun x => let 'p := x in k))
  (at level 61, p pattern, m at next level, right associativity).

(** [for (var i = init; cond(i); i = next(i)) body]: the final value of
    the loop variable and the state the body has threaded. *)
Fixpoint forLoop {A} (fuel : nat) (cond : number -> bool) (next : number -> number)
    (body : number -> A -> outcome A) (i : number) (acc : A) : outcome (number * A) :=
  match fuel with
  | O => OutOfFuel
  | S fuel' =>
      if cond i then
        acc' <- body i acc ;;
        forLoop fuel' cond next body (next i) acc'
      else Ok (i, acc)
  end.

(** *** The outline walks *)

(** The walk of the SVG branch, for any callback [addOutline]. *)
Definition svgOutlineWalk {A} (fuel : nat) (addOutline : number -> number -> A -> outcome A)
    (outlineWidth outlineHeight increment : number) (acc : A) : outcome A :=
  if (outlineWidth <=? outlineHeight)%float then
    if (0 <? outlineWidth)%float then
      '(x, acc) <- forLoop fuel (fun x => (x <=? outlineWidth)%float)
                     (fun x => (x + increment)%float)
                     (fun x acc =>
                        addOutline x
                          (outlineHeight / outlineWidth *
                           sqrt (outlineWidth * outlineWidth - x * x))%float acc)
                     0%float acc ;;
      if negb (x =? outlineWidth + increment)%float
      then addOutline outlineWidth 0%float acc
      else Ok acc
    else addOutline 0%float outlineHeight acc
  else
    if (0 <? outlineHeight)%float then
      '(y, acc) <- forLoop fuel (fun y => (y <=? outlineHeight)%float)
                     (fun y => (y + increment)%float)
                     (fun y acc =>
                        addOutline
                          (outlineWidth / outlineHeight *
                           sqrt (outlineHeight * outlineHeight - y * y))%float y acc)
                     0%float acc ;;
      if negb (y =? outlineHeight + increment)%float
      then addOutline 0%float outlineHeight acc
      else Ok acc
    else addOutline outlineWidth 0%float acc.

(** The walk of the text-shadow branch, for any callback [addOutline]. *)
Definition shadowOutlineWalk {A} (fuel : nat) (addOutline : number -> number -> A -> outcome A)
    (outlineWidth outlineHeight : number) (acc : A) : outcome A :=
  '(_, acc) <- forLoop fuel (fun x => (x <=? outlineWidth)%float) (fun x => (x + 1)%float)
    (fun x acc =>
       let maxY :=
         if (outlineWidth =? 0)%float then outlineHeight
         else (outlineHeight * sqrt (1 - ((x * x) / (outlineWidth * outlineWidth))))%float in
       '(_, acc) <- forLoop fuel (fun y => (y <=? maxY)%float) (fun y => (y + 1)%float)
         (fun y acc =>
            acc <- addOutline x y acc ;;
            acc <- (if negb (x =? 0)%float then addOutline (- x)%float y acc else Ok acc) ;;
            acc <- (if negb (y =? 0)%float then addOutline x (- y)%float acc else Ok acc) ;;
            if negb (x =? 0)%float && negb (y =? 0)%float
            then addOutline (- x)%float (- y)%float acc
            else Ok acc)
         0%float acc ;;
       Ok acc)
    0%float acc ;;
  Ok acc.

(** The callback that records the radii it is called with, in order. *)
Definition recordOutline (x y : number) (acc : list (number * number))
  : outcome (list (number * number)) :=
  Ok (acc ++ [(x, y)])%list.

Definition svgOutlines (fuel : nat) (outlineWidth outlineHeight increment : number)
  : outcome (list (number * number)) :=
  svgOutlineWalk fuel recordOutline outlineWidth outlineHeight increment [].

Definition shadowOutlines (fuel : nat) (outlineWidth outlineHeight : number)
  : outcome (list (number * number)) :=
  shadowOutlineWalk fuel recordOutline outlineWidth outlineHeight [].

(** *** [setStylesOnSpan], piece by piece *)

Definition q (s : string) : string := DQUOTE ++ s ++ DQUOTE.

Definition boldIs (b : bool) (v : js boldValue) : bool :=
  match v with
  | val (inl b') => Bool.eqb b b'
  | _ => false
  end.

(** [this._bold + " "] without the space. *)
Definition boldInTemplate (v : js boldValue) : string :=
  match v with
  | null => "null"
  | undefined => "undefined"
  | val (inl b) => if b then "true" else "false"
  | val (inr n) => Number_toString n
  end.

Definition fontStyleOrWeightOf (this : t) : string :=
  let fontStyleOrWeight := EmptyString in
  let fontStyleOrWeight :=
    if ToBoolean (_italic this) then fontStyleOrWeight ++ "italic " else fontStyleOrWeight in
  if boldIs true (_bold this) then fontStyleOrWeight ++ "bold "
  else if negb (boldIs false (_bold this))
       then fontStyleOrWeight ++ boldInTemplate (_bold this) ++ " "
       else fontStyleOrWeight.

(** The size handed to [_getFontSize]: the product
    [this._fontSize * this._fontScaleY], a number, for a text-only span, and
    [this._fontSize] as it is stored for any other. *)
Definition effectivePointSize (isTextOnlySpan : bool) (this : t) : js number :=
  if isTextOnlySpan
  then val (ToNumber (_fontSize this) * ToNumber (_fontScaleY this))%float
  else _fontSize this.

Definition textDecorationOf (this : t) : string :=
  let textDecoration := EmptyString in
  let textDecoration :=
    if ToBoolean (_underline this) then "underline" else textDecoration in
  let textDecoration :=
    if ToBoolean (_strikeThrough this) then textDecoration ++ " line-through"
    else textDecoration in
  trim textDecoration.

Definition transformOf (isTextOnlySpan : bool) (this : t) : string :=
  let transform := EmptyString in
  let transform :=
    if isTextOnlySpan then
      if negb (numEq (_fontScaleY this) (_fontScaleX this)) then
        transform ++ "scaleY(" ++
        Number_toFixed 3 (ToNumber (_fontScaleY this) / ToNumber (_fontScaleX this))%float ++ ") "
      else transform
    else
      let transform :=
        if negb (numEq (_fontScaleX this) (val 1%float))
        then transform ++ "scaleX(" ++ numberInTemplate (_fontScaleX this) ++ ") "
        else transform in
      if negb (numEq (_fontScaleY this) (val 1%float))
      then transform ++ "scaleY(" ++ numberInTemplate (_fontScaleY this) ++ ") "
      else transform in
  let transform :=
    if negb (isNull (_rotationY this))
    then transform ++ "rotateY(" ++ numberInTemplate (_rotationY this) ++ "deg) "
    else transform in
  let transform :=
    if negb (isNull (_rotationX this))
    then transform ++ "rotateX(" ++ numberInTemplate (_rotationX this) ++ "deg) "
    else transform in
  let transform :=
    if negb (numEq (_rotationZ this) (val 0%float))
    then transform ++ "rotateZ(" ++
         Number_toString (-1 * ToNumber (_rotationZ this))%float ++ "deg) "
    else transform in
  if negb (isNull (_skewX this)) || negb (isNull (_skewY this)) then
    let skewX := _valueOrDefault (_skewX this) (val 0%float) in
    let skewY := _valueOrDefault (_skewY this) (val 0%float) in
    transform ++ "matrix(1, " ++ numberInTemplate skewY ++ ", " ++
    numberInTemplate skewX ++ ", 1, 0, 0) "
  else transform.

(** [if (transform !== "") { ... }] on the span's style. *)
Definition applyTransform (transform : string) (style : CSSStyleDeclaration)
  : CSSStyleDeclaration :=
  if negb (isEmpty transform) then
    let style := setProperty "webkitTransform" transform style in
    let style := setProperty "webkitTransformOrigin" "50% 50%" style in
    let style := setProperty "transform" transform style in
    let style := setProperty "transformOrigin" "50% 50%" style in
    setProperty "display" "inline-block" style
  else style.

(** [this._color.withAlpha(this._alpha)]: a [TypeError] when the colour is
    [null] or [undefined]. *)
Definition colorWithAlpha (color : js Color.t) (alpha : js number) : outcome Color.t :=
  match color with
  | val c => Ok (Color.withAlpha alpha c)
  | _ => TypeError
  end.

(** The step of the SVG walk. *)
Definition incrementOf (this : t) : number :=
  if negb (RendererSettings.preciseOutlines (_settings this)) &&
     (0 <? ToNumber (_gaussianBlur this))%float
  then ToNumber (_gaussianBlur this)
  else 1%float.

(** The two texts the callback of the SVG branch appends. *)
Definition feMorphology (x y : number) (outlineNumber : N) : string :=
  TAB ++ "<feMorphology in=" ++ q "SourceAlpha" ++ " operator=" ++ q "dilate" ++
  " radius=" ++ q (Number_toFixed 3 x ++ " " ++ Number_toFixed 3 y) ++
  " result=" ++ q ("outline" ++ decimalOfN outlineNumber) ++ " />" ++ LF.

Definition feMergeNode (outlineNumber : N) : string :=
  TAB ++ TAB ++ "<feMergeNode in=" ++ q ("outline" ++ decimalOfN outlineNumber) ++ " />" ++ LF.

(** The callback of the SVG branch: [outlineFilter], [mergeOutlinesFilter]
    and [outlineNumber]. *)
Definition svgAddOutline (x y : number) (acc : string * string * N)
  : outcome (string * string * N) :=
  let '(outlineFilter, mergeOutlinesFilter, outlineNumber) := acc in
  Ok (outlineFilter ++ feMorphology x y outlineNumber,
      mergeOutlinesFilter ++ feMergeNode outlineNumber,
      (outlineNumber + 1)%N).

(** The text appended after the walk: the merge of the dilations, flooded
    with the outline colour. *)
Definition mergeOutlines (mergeOutlinesFilter : string) (outlineColor : Color.t) : string :=
  TAB ++ "<feMerge result=" ++ q "outline" ++ ">" ++ LF ++
  mergeOutlinesFilter ++ LF ++
  "</feMerge>" ++ LF ++
  "<feFlood flood-color=" ++ q (Color.toString outlineColor) ++ " />" ++ LF ++
  "<feComposite operator=" ++ q "in" ++ " in2=" ++ q "outline" ++ " />" ++ LF.

(** One entry of [outlineCssString]. *)
Definition shadowEntry (outlineColor : Color.t) (blur x y : number) : string :=
  ", " ++ Color.toString outlineColor ++ " " ++
  Number_toString x ++ "px " ++ Number_toString y ++ "px " ++
  Number_toFixed 3 blur ++ "px".

(** The callback of the text-shadow branch: [outlineCssString];
    [this._gaussianBlur.toFixed(3)] is a [TypeError] on [null] and
    [undefined]. *)
Definition shadowAddOutline (outlineColor : Color.t) (gaussianBlur : js number)
    (x y : number) (outlineCssString : string) : outcome string :=
  match gaussianBlur with
  | val blur => Ok (outlineCssString ++ shadowEntry outlineColor blur x y)
  | _ => TypeError
  end.

Definition convolveMatrix : string :=
  TAB ++ "<feConvolveMatrix kernelMatrix=" ++ q "1 2 1 2 4 2 1 2 1" ++
  " edgeMode=" ++ q "none" ++ " />" ++ LF.

(** The outline primitives of the SVG branch: [outlineFilter]. *)
Definition svgOutlineFilter (fuel : nat) (this : t) (outlineColor : Color.t)
    (outlineWidth outlineHeight : number) : outcome string :=
  if (0 <? outlineWidth)%float || (0 <? outlineHeight)%float then
    '(outlineFilter, mergeOutlinesFilter, _) <-
       svgOutlineWalk fuel svgAddOutline outlineWidth outlineHeight (incrementOf this)
         (EmptyString, EmptyString, 0%N) ;;
    Ok (outlineFilter ++ mergeOutlines mergeOutlinesFilter outlineColor)
  else Ok EmptyString.

(** The blur primitives of the SVG branch: [blurFilter]. *)
Definition svgBlurFilter (fuel : nat) (this : t) : outcome string :=
  let blurFilter := EmptyString in
  let blurFilter :=
    if (0 <? ToNumber (_gaussianBlur this))%float
    then blurFilter ++ TAB ++ "<feGaussianBlur stdDeviation=" ++
         q (numberInTemplate (_gaussianBlur this)) ++ " />" ++ LF
    else blurFilter in
  '(_, blurFilter) <-
     forLoop fuel (fun i => (i <? ToNumber (_blur this))%float) (fun i => (i + 1)%float)
       (fun _ blurFilter => Ok (blurFilter ++ convolveMatrix)) 0%float blurFilter ;;
  Ok blurFilter.

(** The text-shadow branch: the span's style after it. *)
Definition shadowOutline (fuel : nat) (this : t) (outlineColor : Color.t)
    (outlineWidth outlineHeight : number) (style : CSSStyleDeclaration)
  : outcome CSSStyleDeclaration :=
  if (0 <? outlineWidth)%float || (0 <? outlineHeight)%float then
    outlineCssString <-
      shadowOutlineWalk fuel (shadowAddOutline outlineColor (_gaussianBlur this))
        outlineWidth outlineHeight EmptyString ;;
    Ok (setProperty "textShadow" (substr (String.length ", ") outlineCssString) style)
  else Ok style.

Definition filterStringOf (filterId outlineFilter blurFilter : string) : string :=
  "<filter xmlns=" ++ q "http://www.w3.org/2000/svg" ++ " id=" ++ q filterId ++
  " x=" ++ q "-50%" ++ " width=" ++ q "200%" ++ " y=" ++ q "-50%" ++
  " height=" ++ q "200%" ++ ">" ++ LF ++
  outlineFilter ++ LF ++
  blurFilter ++ LF ++
  "<feMerge>" ++ LF ++
  TAB ++ "<feMergeNode />" ++ LF ++
  TAB ++ "<feMergeNode in=" ++ q "SourceGraphic" ++ " />" ++ LF ++
  "</feMerge>" ++ LF ++
  "</filter>" ++ LF.

(** The drop shadow appended to the span's [textShadow]. *)
Definition dropShadow (this : t) (style : CSSStyleDeclaration)
  : outcome CSSStyleDeclaration :=
  if negb (numEq (_shadowDepthX this) (val 0%float)) ||
     negb (numEq (_shadowDepthY this) (val 0%float)) then
    shadowColor <- colorWithAlpha (_shadowColor this) (_shadowAlpha this) ;;
    let shadowCssString :=
      Color.toString shadowColor ++ " " ++
      Number_toFixed 3
        (ToNumber (_shadowDepthX this) * _scaleX this / ToNumber (_fontScaleX this))%float ++
      "px " ++
      Number_toFixed 3
        (ToNumber (_shadowDepthY this) * _scaleY this / ToNumber (_fontScaleY this))%float ++
      "px 0px" in
    if isEmpty (getProperty "textShadow" style)
    then Ok (setProperty "textShadow" shadowCssString style)
    else Ok (setProperty "textShadow"
               (getProperty "textShadow" style ++ ", " ++ shadowCssString) style)
  else Ok style.

(** [if (this._rotationX !== 0 || this._rotationY !== 0)]. *)
Definition wrapperNeedsDisplay (this : t) : bool :=
  negb (numEq (_rotationX this) (val 0%float)) ||
  negb (numEq (_rotationY this) (val 0%float)).

(** The [if (this._settings.enableSvg) ... else ...] of [setStylesOnSpan]:
    [outlineFilter], [blurFilter] and [filterId] (which stays [undefined]
    without SVG), the styles with [_nextFilterId] advanced, and the span's
    style. *)
Definition outlineStage (fuel : nat) (this : t) (outlineColor : Color.t)
    (outlineWidth outlineHeight : number) (style : CSSStyleDeclaration)
  : outcome (string * string * string * t * CSSStyleDeclaration) :=
  if RendererSettings.enableSvg (_settings this) then
    let filterId :=
      "svg-filter-" ++ _id this ++ "-" ++ decimalOfN (_nextFilterId this) in
    let this := assign_nextFilterId (_nextFilterId this + 1)%N this in
    outlineFilter <- svgOutlineFilter fuel this outlineColor outlineWidth outlineHeight ;;
    blurFilter <- svgBlurFilter fuel this ;;
    Ok (outlineFilter, blurFilter, filterId, this, style)
  else
    style <- shadowOutline fuel this outlineColor outlineWidth outlineHeight style ;;
    Ok (EmptyString, EmptyString, "undefined", this, style).

(** *** [setStylesOnSpan] *)

Definition setStylesOnSpan (fuel : nat) (span : HTMLSpanElement)
    (animationCollection : AnimationCollection.t) (this : t) (dom : Dom)
  : outcome (FilterWrapperSpan * t * Dom) :=
  let isTextOnlySpan := firstChildIsText span in
  let fontStyleOrWeight := fontStyleOrWeightOf this in
  let (size, dom) :=
    _getFontSize (_fontName this) (effectivePointSize isTextOnlySpan this) dom in
  let fontSize := Number_toFixed 3 (_scaleY this * size)%float in
  let lineHeight := Number_toFixed 3 (_scaleY this * ToNumber (_fontSize this))%float in
  let style :=
    setProperty "font"
      (fontStyleOrWeight ++ fontSize ++ "px/" ++ lineHeight ++ "px " ++
       q (stringInTemplate (_fontName this)))
      (style span) in
  let style := setProperty "textDecoration" (textDecorationOf this) style in
  let style := applyTransform (transformOf isTextOnlySpan this) style in
  let style :=
    setProperty "letterSpacing"
      (Number_toFixed 3 (_scaleX this * ToNumber (_letterSpacing this))%float ++ "px")
      style in
  primaryColor <- colorWithAlpha (_primaryColor this) (_primaryAlpha this) ;;
  let style := setProperty "color" (Color.toString primaryColor) style in
  outlineColor <- colorWithAlpha (_outlineColor this) (_outlineAlpha this) ;;
  let outlineWidth := (_scaleX this * ToNumber (_outlineWidth this))%float in
  let outlineHeight := (_scaleY this * ToNumber (_outlineHeight this))%float in
  '(outlineFilter, blurFilter, filterId, this, style) <-
    outlineStage fuel this outlineColor outlineWidth outlineHeight style ;;
  let filterWrapperStyle : CSSStyleDeclaration := Map.empty in
  let (filterWrapperStyle, svgDefs) :=
    if negb (isEmpty outlineFilter) || negb (isEmpty blurFilter) then
      let filterString := filterStringOf filterId outlineFilter blurFilter in
      let url := "url(" ++ q ("#" ++ filterId) ++ ")" in
      (setProperty "filter" url (setProperty "webkitFilter" url filterWrapperStyle),
       (_svgDefsElement dom ++ [filterString])%list)
    else (filterWrapperStyle, _svgDefsElement dom) in
  style <- dropShadow this style ;;
  let filterWrapperStyle :=
    if wrapperNeedsDisplay this
    then setProperty "display" "inline-block" filterWrapperStyle
    else filterWrapperStyle in
  let animationStyleElement :=
    (animationStyleElement dom ++ [AnimationCollection.cssText animationCollection])%list in
  let style :=
    setProperty "webkitAnimation" (AnimationCollection.animationStyle animationCollection)
      style in
  let style :=
    setProperty "animation" (AnimationCollection.animationStyle animationCollection) style in
  Ok (mkWrapper filterWrapperStyle (mkSpan isTextOnlySpan style),
      this,
      mkDom (_fontSizeCache dom) (offsetHeight dom) (offsetHeightReads dom)
        svgDefs animationStyleElement).

(** [makeNewLine]: the [lineHeight] of the [<br>] created. *)
Definition makeNewLine (this : t) : CSSStyleDeclaration :=
  setProperty "lineHeight"
    (Number_toFixed 3 (_scaleY this * ToNumber (_fontSize this))%float ++ "px") Map.empty.

End SpanStyles.

(** * Definitions used to state the properties *)

Module Spec.

Local Open Scope float_scope.

(** Both numbers are the same infinity. *)
Definition sameInfinity (x y : number) : bool :=
  match Prim2SF x, Prim2SF y with
  | S754_infinity s, S754_infinity s' => Bool.eqb s s'
  | _, _ => false
  end.

(** The number [n]. *)
Definition numberOfNat (n : nat) : number :=
  PrimFloat.of_uint63 (Uint63.of_Z (Z.of_nat n)).

Fixpoint concatStrings (l : list string) : string :=
  match l with
  | [] => EmptyString
  | s :: rest => s ++ concatStrings rest
  end.

(** **** Animation collections *)

(** A sequence of [add] calls on one collection. *)
Definition addAll (calls : list (string * list AnimationCollection.Keyframe))
    (c : AnimationCollection.t) : AnimationCollection.t :=
  fold_left (fun c call => AnimationCollection.add (fst call) (snd call) c) calls c.

(** [animation-<id>-<sequence>]. *)
Definition animationName (id : string) (sequence : nat) : string :=
  "animation-" ++ id ++ "-" ++ decimalOfN (N.of_nat sequence).

(** What [add] keeps of the name table and of the counter after [n] calls
    on the collection [id]. *)
Definition named (id : string) (n : nat) (c : AnimationCollection.t) : Prop :=
  AnimationCollection._id c = id /\
  AnimationCollection._numAnimations c = N.of_nat n /\
  Map.keys (AnimationCollection._animationDelays c) = map (animationName id) (seq 0 n).

(** The percentage a keyframe is placed at, as the specification words it:
    [100 * (time - start) / (end - start)], and 100 when [end == start]. *)
Definition placedAt (start end_ time : number) : number :=
  if end_ =? start then 100
  else 100 * ((time - start) / (end_ - start)).

(** The same as amended: the difference of two equal infinities is not a
    number, and so is the percentage of every keyframe between them. *)
Definition placedByAdd (start end_ time : number) : number :=
  if sameInfinity end_ start then nan
  else placedAt start end_ time.

(** One rule block: the percentage, then the keyframe's properties
    verbatim. *)
Definition ruleBlock (percent : number) (keyframe : AnimationCollection.Keyframe) : string :=
  TAB ++ Number_toFixed 3 percent ++ "% {" ++ LF ++
  AnimationCollection.propertiesCssText keyframe EmptyString ++
  TAB ++ "}" ++ LF.

(** **** Style states *)

(** One call on a style state: an attribute setter, or [reset]. *)
Inductive styleCall : Type :=
| SetItalic (value : js bool)
| SetBold (value : js SpanStyles.boldValue)
| SetUnderline (value : js bool)
| SetStrikeThrough (value : js bool)
| SetOutlineWidth (value : js number)
| SetOutlineHeight (value : js number)
| SetShadowDepthX (value : js number)
| SetShadowDepthY (value : js number)
| SetBlur (value : js number)
| SetGaussianBlur (value : js number)
| SetFontName (value : js string)
| SetFontSize (value : js number)
| SetFontScaleX (value : js number)
| SetFontScaleY (value : js number)
| SetLetterSpacing (value : js number)
| SetRotationX (value : js number)
| SetRotationY (value : js number)
| SetRotationZ (value : js number)
| SetSkewX (value : js number)
| SetSkewY (value : js number)
| SetPrimaryColor (value : js Color.t)
| SetSecondaryColor (value : js Color.t)
| SetOutlineColor (value : js Color.t)
| SetShadowColor (value : js Color.t)
| SetPrimaryAlpha (value : js number)
| SetSecondaryAlpha (value : js number)
| SetOutlineAlpha (value : js number)
| SetShadowAlpha (value : js number)
| Reset (newStyle : js Style.t).

Definition applyCall (call : styleCall) (this : SpanStyles.t) : SpanStyles.t :=
  match call with
  | SetItalic value => SpanStyles.set_italic value this
  | SetBold value => SpanStyles.set_bold value this
  | SetUnderline value => SpanStyles.set_underline value this
  | SetStrikeThrough value => SpanStyles.set_strikeThrough value this
  | SetOutlineWidth value => SpanStyles.set_outlineWidth value this
  | SetOutlineHeight value => SpanStyles.set_outlineHeight value this
  | SetShadowDepthX value => SpanStyles.set_shadowDepthX value this
  | SetShadowDepthY value => SpanStyles.set_shadowDepthY value this
  | SetBlur value => SpanStyles.set_blur value this
  | SetGaussianBlur value => SpanStyles.set_gaussianBlur value this
  | SetFontName value => SpanStyles.set_fontName value this
  | SetFontSize value => SpanStyles.set_fontSize value this
  | SetFontScaleX value => SpanStyles.set_fontScaleX value this
  | SetFontScaleY value => SpanStyles.set_fontScaleY value this
  | SetLetterSpacing value => SpanStyles.set_letterSpacing value this
  | SetRotationX value => SpanStyles.set_rotationX value this
  | SetRotationY value => SpanStyles.set_rotationY value this
  | SetRotationZ value => SpanStyles.set_rotationZ value this
  | SetSkewX value => SpanStyles.set_skewX value this
  | SetSkewY value => SpanStyles.set_skewY value this
  | SetPrimaryColor value => SpanStyles.set_primaryColor value this
  | SetSecondaryColor value => SpanStyles.set_secondaryColor value this
  | SetOutlineColor value => SpanStyles.set_outlineColor value this
  | SetShadowColor value => SpanStyles.set_shadowColor value this
  | SetPrimaryAlpha value => SpanStyles.set_primaryAlpha value this
  | SetSecondaryAlpha value => SpanStyles.set_secondaryAlpha value this
  | SetOutlineAlpha value => SpanStyles.set_outlineAlpha value this
  | SetShadowAlpha value => SpanStyles.set_shadowAlpha value this
  | Reset newStyle => SpanStyles.reset newStyle this
  end.

Definition applyCalls (calls : list styleCall) (this : SpanStyles.t) : SpanStyles.t :=
  fold_left (fun this call => applyCall call this) calls this.

(** A setter whose unset sentinel gives the base style's value [base] and
    which stores a concrete value as it is. *)
Definition defaultsToBase {T} (set : js T -> SpanStyles.t -> SpanStyles.t)
    (get : SpanStyles.t -> js T) (base : Style.t -> js T) : Prop :=
  forall this : SpanStyles.t,
    get (set null this) = base (SpanStyles._defaultStyle this) /\
    forall v : T, get (set (val v) this) = val v.

(** A setter whose unset sentinel stores the constant [d]. *)
Definition unsetStores {T} (set : js T -> SpanStyles.t -> SpanStyles.t)
    (get : SpanStyles.t -> js T) (d : js T) : Prop :=
  forall this : SpanStyles.t, get (set null this) = d.


(** Every attribute holds what the base style gives it. *)
Definition atBaseStyle (this : SpanStyles.t) : Prop :=
  SpanStyles._italic this = Style.italic (SpanStyles._defaultStyle this) /\
  SpanStyles._bold this = Style.bold (SpanStyles._defaultStyle this) /\
  SpanStyles._underline this = Style.underline (SpanStyles._defaultStyle this) /\
  SpanStyles._strikeThrough this = Style.strikeThrough (SpanStyles._defaultStyle this) /\
  SpanStyles._outlineWidth this = Style.outlineThickness (SpanStyles._defaultStyle this) /\
  SpanStyles._outlineHeight this = Style.outlineThickness (SpanStyles._defaultStyle this) /\
  SpanStyles._shadowDepthX this = Style.shadowDepth (SpanStyles._defaultStyle this) /\
  SpanStyles._shadowDepthY this = Style.shadowDepth (SpanStyles._defaultStyle this) /\
  SpanStyles._fontName this = Style.fontName (SpanStyles._defaultStyle this) /\
  SpanStyles._fontSize this = Style.fontSize (SpanStyles._defaultStyle this) /\
  SpanStyles._fontScaleX this = Style.fontScaleX (SpanStyles._defaultStyle this) /\
  SpanStyles._fontScaleY this = Style.fontScaleY (SpanStyles._defaultStyle this) /\
  SpanStyles._letterSpacing this = Style.letterSpacing (SpanStyles._defaultStyle this) /\
  SpanStyles._rotationZ this = Style.rotationZ (SpanStyles._defaultStyle this) /\
  SpanStyles._primaryColor this = Style.primaryColor (SpanStyles._defaultStyle this) /\
  SpanStyles._secondaryColor this = Style.secondaryColor (SpanStyles._defaultStyle this) /\
  SpanStyles._outlineColor this = Style.outlineColor (SpanStyles._defaultStyle this) /\
  SpanStyles._shadowColor this = Style.shadowColor (SpanStyles._defaultStyle this) /\
  SpanStyles._rotationX this = null /\
  SpanStyles._rotationY this = null /\
  SpanStyles._skewX this = null /\
  SpanStyles._skewY this = null /\
  SpanStyles._primaryAlpha this = null /\
  SpanStyles._secondaryAlpha this = null /\
  SpanStyles._outlineAlpha this = null /\
  SpanStyles._shadowAlpha this = null /\
  SpanStyles._blur this = val 0%float /\
  SpanStyles._gaussianBlur this = val 0%float.

(** **** The components of the transform, as the specification lists them *)

(** (a), as the specification words it: the vertical-only scale of a
    text-only run whose scales differ, or the independent X and Y scales of
    a run that is not text-only. *)
Definition scaleComponent (isTextOnlySpan : bool) (this : SpanStyles.t) : string :=
  if isTextOnlySpan then
    if numEq (SpanStyles._fontScaleY this) (SpanStyles._fontScaleX this) then EmptyString
    else "scaleY(" ++
         Number_toFixed 3 (ToNumber (SpanStyles._fontScaleY this) /
                           ToNumber (SpanStyles._fontScaleX this)) ++ ") "
  else
    "scaleX(" ++ numberInTemplate (SpanStyles._fontScaleX this) ++ ") " ++
    "scaleY(" ++ numberInTemplate (SpanStyles._fontScaleY this) ++ ") ".

(** (a), as amended: of the independent scales of a run that is not
    text-only, one that is the number 1 is left out. *)
Definition scaleUnlessOne (isTextOnlySpan : bool) (this : SpanStyles.t) : string :=
  if isTextOnlySpan then scaleComponent true this
  else
    (if numEq (SpanStyles._fontScaleX this) (val 1) then EmptyString
     else "scaleX(" ++ numberInTemplate (SpanStyles._fontScaleX this) ++ ") ") ++
    (if numEq (SpanStyles._fontScaleY this) (val 1) then EmptyString
     else "scaleY(" ++ numberInTemplate (SpanStyles._fontScaleY this) ++ ") ").

(** (b), (c): a rotation about Y, then about X, when present. *)
Definition rotationYComponent (this : SpanStyles.t) : string :=
  if isNull (SpanStyles._rotationY this) then EmptyString
  else "rotateY(" ++ numberInTemplate (SpanStyles._rotationY this) ++ "deg) ".

Definition rotationXComponent (this : SpanStyles.t) : string :=
  if isNull (SpanStyles._rotationX this) then EmptyString
  else "rotateX(" ++ numberInTemplate (SpanStyles._rotationX this) ++ "deg) ".

(** (d) the rotation about Z with its sign inverted, when not zero. *)
Definition rotationZComponent (this : SpanStyles.t) : string :=
  if numEq (SpanStyles._rotationZ this) (val 0) then EmptyString
  else "rotateZ(" ++ Number_toString (-1 * ToNumber (SpanStyles._rotationZ this)) ++ "deg) ".

(** (e) the shear matrix when either skew is present, an absent skew
    counting as 0 here. *)
Definition skewOrZero (skew : js number) : js number :=
  SpanStyles._valueOrDefault skew (val 0).

Definition shearComponent (this : SpanStyles.t) : string :=
  if isNull (SpanStyles._skewX this) && isNull (SpanStyles._skewY this) then EmptyString
  else "matrix(1, " ++ numberInTemplate (skewOrZero (SpanStyles._skewY this)) ++ ", " ++
       numberInTemplate (skewOrZero (SpanStyles._skewX this)) ++ ", 1, 0, 0) ".

(** The transform the specification describes: its components (a) to (e),
    in this order. *)
Definition transformAsSpecified (isTextOnlySpan : bool) (this : SpanStyles.t) : string :=
  scaleComponent isTextOnlySpan this ++ rotationYComponent this ++
  rotationXComponent this ++ rotationZComponent this ++ shearComponent this.

(** **** Outline steps and what is written for them *)

(** Two runs that end the same way, with related results. *)
Definition related {A B} (R : A -> B -> Prop) (a : outcome A) (b : outcome B) : Prop :=
  match a, b with
  | Ok a, Ok b => R a b
  | TypeError, TypeError => True
  | OutOfFuel, OutOfFuel => True
  | _, _ => False
  end.

(** The filter text after the recorded steps: one [feMorphology] and one
    [feMergeNode] per step, numbered from 0. *)
Definition svgAfter (steps : list (number * number)) : string * string * N :=
  fold_left
    (fun (acc : string * string * N) (radii : number * number) =>
       let '(outlineFilter, mergeOutlinesFilter, outlineNumber) := acc in
       (outlineFilter ++ SpanStyles.feMorphology (fst radii) (snd radii) outlineNumber,
        mergeOutlinesFilter ++ SpanStyles.feMergeNode outlineNumber,
        (outlineNumber + 1)%N)%string)
    steps (EmptyString, EmptyString, 0%N).

(** The shadow text after the recorded steps: one entry per step. *)
Definition shadowAfter (outlineColor : Color.t) (blur : number)
    (steps : list (number * number)) : string :=
  fold_left
    (fun outlineCssString (offsets : number * number) =>
       outlineCssString ++
       SpanStyles.shadowEntry outlineColor blur (fst offsets) (snd offsets))%string
    steps EmptyString.

(** **** The outline on the vertical axis *)

(** The entries the text-shadow walk makes for a zero width, from [y]
    upwards: [(0, y)], then [(0, -y)] unless [y] is 0, for [y], [y + 1], ...
    while [y <= outlineHeight]. *)
Fixpoint verticalStack (fuel : nat) (outlineHeight y : number)
  : outcome (list (number * number)) :=
  match fuel with
  | O => OutOfFuel
  | S fuel' =>
      if y <=? outlineHeight then
        bind (verticalStack fuel' outlineHeight (y + 1))
          (fun rest => Ok ((0, y) :: (if y =? 0 then [] else [(0, - y)]) ++ rest)%list)
      else Ok []
  end.

(** The stack for an integer height [n]: [(0, 0)], then [(0, k)] and
    [(0, -k)] for [k = 1, ..., n]. *)
Definition integerStack (n : nat) : list (number * number) :=
  (0, 0) :: flat_map (fun k => [(0, numberOfNat k); (0, - numberOfNat k)]) (seq 1 n).

(** **** Radii mirrored in the diagonal *)

Definition mirrored (radii : number * number) : number * number :=
  (snd radii, fst radii).

(** The same radii, as numbers compare. *)
Definition sameRadii (a b : number * number) : bool :=
  (fst a =? fst b) && (snd a =? snd b).

Definition emitted (steps : list (number * number)) (radii : number * number) : bool :=
  existsb (sameRadii radii) steps.

(** The set of emitted radii is its own mirror image: the mirror image of
    every emitted step is emitted (mirroring twice gives the step back, so
    this is the equality of the two sets). *)
Definition swapSymmetric (steps : list (number * number)) : bool :=
  forallb (fun radii => emitted steps (mirrored radii)) steps.

(** **** The font size cache *)

(** A request to [_getFontSize]: the font family and the size, as they are
    handed over. *)
Definition request : Type := (js string * js number)%type.

(** Two requests name the same cache entry. *)
Definition sameRequest (a b : request) : bool :=
  SpanStyles.familyEq (fst a) (fst b) && SpanStyles.sizeEq (snd a) (snd b).

(** The cached value for a request, if any. *)
Definition cached (dom : SpanStyles.Dom) (r : request) : option number :=
  match Map.get SpanStyles.familyEq (fst r) (SpanStyles._fontSizeCache dom) with
  | Some sizes => Map.get SpanStyles.sizeEq (snd r) sizes
  | None => None
  end.

(** No two of the logged reads are for the same request. *)
Fixpoint readAtMostOnce (reads : list request) : bool :=
  match reads with
  | [] => true
  | r :: rest => negb (existsb (sameRequest r) rest) && readAtMostOnce rest
  end.

(** The page when the process starts: an empty cache, nothing measured. *)
Definition freshDom (layout : js string -> js number -> number) : SpanStyles.Dom :=
  SpanStyles.mkDom Map.empty layout [] [] [].

End Spec.

(** * Definitions used to state the properties of sequences of calls *)

Module Sequences.

Local Open Scope float_scope.

(** **** Animation collections *)

(** The parts, with [separator] between any two of them. *)
Fixpoint joinWith (separator : string) (parts : list string) : string :=
  match parts with
  | [] => EmptyString
  | [part] => part
  | part :: rest => part ++ separator ++ joinWith separator rest
  end.

(** The elements of a list with their positions, counted from [k]. *)
Fixpoint numbered {A} (k : nat) (l : list A) : list (nat * A) :=
  match l with
  | [] => []
  | x :: rest => (k, x) :: numbered (S k) rest
  end.

(** The delay [add] registers: the time of the first keyframe, [null] when
    there is none. *)
Definition firstTime (keyframes : list AnimationCollection.Keyframe) : js number :=
  match keyframes with
  | [] => null
  | first :: _ => val (AnimationCollection.time first)
  end.

(** The rule text [add] builds for its keyframes. *)
Definition ruleTextOf (keyframes : list AnimationCollection.Keyframe) : string :=
  AnimationCollection.ruleCssTextOf
    (fst (AnimationCollection.startEnd keyframes))
    (snd (AnimationCollection.startEnd keyframes)) keyframes.

(** The two rules one animation is defined by, the prefixed one first. *)
Definition keyframesRules (name ruleCssText : string) : string :=
  ("@-webkit-keyframes " ++ name ++ " {" ++ LF ++ ruleCssText ++ LF ++ "}" ++ LF ++ LF ++
   "@keyframes " ++ name ++ " {" ++ LF ++ ruleCssText ++ LF ++ "}" ++ LF ++ LF)%string.

(** The duration [add] prints: the distance of the last keyframe from the
    first one, over the rate of the clock. *)
Definition durationOf (rate : number) (keyframes : list AnimationCollection.Keyframe) : number :=
  (ToNumber (snd (AnimationCollection.startEnd keyframes)) -
   ToNumber (fst (AnimationCollection.startEnd keyframes))) / rate.

(** The entry of the [k]-th call in the animation style. *)
Definition styleEntry (id : string) (rate : number)
    (call : nat * (string * list AnimationCollection.Keyframe)) : string :=
  (Spec.animationName id (fst call) ++ " " ++
   Number_toFixed 3 (durationOf rate (snd (snd call))) ++ "s " ++ fst (snd call))%string.

(** The rules of the [k]-th call. *)
Definition rulesEntry (id : string)
    (call : nat * (string * list AnimationCollection.Keyframe)) : string :=
  keyframesRules (Spec.animationName id (fst call)) (ruleTextOf (snd (snd call))).

(** The collections created one after the other for [renderers], the
    static counter [AnimationCollection._nextId] threaded through. *)
Fixpoint newAll (renderers : list AnimationCollection.NullRenderer) (_nextId : N)
  : list AnimationCollection.t :=
  match renderers with
  | [] => []
  | renderer :: rest =>
      let (c, _nextId) := AnimationCollection.new renderer _nextId in
      c :: newAll rest _nextId
  end.

(** The character occurs in the string. *)
Fixpoint occurs (c : ascii) (s : string) : bool :=
  match s with
  | EmptyString => false
  | String c' rest => Ascii.eqb c c' || occurs c rest
  end.

(** A rate the duration of an animation without keyframes cannot be divided
    by: zero, or not a number. *)
Definition zeroOrNaN (rate : number) : bool :=
  match Prim2SF rate with
  | S754_zero _ | S754_nan => true
  | _ => false
  end.

End Sequences.

(** * Definitions used to state the properties of style states *)

Module States.

Import Spec.

(** The attribute a setter writes, by its position among the fields of the
    class; [reset] writes them all and has no position. *)
Definition attributeOf (call : styleCall) : option nat :=
  match call with
  | SetItalic _ => Some 0%nat
  | SetBold _ => Some 1%nat
  | SetUnderline _ => Some 2%nat
  | SetStrikeThrough _ => Some 3%nat
  | SetOutlineWidth _ => Some 4%nat
  | SetOutlineHeight _ => Some 5%nat
  | SetShadowDepthX _ => Some 6%nat
  | SetShadowDepthY _ => Some 7%nat
  | SetFontName _ => Some 8%nat
  | SetFontSize _ => Some 9%nat
  | SetFontScaleX _ => Some 10%nat
  | SetFontScaleY _ => Some 11%nat
  | SetLetterSpacing _ => Some 12%nat
  | SetRotationX _ => Some 13%nat
  | SetRotationY _ => Some 14%nat
  | SetRotationZ _ => Some 15%nat
  | SetSkewX _ => Some 16%nat
  | SetSkewY _ => Some 17%nat
  | SetPrimaryColor _ => Some 18%nat
  | SetSecondaryColor _ => Some 19%nat
  | SetOutlineColor _ => Some 20%nat
  | SetShadowColor _ => Some 21%nat
  | SetPrimaryAlpha _ => Some 22%nat
  | SetSecondaryAlpha _ => Some 23%nat
  | SetOutlineAlpha _ => Some 24%nat
  | SetShadowAlpha _ => Some 25%nat
  | SetBlur _ => Some 26%nat
  | SetGaussianBlur _ => Some 27%nat
  | Reset _ => None
  end.

(** The value [reset(style)] gives an attribute with a setter: the given
    style's, or the base style's where the given style holds [null]. *)
Definition fromStyle {T} (field : Style.t -> js T) (style : Style.t) (this : SpanStyles.t)
  : js T :=
  SpanStyles._valueOrDefault (field style) (field (SpanStyles._defaultStyle this)).

(** What [reset(style)] leaves in the attributes. *)
Definition atStyle (style : Style.t) (this0 this : SpanStyles.t) : Prop :=
  SpanStyles._italic this = fromStyle Style.italic style this0 /\
  SpanStyles._bold this = fromStyle Style.bold style this0 /\
  SpanStyles._underline this = fromStyle Style.underline style this0 /\
  SpanStyles._strikeThrough this = fromStyle Style.strikeThrough style this0 /\
  SpanStyles._outlineWidth this = fromStyle Style.outlineThickness style this0 /\
  SpanStyles._outlineHeight this = fromStyle Style.outlineThickness style this0 /\
  SpanStyles._shadowDepthX this = fromStyle Style.shadowDepth style this0 /\
  SpanStyles._shadowDepthY this = fromStyle Style.shadowDepth style this0 /\
  SpanStyles._fontName this = fromStyle Style.fontName style this0 /\
  SpanStyles._fontSize this = fromStyle Style.fontSize style this0 /\
  SpanStyles._fontScaleX this = fromStyle Style.fontScaleX style this0 /\
  SpanStyles._fontScaleY this = fromStyle Style.fontScaleY style this0 /\
  SpanStyles._letterSpacing this = fromStyle Style.letterSpacing style this0 /\
  SpanStyles._primaryColor this = fromStyle Style.primaryColor style this0 /\
  SpanStyles._secondaryColor this = fromStyle Style.secondaryColor style this0 /\
  SpanStyles._outlineColor this = fromStyle Style.outlineColor style this0 /\
  SpanStyles._shadowColor this = fromStyle Style.shadowColor style this0 /\
  SpanStyles._rotationZ this = Style.rotationZ style /\
  SpanStyles._rotationX this = null /\
  SpanStyles._rotationY this = null /\
  SpanStyles._skewX this = null /\
  SpanStyles._skewY this = null /\
  SpanStyles._primaryAlpha this = null /\
  SpanStyles._secondaryAlpha this = null /\
  SpanStyles._outlineAlpha this = null /\
  SpanStyles._shadowAlpha this = null /\
  SpanStyles._blur this = val 0%float /\
  SpanStyles._gaussianBlur this = val 0%float.

(** What no setter and no [reset] writes. *)
Definition sameObject (this0 this : SpanStyles.t) : Prop :=
  SpanStyles._id this = SpanStyles._id this0 /\
  SpanStyles._defaultStyle this = SpanStyles._defaultStyle this0 /\
  SpanStyles._nextFilterId this = SpanStyles._nextFilterId this0 /\
  SpanStyles._scaleX this = SpanStyles._scaleX this0 /\
  SpanStyles._scaleY this = SpanStyles._scaleY this0 /\
  SpanStyles._settings this = SpanStyles._settings this0.

End States.

(** * Definitions used to state the properties of styled spans *)

Module Rendering.

Import SpanStyles.

Local Open Scope float_scope.

(** The value is there: neither [null] nor [undefined]. *)
Definition present {T} (v : js T) : bool :=
  match v with
  | val _ => true
  | _ => false
  end.

(** The outline dimensions [setStylesOnSpan] works with. *)
Definition scaledOutlineWidth (this : t) : number :=
  _scaleX this * ToNumber (_outlineWidth this).

Definition scaledOutlineHeight (this : t) : number :=
  _scaleY this * ToNumber (_outlineHeight this).

(** [outlineWidth > 0 || outlineHeight > 0]. *)
Definition hasOutline (this : t) : bool :=
  (0 <? scaledOutlineWidth this) || (0 <? scaledOutlineHeight this).

(** One of the two blurs is positive. *)
Definition hasBlur (this : t) : bool :=
  (0 <? ToNumber (_gaussianBlur this)) || (0 <? ToNumber (_blur this)).

(** [this._shadowDepthX !== 0 || this._shadowDepthY !== 0]. *)
Definition hasDropShadow (this : t) : bool :=
  negb (numEq (_shadowDepthX this) (val 0)) || negb (numEq (_shadowDepthY this) (val 0)).

(** The identifier the next filter of the style state gets, and the
    reference to a filter. *)
Definition filterIdOf (this : t) : string :=
  ("svg-filter-" ++ _id this ++ "-" ++ decimalOfN (_nextFilterId this))%string.

Definition filterUrl (filterId : string) : string :=
  ("url(" ++ q ("#" ++ filterId) ++ ")")%string.

(** The font shorthand written for the measured size [size]. *)
Definition fontOf (this : t) (size : number) : string :=
  (fontStyleOrWeightOf this ++ Number_toFixed 3 (_scaleY this * size) ++ "px/" ++
   Number_toFixed 3 (_scaleY this * ToNumber (_fontSize this)) ++ "px " ++
   q (stringInTemplate (_fontName this)))%string.

(** The keywords in front of the size: the italic keyword, and the weight. *)
Definition italicToken (italic : js bool) : string :=
  if ToBoolean italic then "italic " else EmptyString.

Definition weightToken (bold : js boldValue) : string :=
  match bold with
  | val (inl true) => "bold "
  | val (inl false) => EmptyString
  | val (inr weight) => Number_toString weight ++ " "
  | null => "null "
  | undefined => "undefined "
  end.

(** The span's style after what [setStylesOnSpan] writes before it turns
    to the outline. *)
Definition firstWrites (span : HTMLSpanElement) (this : t) (size : number)
    (primaryColor : Color.t) : CSSStyleDeclaration :=
  setProperty "color" (Color.toString primaryColor)
    (setProperty "letterSpacing"
       (Number_toFixed 3 (_scaleX this * ToNumber (_letterSpacing this)) ++ "px")
       (applyTransform (transformOf (firstChildIsText span) this)
          (setProperty "textDecoration" (textDecorationOf this)
             (setProperty "font" (fontOf this size) (style span))))).

(** The style of the wrapper: the reference to the filter when one was
    made, the display mode when the test on the rotations asks for it. *)
Definition wrapperStyleOf (filtered : bool) (filterId : string) (this : t)
  : CSSStyleDeclaration :=
  let filterWrapperStyle : CSSStyleDeclaration := Map.empty in
  let filterWrapperStyle :=
    if filtered
    then setProperty "filter" (filterUrl filterId)
           (setProperty "webkitFilter" (filterUrl filterId) filterWrapperStyle)
    else filterWrapperStyle in
  if wrapperNeedsDisplay this
  then setProperty "display" "inline-block" filterWrapperStyle
  else filterWrapperStyle.

(** The drop shadow as [setStylesOnSpan] writes it. *)
Definition shadowCssStringOf (this : t) (shadowColor : Color.t) : string :=
  (Color.toString shadowColor ++ " " ++
   Number_toFixed 3 (ToNumber (_shadowDepthX this) * _scaleX this / ToNumber (_fontScaleX this)) ++
   "px " ++
   Number_toFixed 3 (ToNumber (_shadowDepthY this) * _scaleY this / ToNumber (_fontScaleY this)) ++
   "px 0px")%string.

(** One entry of the outline in the text shadow, without the separator. *)
Definition shadowText (outlineColor : Color.t) (blur : number) (offsets : number * number)
  : string :=
  (Color.toString outlineColor ++ " " ++
   Number_toString (fst offsets) ++ "px " ++ Number_toString (snd offsets) ++ "px " ++
   Number_toFixed 3 blur ++ "px")%string.

(** The drop shadow of a style state whose shadow colour is there, as a
    list of at most one entry. *)
Definition dropShadowEntries (this : t) : list string :=
  if hasDropShadow this then
    match _shadowColor this with
    | val color => [shadowCssStringOf this (Color.withAlpha (_shadowAlpha this) color)]
    | _ => []
    end
  else [].

(** A text shadow with the entries added after it. *)
Definition shadowsAfter (textShadow : string) (entries : list string) : string :=
  Sequences.joinWith ", " (if isEmpty textShadow then entries else textShadow :: entries).

(** The numbered dilations and merge inputs of an outline. *)
Fixpoint dilations (outlineNumber : N) (steps : list (number * number)) : string :=
  match steps with
  | [] => EmptyString
  | (x, y) :: rest =>
      (feMorphology x y outlineNumber ++ dilations (outlineNumber + 1) rest)%string
  end.

Fixpoint mergeInputs (outlineNumber : N) (steps : list (number * number)) : string :=
  match steps with
  | [] => EmptyString
  | _ :: rest => (feMergeNode outlineNumber ++ mergeInputs (outlineNumber + 1) rest)%string
  end.

(** The largest vertical offset the text-shadow walk visits at the
    horizontal offset [x]. *)
Definition maxYOf (outlineWidth outlineHeight x : number) : number :=
  if outlineWidth =? 0 then outlineHeight
  else outlineHeight * sqrt (1 - ((x * x) / (outlineWidth * outlineWidth))).

(** An offset of the first quadrant with its mirror images in the other
    three; an offset on an axis is its own mirror image there. *)
Definition mirrorsOf (offsets : number * number) : list (number * number) :=
  let (x, y) := offsets in
  ((x, y) ::
   (if x =? 0 then [] else [(- x, y)]) ++
   (if y =? 0 then [] else [(x, - y)]) ++
   (if (x =? 0) || (y =? 0) then [] else [(- x, - y)]))%list.

(** The radii the SVG walk gives the horizontal radius [x], and the
    vertical radius [y]. *)
Definition radiiAtX (outlineWidth outlineHeight x : number) : number * number :=
  (x, outlineHeight / outlineWidth * sqrt (outlineWidth * outlineWidth - x * x)).

Definition radiiAtY (outlineWidth outlineHeight y : number) : number * number :=
  (outlineWidth / outlineHeight * sqrt (outlineHeight * outlineHeight - y * y), y).

(** The first [n] values of a loop variable that starts at 0 and is
    stepped by [increment]. *)
Definition walkPoints (n : nat) (increment : number) : list number :=
  map (fun k => Nat.iter k (fun x => x + increment) 0) (seq 0 n).

(** [n] is the number of the values 0, [increment], 2 [increment], ... a
    loop goes through before it meets one above [bound]. *)
Definition countsUpTo (increment bound : number) (n : nat) : Prop :=
  Forall (fun x => (x <=? bound) = true) (walkPoints n increment)
  /\ (Nat.iter n (fun x => x + increment) 0 <=? bound) = false.

(** The walk along X for equal dimensions [W]: the value [y] is one of the
    horizontal radii it can emit, that is one of the first [n] values of
    its loop variable, or [W] itself. *)
Definition sampled (W increment : number) (n : nat) (y : number) : bool :=
  existsb (fun x => y =? x) (walkPoints n increment ++ [W]).

(** The walk for equal dimensions [W = n], an integer, and a unit step: it
    returns within [n + 2] iterations, with the radii at 0, 1, ..., [n]
    and no closing pair, a symmetric set only for [n = 1]. *)
Definition integerWalk (n : nat) : Prop :=
  let W := Spec.numberOfNat n in
  svgOutlines (n + 2) W W 1 = Ok (map (radiiAtX W W) (walkPoints (n + 1) 1))
  /\ (Spec.swapSymmetric (map (radiiAtX W W) (walkPoints (n + 1) 1)) = true <-> n = 1%nat).

(** The offsets of the text-shadow walk at the horizontal offset [x]: the
    vertical offsets 0, 1, ..., [m - 1], each with its mirror images. *)
Definition columnAt (x : number) (m : nat) : list (number * number) :=
  flat_map (fun y => mirrorsOf (x, y)) (walkPoints m 1).

(** The test under which no transform is written. *)
Definition untransformed (isTextOnlySpan : bool) (this : t) : bool :=
  (if isTextOnlySpan then numEq (_fontScaleY this) (_fontScaleX this)
   else numEq (_fontScaleX this) (val 1) && numEq (_fontScaleY this) (val 1))
  && isNull (_rotationY this) && isNull (_rotationX this)
  && numEq (_rotationZ this) (val 0)
  && isNull (_skewX this) && isNull (_skewY this).

(** One operation on a style state and its page: a call of a setter or of
    [reset], or the styling of a span. *)
Inductive operation : Type :=
| Call (call : Spec.styleCall)
| Render (fuel : nat) (span : HTMLSpanElement) (animationCollection : AnimationCollection.t).

(** A sequence of operations: the wrappers the stylings returned, in
    order, with the state and the page they leave. *)
Fixpoint run (operations : list operation) (this : t) (dom : Dom)
    (wrappers : list FilterWrapperSpan) : outcome (list FilterWrapperSpan * t * Dom) :=
  match operations with
  | [] => Ok (wrappers, this, dom)
  | Call call :: rest => run rest (Spec.applyCall call this) dom wrappers
  | Render fuel span animationCollection :: rest =>
      bind (setStylesOnSpan fuel span animationCollection this dom)
        (fun result =>
           let '(w, this, dom) := result in
           run rest this dom (wrappers ++ [w])%list)
  end.

(** The filters the wrappers refer to. *)
Definition filtersOf (wrappers : list FilterWrapperSpan) : list string :=
  filter (fun reference => negb (isEmpty reference))
    (map (fun w => getProperty "filter" (wrapperStyle w)) wrappers).

(** The references made so far: pairwise different, each to a filter
    numbered below the counter. *)
Definition numberedBelow (id : string) (first next : N) (references : list string) : Prop :=
  NoDup references
  /\ forall reference, In reference references ->
       exists k : N,
         (first <= k < next)%N
         /\ reference = filterUrl ("svg-filter-" ++ id ++ "-" ++ decimalOfN k).

(** **** A style state and a page to run examples on *)

Definition white : Color.t := Color.mkColor 255 255 255 1.

Definition plain : Style.t :=
  Style.mkStyle (val false) (val (inl false)) (val false) (val false)
    (val 0) (val 0) (val "Arial"%string) (val 20) (val 1) (val 1)
    (val 0) (val 0) (val white) (val white) (val white) (val white).

Definition plainStyles (enableSvg : bool) : t :=
  new 0 0 plain 1 1 (RendererSettings.mkSettings enableSvg false).

Definition emptyCollection : AnimationCollection.t :=
  fst (AnimationCollection.new (AnimationCollection.mkRenderer 0 1) 0).

Definition emptyPage : Dom := Spec.freshDom (fun _ size => ToNumber size * 1.25).

Definition textSpan : HTMLSpanElement := mkSpan true [].

End Rendering.

(** * Definitions used to state the properties of a process *)

Module Process.

Import SpanStyles Spec Rendering.

Local Open Scope float_scope.

(** One call of [setStylesOnSpan] in the process: the style state it is
    called on, its arguments, and the bound on the iterations of its
    loops. *)
Record styling : Type := mkStyling {
  loopBound : nat;
  styles : t;
  styledSpan : HTMLSpanElement;
  animations : AnimationCollection.t
}.

(** The pair the call hands to [_getFontSize]. *)
Definition requestOf (c : styling) : request :=
  (_fontName (styles c), effectivePointSize (firstChildIsText (styledSpan c)) (styles c)).

Definition styled (c : styling) (dom : Dom) : outcome (FilterWrapperSpan * t * Dom) :=
  setStylesOnSpan (loopBound c) (styledSpan c) (animations c) (styles c) dom.

(** The page after the calls, one after the other, each on the page the
    one before has left, when they all return. *)
Fixpoint stylings (calls : list styling) (dom : Dom) : outcome Dom :=
  match calls with
  | [] => Ok dom
  | c :: rest => bind (styled c dom) (fun result => stylings rest (snd result))
  end.

(** The lookup of the call: the first thing [setStylesOnSpan] does that
    touches the page. *)
Definition lookupOf (c : styling) (dom : Dom) : number * Dom :=
  _getFontSize (fst (requestOf c)) (snd (requestOf c)) dom.

(** The page a call leaves.  A call that returns leaves the page it
    returns.  A call that throws has thrown after its lookup, which is the
    only place where the cache and the measuring element are touched: the
    page it leaves has the cache, the reads and the layout the lookup has
    left; what had been appended to the [<defs>] element by then is left
    open.  A call whose loops do not end leaves no page. *)
Inductive leaves (c : styling) (dom : Dom) : Dom -> Prop :=
| returned (w : FilterWrapperSpan) (this' : t) (dom' : Dom) :
    styled c dom = Ok (w, this', dom') -> leaves c dom dom'
| thrown (dom' : Dom) :
    styled c dom = TypeError ->
    _fontSizeCache dom' = _fontSizeCache (snd (lookupOf c dom)) ->
    offsetHeightReads dom' = offsetHeightReads (snd (lookupOf c dom)) ->
    offsetHeight dom' = offsetHeight (snd (lookupOf c dom)) ->
    leaves c dom dom'.

(** The calls of a process, each on the page the one before has left. *)
Inductive process : list styling -> Dom -> Dom -> Prop :=
| process_nil (dom : Dom) : process [] dom dom
| process_cons (c : styling) (calls : list styling) (dom dom1 dom' : Dom) :
    leaves c dom dom1 -> process calls dom1 dom' -> process (c :: calls) dom dom'.

(** A call that has no outline and no box blur to loop for, and the colours
    it needs. *)
Definition needsNoLoop (c : styling) : bool :=
  (0 <? loopBound c)%nat
  && present (_primaryColor (styles c)) && present (_outlineColor (styles c))
  && negb (hasOutline (styles c)) && negb (0 <? ToNumber (_blur (styles c)))
  && (negb (hasDropShadow (styles c)) || present (_shadowColor (styles c))).

(** What [_getFontSize] caches for a pair it measures on the page laid out
    by [layout]: the square of the size over the measured height. *)
Definition measured (layout : js string -> js number -> number) (r : request) : number :=
  ToNumber (snd r) * ToNumber (snd r) / layout (fst r) (snd r).

(** What holds of the page laid out by [layout] throughout a process: no
    pair has been measured twice, a measured pair is cached with the value
    measured for it, and nothing else is cached. *)
Definition measuredOnce (layout : js string -> js number -> number) (dom : Dom) : Prop :=
  offsetHeight dom = layout
  /\ readAtMostOnce (offsetHeightReads dom) = true
  /\ (forall r : request,
        In r (offsetHeightReads dom) -> cached dom r = Some (measured layout r))
  /\ (forall r : request,
        cached dom r <> None -> existsb (sameRequest r) (offsetHeightReads dom) = true).

End Process.

(** * Facts about binary64 arithmetic *)

(** The subtraction of two finite numbers is zero exactly when they are
    equal: the difference of two distinct binary64 numbers is a non-zero
    multiple of the least positive number, which rounding never takes to
    zero. *)
Module FloatRounding.

Local Open Scope Z_scope.

Lemma digits2_pos_bounds (m : positive) :
  2 ^ (Zpos (digits2_pos m) - 1) <= Zpos m < 2 ^ Zpos (digits2_pos m).
Proof.
  induction m as [m IH|m IH|]; simpl digits2_pos.
  - rewrite Pos2Z.inj_succ.
    replace (Z.succ (Zpos (digits2_pos m)) - 1) with (Z.succ (Zpos (digits2_pos m) - 1)) by lia.
    rewrite !Z.pow_succ_r by lia. lia.
  - rewrite Pos2Z.inj_succ.
    replace (Z.succ (Zpos (digits2_pos m)) - 1) with (Z.succ (Zpos (digits2_pos m) - 1)) by lia.
    rewrite !Z.pow_succ_r by lia. lia.
  - simpl. lia.
Qed.

Lemma shr_1_m (mrs : shr_record) :
  0 <= shr_m mrs -> shr_m (shr_1 mrs) = shr_m mrs / 2.
Proof.
  destruct mrs as [m r s]. simpl. intros H.
  destruct m as [|[p|p|]|p]; simpl shr_m; try lia; try reflexivity.
  - apply Z.div_unique with 1; lia.
  - apply Z.div_unique with 0; lia.
Qed.

Lemma pow2_double (p : positive) : 2 ^ Zpos p~0 = 2 ^ Zpos p * 2 ^ Zpos p.
Proof. rewrite <- Z.pow_add_r by lia. f_equal. lia. Qed.

Lemma pow2_double_succ (p : positive) : 2 ^ Zpos p~1 = 2 * (2 ^ Zpos p * 2 ^ Zpos p).
Proof.
  rewrite <- Z.pow_add_r by lia.
  replace (Zpos p~1) with (Z.succ (Zpos p + Zpos p)) by lia.
  now rewrite Z.pow_succ_r by lia.
Qed.

Lemma shr_iter_m (p : positive) : forall mrs : shr_record,
  0 <= shr_m mrs -> shr_m (iter_pos shr_1 p mrs) = shr_m mrs / 2 ^ Zpos p.
Proof.
  induction p as [p IH|p IH|]; intros mrs H; simpl iter_pos.
  - assert (Hp : 0 < 2 ^ Zpos p) by (apply Z.pow_pos_nonneg; lia).
    assert (H1 : 0 <= shr_m (shr_1 mrs)) by (rewrite shr_1_m by lia; apply Z.div_pos; lia).
    assert (H2 : 0 <= shr_m (iter_pos shr_1 p (shr_1 mrs)))
      by (rewrite IH by lia; apply Z.div_pos; lia).
    rewrite IH, IH, shr_1_m by lia.
    rewrite !Z.div_div by lia.
    now rewrite pow2_double_succ, Z.mul_assoc.
  - assert (Hp : 0 < 2 ^ Zpos p) by (apply Z.pow_pos_nonneg; lia).
    assert (H2 : 0 <= shr_m (iter_pos shr_1 p mrs))
      by (rewrite IH by lia; apply Z.div_pos; lia).
    rewrite IH, IH by lia.
    rewrite !Z.div_div by lia.
    now rewrite pow2_double.
  - rewrite shr_1_m by lia. reflexivity.
Qed.

Lemma emin_value : emin = -1074.
Proof. reflexivity. Qed.

(** Shifting to the target exponent never loses all the digits when the
    exponent is at least [emin]. *)
Lemma shr_fexp_positive (m e : Z) (l : location) :
  0 < m -> emin <= e ->
  0 < shr_m (fst (shr_fexp prec emax m e l)) /\ emin <= snd (shr_fexp prec emax m e l).
Proof.
  intros Hm He. unfold shr_fexp, shr.
  destruct m as [|m|m]; try lia. simpl Zdigits2.
  pose proof (digits2_pos_bounds m) as Hd.
  set (D := Zpos (digits2_pos m)) in *.
  assert (Hm0 : shr_m (shr_record_of_loc (Zpos m) l) = Zpos m)
    by (destruct l as [|[| |]]; reflexivity).
  destruct (SpecFloat.fexp prec emax (D + e) - e) as [|n|n] eqn:En; simpl fst; simpl snd.
  - rewrite Hm0. lia.
  - assert (Hn : Zpos n <= D - 1).
    { unfold SpecFloat.fexp in En. change (SpecFloat.emin prec emax) with (-1074) in En.
      change prec with 53 in En. rewrite emin_value in He. lia. }
    rewrite shr_iter_m by (rewrite Hm0; lia). rewrite Hm0. split; [|lia].
    apply Z.div_str_pos. split; [apply Z.pow_pos_nonneg; lia|].
    eapply Z.le_trans; [|apply Hd]. apply Z.pow_le_mono_r; lia.
  - rewrite Hm0. lia.
Qed.

Lemma round_nearest_even_positive (m : Z) (l : location) :
  0 < m -> 0 < round_nearest_even m l.
Proof.
  intros H. destruct l as [|[| |]]; simpl; try lia. destruct (Z.even m); lia.
Qed.

Lemma binary_round_aux_nonzero (s : bool) (m e : Z) (l : location) :
  0 < m -> emin <= e ->
  (exists m' e', binary_round_aux prec emax s m e l = S754_finite s m' e')
  \/ binary_round_aux prec emax s m e l = S754_infinity s.
Proof.
  intros Hm He. unfold binary_round_aux.
  pose proof (shr_fexp_positive m e l Hm He) as [H1 H1e].
  destruct (shr_fexp prec emax m e l) as [mrs' e'] eqn:E1. simpl in H1, H1e.
  pose proof (round_nearest_even_positive (shr_m mrs') (loc_of_shr_record mrs') H1) as H2.
  pose proof (shr_fexp_positive _ e' loc_Exact H2 H1e) as [H3 _].
  destruct (shr_fexp prec emax (round_nearest_even (shr_m mrs') (loc_of_shr_record mrs')) e' loc_Exact)
    as [mrs'' e''] eqn:E2. simpl in H3.
  destruct (shr_m mrs'') as [|p|p]; try lia.
  destruct (e'' <=? emax - prec); [left; eauto | now right].
Qed.

Lemma iter_xO (d m : positive) : Zpos (Pos.iter xO m d) = Zpos m * 2 ^ Zpos d.
Proof.
  induction d as [|d IH] using Pos.peano_ind.
  - simpl. lia.
  - rewrite Pos.iter_succ, Pos2Z.inj_xO, IH, Pos2Z.inj_succ, Z.pow_succ_r by lia. lia.
Qed.

Lemma shl_align_value (m : positive) (e e' : Z) :
  e' <= e ->
  Zpos (fst (shl_align m e e')) = Zpos m * 2 ^ (e - e') /\ snd (shl_align m e e') = e'.
Proof.
  intros H. unfold shl_align.
  destruct (e' - e) as [|d|d] eqn:E; cbn [fst snd].
  - replace (e - e') with 0 by lia. rewrite Z.pow_0_r. lia.
  - lia.
  - rewrite iter_xO. replace (e - e') with (Zpos d) by lia. lia.
Qed.

Lemma shl_align_emin (m : positive) (e e' : Z) :
  emin <= e -> emin <= e' -> emin <= snd (shl_align m e e').
Proof.
  intros H H'. unfold shl_align. destruct (e' - e); cbn [snd]; lia.
Qed.

Lemma binary_round_nonzero (s : bool) (m : positive) (e : Z) :
  emin <= e ->
  (exists m' e', binary_round prec emax s m e = S754_finite s m' e')
  \/ binary_round prec emax s m e = S754_infinity s.
Proof.
  intros He. unfold binary_round.
  pose proof (shl_align_emin m e (SpecFloat.fexp prec emax (Zpos (digits2_pos m) + e)) He) as Hs.
  destruct (shl_align m e (SpecFloat.fexp prec emax (Zpos (digits2_pos m) + e))) as [mz ez].
  simpl in Hs. apply binary_round_aux_nonzero; [lia|]. apply Hs.
  unfold SpecFloat.fexp. lia.
Qed.

Lemma binary_normalize_zero_iff (d e : Z) :
  emin <= e ->
  SFeqb (binary_normalize prec emax d e false) (S754_zero false) = (d =? 0).
Proof.
  intros He. destruct d as [|p|p]; simpl binary_normalize.
  - reflexivity.
  - destruct (binary_round_nonzero false p e He) as [(m' & e' & ->)| ->]; reflexivity.
  - destruct (binary_round_nonzero true p e He) as [(m' & e' & ->)| ->]; reflexivity.
Qed.

Lemma finite_compare_Eq (s s' : bool) (m m' : positive) (e e' : Z) :
  SFcompare (S754_finite s m e) (S754_finite s' m' e') = Some Eq ->
  s = s' /\ m = m' /\ e = e'.
Proof.
  simpl. intros H. injection H as H.
  destruct s, s'; try discriminate;
    destruct (e ?= e') eqn:Ee; try discriminate;
    apply Z.compare_eq in Ee; subst e';
    destruct (PosDef.Pos.compare_cont Eq m m') eqn:Em; try discriminate;
    apply Pos.compare_eq in Em; auto.
Qed.

Lemma finite_compare_refl (s : bool) (m : positive) (e : Z) :
  SFcompare (S754_finite s m e) (S754_finite s m e) = Some Eq.
Proof.
  simpl. assert (Hm : PosDef.Pos.compare_cont Eq m m = Eq) by apply Pos.compare_refl.
  destruct s; rewrite Z.compare_refl, Hm; reflexivity.
Qed.

Lemma canonical_emin (m : positive) (e : Z) :
  valid_binary (S754_finite false m e) = true ->
  SpecFloat.fexp prec emax (Zpos (digits2_pos m) + e) = e /\ emin <= e.
Proof.
  unfold SpecFloat.valid_binary, bounded, canonical_mantissa.
  intros H. apply andb_true_iff in H. destruct H as [H _].
  apply Z.eqb_eq in H. split; [exact H|].
  rewrite <- H. unfold SpecFloat.fexp. lia.
Qed.

Lemma pow2_window_unique (x a b : Z) :
  0 <= a -> 0 <= b ->
  2 ^ a <= 2 * x < 2 * 2 ^ a -> 2 ^ b <= 2 * x < 2 * 2 ^ b -> a = b.
Proof.
  intros Ha Hb H1 H2.
  destruct (Z.lt_trichotomy a b) as [L|[E|L]]; [exfalso| exact E |exfalso].
  - assert (2 ^ Z.succ a <= 2 ^ b) by (apply Z.pow_le_mono_r; lia).
    rewrite Z.pow_succ_r in * by lia. lia.
  - assert (2 ^ Z.succ b <= 2 ^ a) by (apply Z.pow_le_mono_r; lia).
    rewrite Z.pow_succ_r in * by lia. lia.
Qed.

Lemma digits_window (m : positive) (k : Z) :
  0 <= k ->
  2 ^ (Zpos (digits2_pos m) + k) <= 2 * (Zpos m * 2 ^ k)
  < 2 * 2 ^ (Zpos (digits2_pos m) + k).
Proof.
  intros Hk. pose proof (digits2_pos_bounds m) as B.
  set (D := Zpos (digits2_pos m)) in *.
  assert (HD : 0 < D) by (unfold D; lia).
  assert (P : 0 < 2 ^ k) by (apply Z.pow_pos_nonneg; lia).
  assert (E : 2 ^ D = 2 * 2 ^ (D - 1))
    by (rewrite <- Z.pow_succ_r by lia; f_equal; lia).
  rewrite Z.pow_add_r by lia. rewrite E in *.
  generalize dependent (2 ^ (D - 1)). generalize dependent (2 ^ k).
  intros P HP A HA _. split; nia.
Qed.

(** Two canonical mantissas aligned to a common exponent are equal only
    when the numbers are the same. *)
Lemma aligned_equal (mx my : positive) (ex ey : Z) :
  valid_binary (S754_finite false mx ex) = true ->
  valid_binary (S754_finite false my ey) = true ->
  fst (shl_align mx ex (Z.min ex ey)) = fst (shl_align my ey (Z.min ex ey)) ->
  mx = my /\ ex = ey.
Proof.
  intros Vx Vy H.
  destruct (canonical_emin mx ex Vx) as [Cx Ex].
  destruct (canonical_emin my ey Vy) as [Cy Ey].
  set (ez := Z.min ex ey) in *.
  destruct (shl_align_value mx ex ez ltac:(lia)) as [Hx _].
  destruct (shl_align_value my ey ez ltac:(lia)) as [Hy _].
  rewrite H in Hx. rewrite Hy in Hx. clear H Hy.
  pose proof (digits_window mx (ex - ez) ltac:(lia)) as Wx.
  pose proof (digits_window my (ey - ez) ltac:(lia)) as Wy.
  set (Dx := Zpos (digits2_pos mx)) in *.
  set (Dy := Zpos (digits2_pos my)) in *.
  assert (HDx : 0 < Dx) by (unfold Dx; lia).
  assert (HDy : 0 < Dy) by (unfold Dy; lia).
  assert (Py : 0 < 2 ^ (ey - ez)) by (apply Z.pow_pos_nonneg; lia).
  rewrite <- Hx in Wx.
  assert (E : Dx + (ex - ez) = Dy + (ey - ez))
    by (eapply pow2_window_unique; [| |exact Wx|exact Wy]; lia).
  assert (Ee : ex = ey).
  { rewrite <- Cx, <- Cy. f_equal. lia. }
  split; [|exact Ee]. subst ey.
  apply Z.mul_cancel_r in Hx; [congruence | lia].
Qed.

Lemma SFsub_zero_iff (a b : spec_float) :
  valid_binary a = true -> valid_binary b = true ->
  match a, b with
  | S754_infinity s, S754_infinity s' => Bool.eqb s s'
  | _, _ => false
  end = false ->
  SFeqb (SF64sub a b) (S754_zero false) = SFeqb a b.
Proof.
  intros Va Vb Hinf.
  destruct a as [sa|sa| |sa ma ea], b as [sb|sb| |sb mb eb];
    try (destruct sa; reflexivity); try (destruct sb; reflexivity);
    try (destruct sa, sb; reflexivity); try reflexivity.
  - destruct sa, sb; try discriminate Hinf; reflexivity.
  - assert (Va' : valid_binary (S754_finite false ma ea) = true) by exact Va.
    assert (Vb' : valid_binary (S754_finite false mb eb) = true) by exact Vb.
    destruct (canonical_emin ma ea Va') as [_ Ea].
    destruct (canonical_emin mb eb Vb') as [_ Eb].
    unfold SF64sub, SFsub. cbv zeta.
    rewrite binary_normalize_zero_iff by lia.
    unfold SFeqb.
    set (X := fst (shl_align ma ea (Z.min ea eb))).
    set (Y := fst (shl_align mb eb (Z.min ea eb))).
    destruct (cond_Zopp sa (Zpos X) - cond_Zopp sb (Zpos Y) =? 0) eqn:D.
    + apply Z.eqb_eq in D.
      assert (sa = sb /\ X = Y) as [-> HXY]
        by (destruct sa, sb; unfold cond_Zopp in D; split; try lia; try reflexivity;
            assert (Zpos X = Zpos Y) by lia; congruence).
      destruct (aligned_equal ma mb ea eb Va' Vb' HXY) as [-> ->].
      now rewrite finite_compare_refl.
    + destruct (SFcompare (S754_finite sa ma ea) (S754_finite sb mb eb))
        as [[| |]|] eqn:C; try reflexivity.
      apply finite_compare_Eq in C. destruct C as (-> & -> & ->).
      apply Z.eqb_neq in D. exfalso. apply D. subst X Y. lia.
Qed.

End FloatRounding.

(** * Facts about the runtime *)

Module JsFacts.

Local Open Scope float_scope.

Lemma SFcompare_antisym (a b : spec_float) :
  SFcompare b a = option_map CompOpp (SFcompare a b).
Proof.
  destruct a as [sa|sa| |sa ma ea], b as [sb|sb| |sb mb eb]; simpl;
    try reflexivity;
    try (destruct sa; reflexivity); try (destruct sb; reflexivity);
    try (destruct sa, sb; reflexivity).
  assert (Hm : PosDef.Pos.compare_cont Eq mb ma
               = CompOpp (PosDef.Pos.compare_cont Eq ma mb)) by apply ZC4.
  destruct sa, sb; simpl; try reflexivity;
    rewrite (Z.compare_antisym ea eb), Hm;
    destruct (ea ?= eb)%Z; simpl; try reflexivity;
    now rewrite CompOpp_involutive.
Qed.

Lemma SFcompare_Eq_zero (a : spec_float) :
  SFcompare a (S754_zero false) = Some Eq -> exists s, a = S754_zero s.
Proof.
  destruct a as [s|s| |s m e]; simpl; intros H.
  - now exists s.
  - destruct s; discriminate.
  - discriminate.
  - destruct s; discriminate.
Qed.

Lemma Prim2SF_zero : Prim2SF 0 = S754_zero false.
Proof. reflexivity. Qed.

Lemma eqb_zero_inv (x : number) :
  (x =? 0) = true -> exists s, Prim2SF x = S754_zero s.
Proof.
  rewrite eqb_spec, Prim2SF_zero. unfold SFeqb.
  destruct (SFcompare (Prim2SF x) (S754_zero false)) as [[| |]|] eqn:E;
    try discriminate.
  intros _. now apply SFcompare_Eq_zero.
Qed.

(** A number that [=== 0] is neither above zero nor at least one. *)
Lemma eqb_zero_not_positive (x : number) :
  (x =? 0) = true -> (0 <? x) = false.
Proof.
  intros H. destruct (eqb_zero_inv x H) as [s Hs].
  rewrite ltb_spec, Hs. reflexivity.
Qed.

Lemma eqb_zero_leb_zero (x : number) :
  (x =? 0) = true -> (0 <=? x) = true.
Proof.
  intros H. destruct (eqb_zero_inv x H) as [s Hs].
  rewrite leb_spec, Hs. reflexivity.
Qed.

Lemma eqb_zero_not_above_one (x : number) :
  (x =? 0) = true -> (1 <=? x) = false.
Proof.
  intros H. destruct (eqb_zero_inv x H) as [s Hs].
  rewrite leb_spec, Hs. reflexivity.
Qed.

Lemma ltb_leb (a b : number) : (a <? b) = true -> (a <=? b) = true.
Proof.
  rewrite ltb_spec, leb_spec. unfold SFltb, SFleb.
  destruct (SFcompare (Prim2SF a) (Prim2SF b)) as [[| |]|]; congruence.
Qed.

Lemma ltb_not_leb (a b : number) : (a <? b) = true -> (b <=? a) = false.
Proof.
  rewrite ltb_spec, leb_spec. unfold SFltb, SFleb.
  rewrite (SFcompare_antisym (Prim2SF a) (Prim2SF b)).
  destruct (SFcompare (Prim2SF a) (Prim2SF b)) as [[| |]|]; simpl; congruence.
Qed.

(** A number that [=== 0] is at most any number above zero. *)
Lemma eqb_zero_leb_positive (x h : number) :
  (x =? 0) = true -> (0 <? h) = true -> (x <=? h) = true.
Proof.
  intros Hx Hh. destruct (eqb_zero_inv x Hx) as [s Hs].
  rewrite ltb_spec, Prim2SF_zero in Hh. rewrite leb_spec, Hs.
  unfold SFltb in Hh. unfold SFleb.
  destruct (Prim2SF h) as [sh|sh| |sh mh eh]; simpl in *; try discriminate.
  - destruct sh; [discriminate | reflexivity].
  - destruct sh; [discriminate | reflexivity].
Qed.

(** SameValueZero is an equivalence. *)
Lemma SFcompare_Eq_trans (a b c : spec_float) :
  SFcompare a b = Some Eq -> SFcompare b c = Some Eq -> SFcompare a c = Some Eq.
Proof.
  destruct a as [sa|sa| |sa ma ea], b as [sb|sb| |sb mb eb], c as [sc|sc| |sc mc ec];
    simpl; try congruence;
    try (destruct sa; congruence); try (destruct sb; congruence);
    try (destruct sc; congruence);
    try (destruct sa, sb; congruence); try (destruct sb, sc; congruence);
    try (destruct sa, sb, sc; congruence).
  assert (Hfin : forall s m e s' m' e',
             Some (match s, s' with
                   | true, false => Lt
                   | false, true => Gt
                   | false, false =>
                       match (e ?= e')%Z with
                       | Lt => Lt | Gt => Gt | Eq => Pos.compare_cont Eq m m'
                       end
                   | true, true =>
                       match (e ?= e')%Z with
                       | Lt => Gt | Gt => Lt | Eq => CompOpp (Pos.compare_cont Eq m m')
                       end
                   end) = Some Eq -> s = s' /\ m = m' /\ e = e').
  { intros s m e s' m' e' H. injection H as H.
    destruct s, s'; try discriminate;
      destruct (e ?= e')%Z eqn:Ee; try discriminate;
      apply Z.compare_eq in Ee;
      [ destruct (Pos.compare_cont Eq m m') eqn:Em; try discriminate
      | ]; apply Pos.compare_eq in H || apply Pos.compare_eq in Em; auto. }
  intros H1 H2.
  apply Hfin in H1. apply Hfin in H2.
  destruct H1 as (-> & -> & ->). destruct H2 as (-> & -> & ->).
  destruct sc; rewrite Z.compare_refl, Pos.compare_cont_refl; reflexivity.
Qed.

Lemma eqb_sym (a b : number) : (a =? b) = (b =? a).
Proof.
  rewrite !eqb_spec. unfold SFeqb.
  rewrite (SFcompare_antisym (Prim2SF a) (Prim2SF b)).
  destruct (SFcompare (Prim2SF a) (Prim2SF b)) as [[| |]|]; reflexivity.
Qed.

Lemma eqb_trans (a b c : number) :
  (a =? b) = true -> (b =? c) = true -> (a =? c) = true.
Proof.
  rewrite !eqb_spec. unfold SFeqb. intros H1 H2.
  destruct (SFcompare (Prim2SF a) (Prim2SF b)) as [[| |]|] eqn:E1; try discriminate.
  destruct (SFcompare (Prim2SF b) (Prim2SF c)) as [[| |]|] eqn:E2; try discriminate.
  now rewrite (SFcompare_Eq_trans _ _ _ E1 E2).
Qed.

Lemma eqb_true_not_nan (a b : number) :
  (a =? b) = true -> is_nan a = false /\ is_nan b = false.
Proof.
  intros H. unfold is_nan. split.
  - rewrite (eqb_trans a b a); [reflexivity | exact H | now rewrite eqb_sym].
  - rewrite (eqb_trans b a b); [reflexivity | now rewrite eqb_sym | exact H].
Qed.

Lemma sameValueZero_refl (a : number) : sameValueZero a a = true.
Proof.
  unfold sameValueZero, is_nan. destruct (a =? a); reflexivity.
Qed.

Lemma sameValueZero_sym (a b : number) : sameValueZero a b = sameValueZero b a.
Proof.
  unfold sameValueZero. rewrite (eqb_sym a b), (andb_comm (is_nan a)). reflexivity.
Qed.

Lemma sameValueZero_trans (a b c : number) :
  sameValueZero a b = true -> sameValueZero b c = true -> sameValueZero a c = true.
Proof.
  unfold sameValueZero. intros H1 H2.
  apply orb_true_iff in H1. apply orb_true_iff in H2. apply orb_true_iff.
  destruct H1 as [H1|H1], H2 as [H2|H2].
  - left. eapply eqb_trans; eassumption.
  - apply andb_true_iff in H2. destruct (eqb_true_not_nan _ _ H1). destruct H2. congruence.
  - apply andb_true_iff in H1. destruct (eqb_true_not_nan _ _ H2). destruct H1. congruence.
  - apply andb_true_iff in H1. apply andb_true_iff in H2. right.
    apply andb_true_iff. tauto.
Qed.


(** [x - y === 0] is [x === y], except for two infinities of the same sign
    (their difference is NaN). *)
Lemma sub_eqb_zero (x y : number) :
  Spec.sameInfinity x y = false -> (x - y =? 0) = (x =? y).
Proof.
  unfold Spec.sameInfinity. intros H.
  rewrite !eqb_spec, sub_spec, Prim2SF_zero.
  apply FloatRounding.SFsub_zero_iff; try apply Prim2SF_valid.
  destruct (Prim2SF x), (Prim2SF y); try reflexivity. exact H.
Qed.

(** Numbers as the templates print them. *)
Example Number_toString_examples :
  map Number_toString [0; -0; 1; -30; 0.5; 1.5; 100; sqrt 3; 1 / 3; 1e21; 1 / 10000000; nan; infinity]
  = ["0"; "0"; "1"; "-30"; "0.5"; "1.5"; "100"; "1.7320508075688772";
     "0.3333333333333333"; "1e+21"; "1e-7"; "NaN"; "Infinity"]%string.
Proof. reflexivity. Qed.

Example Number_toFixed_examples :
  map (Number_toFixed 3) [0; -0; 1; 2 / 3; -1.5; 0.0625; sqrt 3; 100; 16; nan]
  = ["0.000"; "0.000"; "1.000"; "0.667"; "-1.500"; "0.063"; "1.732"; "100.000";
     "16.000"; "NaN"]%string.
Proof. reflexivity. Qed.

(** Strings. *)
Lemma append_assoc (a b c : string) : ((a ++ b) ++ c = a ++ (b ++ c))%string.
Proof. induction a as [|ch a IH]; simpl; [reflexivity | now rewrite IH]. Qed.

Lemma append_empty_r (a : string) : (a ++ EmptyString = a)%string.
Proof. induction a as [|ch a IH]; simpl; [reflexivity | now rewrite IH]. Qed.

Lemma append_inj_l (a b c : string) : (a ++ b = a ++ c)%string -> b = c.
Proof.
  induction a as [|ch a IH]; simpl; intros H; [exact H | injection H as H; auto].
Qed.

Lemma decimalOfN_inj (n m : N) : decimalOfN n = decimalOfN m -> n = m.
Proof.
  unfold decimalOfN. intros H.
  apply Unsigned.to_uint_inj.
  assert (E : Some (N.to_uint n) = Some (N.to_uint m))
    by (rewrite <- !NilEmpty.usu; now rewrite H).
  now injection E.
Qed.

End JsFacts.

(** * Facts about the map utility *)

Module MapFacts.

Section WithKeys.
Context {K V : Type}.
Variable eqK : K -> K -> bool.

Lemma get_set_same (k : K) (v : V) (m : Map.Map K V) :
  eqK k k = true -> Map.get eqK k (Map.set eqK k v m) = Some v.
Proof.
  intros Hrefl. induction m as [|[k' v'] m IH]; simpl.
  - now rewrite Hrefl.
  - destruct (eqK k k') eqn:E; simpl; rewrite E; [reflexivity | exact IH].
Qed.

Lemma get_absent (k : K) (m : Map.Map K V) :
  Forall (fun k' => eqK k k' = false) (Map.keys m) -> Map.get eqK k m = None.
Proof.
  induction m as [|[k' v'] m IH]; simpl; intros H; [reflexivity|].
  inversion H as [|? ? Hk Hm]; subst. simpl in Hk. now rewrite Hk, IH.
Qed.

(** Setting an absent key appends it. *)
Lemma keys_set_absent (k : K) (v : V) (m : Map.Map K V) :
  Map.get eqK k m = None -> Map.keys (Map.set eqK k v m) = (Map.keys m ++ [k])%list.
Proof.
  induction m as [|[k' v'] m IH]; simpl; [reflexivity|].
  destruct (eqK k k') eqn:E; [discriminate|].
  intros H. simpl. now rewrite IH.
Qed.

(** Setting a present key keeps the keys. *)
Lemma keys_set_present (k : K) (v w : V) (m : Map.Map K V) :
  Map.get eqK k m = Some w -> Map.keys (Map.set eqK k v m) = Map.keys m.
Proof.
  induction m as [|[k' v'] m IH]; simpl; [discriminate|].
  destruct (eqK k k') eqn:E; [reflexivity|].
  intros H. simpl. now rewrite IH.
Qed.

End WithKeys.

(** With keys compared by an equivalence. *)
Section WithEquivalence.
Context {K V : Type}.
Variable eqK : K -> K -> bool.
Hypothesis eqK_refl : forall k, eqK k k = true.
Hypothesis eqK_sym : forall k k', eqK k k' = eqK k' k.
Hypothesis eqK_trans : forall a b c, eqK a b = true -> eqK b c = true -> eqK a c = true.

Lemma eqK_congr (a b c : K) : eqK a b = true -> eqK a c = eqK b c.
Proof.
  intros H. destruct (eqK b c) eqn:E.
  - eapply eqK_trans; eassumption.
  - destruct (eqK a c) eqn:E'; [|reflexivity].
    rewrite <- E. symmetry. eapply eqK_trans; [|exact E']. now rewrite eqK_sym.
Qed.

Lemma get_congr (k k' : K) (m : Map.Map K V) :
  eqK k k' = true -> Map.get eqK k m = Map.get eqK k' m.
Proof.
  intros H. induction m as [|[k0 v0] m IH]; simpl; [reflexivity|].
  now rewrite (eqK_congr k k' k0 H), IH.
Qed.

Lemma get_set (k k' : K) (v : V) (m : Map.Map K V) :
  Map.get eqK k (Map.set eqK k' v m)
  = if eqK k k' then Some v else Map.get eqK k m.
Proof.
  induction m as [|[k0 v0] m IH]; simpl; [reflexivity|].
  destruct (eqK k' k0) eqn:E0; simpl.
  - assert (Hc : eqK k k' = eqK k k0)
      by (rewrite (eqK_sym k k'), (eqK_sym k k0); now apply eqK_congr).
    rewrite Hc. destruct (eqK k k0); reflexivity.
  - destruct (eqK k k0) eqn:E; [|exact IH].
    destruct (eqK k k') eqn:E'; [|reflexivity].
    rewrite eqK_sym in E'. rewrite (eqK_congr k' k k0 E') in E0. congruence.
Qed.

End WithEquivalence.

End MapFacts.

(** * Properties of [AnimationCollection] *)

Module AnimationCollectionProps.

Import AnimationCollection Spec JsFacts.

Lemma animationName_inj (id : string) (i j : nat) :
  animationName id i = animationName id j -> i = j.
Proof.
  unfold animationName. intros H.
  apply append_inj_l in H. apply append_inj_l in H. apply append_inj_l in H.
  apply decimalOfN_inj in H. now apply Nat2N.inj.
Qed.

Lemma animationNameOf_named id n c :
  named id n c -> animationNameOf c = animationName id n.
Proof.
  intros (Hid & Hn & _). unfold animationNameOf, animationName. now rewrite Hid, Hn.
Qed.

Lemma name_absent id n c :
  named id n c ->
  Map.get String.eqb (animationName id n) (_animationDelays c) = None.
Proof.
  intros (_ & _ & Hkeys). apply MapFacts.get_absent. rewrite Hkeys.
  apply Forall_forall. intros k Hk. apply in_map_iff in Hk.
  destruct Hk as (i & <- & Hi). apply in_seq in Hi.
  apply String.eqb_neq. intros E. apply animationName_inj in E. lia.
Qed.

Lemma add_keys id n c timingFunction keyframes :
  named id n c ->
  Map.keys (_animationDelays (add timingFunction keyframes c))
  = (Map.keys (_animationDelays c) ++ [animationName id n])%list.
Proof.
  intros H. unfold add. destruct (startEnd keyframes) as [start end_]. simpl.
  rewrite (animationNameOf_named id n c H).
  apply MapFacts.keys_set_absent. now apply name_absent.
Qed.

Lemma add_named id n c timingFunction keyframes :
  named id n c -> named id (S n) (add timingFunction keyframes c).
Proof.
  intros H. pose proof (add_keys id n c timingFunction keyframes H) as Hk.
  destruct H as (Hid & Hn & Hkeys). repeat split.
  - unfold add. destruct (startEnd keyframes). exact Hid.
  - unfold add. destruct (startEnd keyframes). simpl. rewrite Hn. lia.
  - rewrite Hk, Hkeys, seq_S, map_app. reflexivity.
Qed.

Lemma addAll_named id calls : forall n c,
  named id n c -> named id (n + List.length calls) (addAll calls c).
Proof.
  induction calls as [|call calls IH]; intros n c H; simpl.
  - now rewrite Nat.add_0_r.
  - replace (n + S (List.length calls)) with (S n + List.length calls) by lia.
    apply IH. now apply add_named.
Qed.

Lemma new_named renderer nextId :
  named (_id (fst (new renderer nextId))) 0 (fst (new renderer nextId)).
Proof. repeat split. Qed.

(** **** Where [add] places the keyframes *)

Lemma last_cons_default {A} (x d : A) (l : list A) : last (x :: l) d = last l x.
Proof.
  revert x d. induction l as [|y l IH]; intros x d; [reflexivity|].
  change (last (x :: y :: l) d) with (last (y :: l) d).
  rewrite IH. symmetry. apply IH.
Qed.

Lemma last_map_time (rest : list Keyframe) (first : Keyframe) :
  last (map time rest) (time first) = time (last rest first).
Proof.
  revert first. induction rest as [|kf rest IH]; intros first; [reflexivity|].
  simpl map. rewrite !last_cons_default. apply IH.
Qed.

Lemma startEnd_from (keyframes : list Keyframe) : forall (start end_ : number),
  fold_left
    (fun (se : js number * js number) keyframe =>
       let (start, _) := se in
       ((if isNull start then val (time keyframe) else start), val (time keyframe)))
    keyframes (val start, val end_)
  = (val start, val (last (map time keyframes) end_)).
Proof.
  induction keyframes as [|kf kfs IH]; intros start end_; [reflexivity|].
  simpl fold_left. rewrite IH. simpl map. now rewrite last_cons_default.
Qed.

Lemma startEnd_cons (first : Keyframe) (rest : list Keyframe) :
  startEnd (first :: rest) = (val (time first), val (time (last rest first))).
Proof.
  unfold startEnd. simpl fold_left. now rewrite startEnd_from, last_map_time.
Qed.

Lemma fold_append_acc {A} (g : A -> string) (l : list A) : forall acc : string,
  fold_left (fun acc x => acc ++ g x)%string l acc
  = (acc ++ fold_left (fun acc x => acc ++ g x)%string l EmptyString)%string.
Proof.
  induction l as [|x l IH]; intros acc; cbn [fold_left].
  - now rewrite append_empty_r.
  - rewrite IH, (IH (EmptyString ++ g x)%string).
    change (EmptyString ++ g x)%string with (g x). now rewrite append_assoc.
Qed.

Lemma propertiesCssText_acc (keyframe : Keyframe) (acc : string) :
  propertiesCssText keyframe acc = (acc ++ propertiesCssText keyframe EmptyString)%string.
Proof.
  unfold propertiesCssText, Map.forEach.
  apply (fold_append_acc
           (fun kv : string * string =>
              TAB ++ TAB ++ fst kv ++ ": " ++ snd kv ++ ";" ++ LF)%string).
Qed.

Lemma percentage_placedAt (start end_ : number) (keyframe : Keyframe) :
  sameInfinity end_ start = false ->
  percentage (val start) (val end_) keyframe = placedAt start end_ (time keyframe).
Proof.
  intros Hinf. unfold percentage, placedAt. simpl ToNumber.
  rewrite (sub_eqb_zero end_ start Hinf).
  destruct (end_ =? start)%float; reflexivity.
Qed.

(** The difference of two equal infinities, and what is computed from it. *)
Lemma sameInfinity_difference (start end_ : number) :
  sameInfinity end_ start = true -> (end_ - start)%float = nan.
Proof.
  unfold sameInfinity. intros H. apply Prim2SF_inj. rewrite sub_spec.
  destruct (Prim2SF end_) as [s|s| |s m e]; try discriminate.
  destruct (Prim2SF start) as [s'|s'| |s' m' e']; try discriminate.
  destruct s, s'; try discriminate; reflexivity.
Qed.

Lemma sameInfinity_equal (start end_ : number) :
  sameInfinity end_ start = true -> (end_ =? start)%float = true.
Proof.
  unfold sameInfinity. intros H. rewrite eqb_spec.
  destruct (Prim2SF end_) as [s|s| |s m e]; try discriminate.
  destruct (Prim2SF start) as [s'|s'| |s' m' e']; try discriminate.
  destruct s, s'; try discriminate; reflexivity.
Qed.

Lemma div_nan (x : number) : (x / nan)%float = nan.
Proof.
  apply Prim2SF_inj. rewrite div_spec.
  change (Prim2SF nan) with S754_nan.
  destruct (Prim2SF x) as [s|s| |s m e]; reflexivity.
Qed.

Lemma mul_nan (x : number) : (x * nan)%float = nan.
Proof.
  apply Prim2SF_inj. rewrite mul_spec.
  change (Prim2SF nan) with S754_nan.
  destruct (Prim2SF x) as [s|s| |s m e]; reflexivity.
Qed.

Lemma percentage_same_infinity (start end_ : number) (keyframe : Keyframe) :
  sameInfinity end_ start = true ->
  percentage (val start) (val end_) keyframe = nan.
Proof.
  intros Hinf. unfold percentage. simpl ToNumber.
  rewrite (sameInfinity_difference start end_ Hinf).
  change (nan =? 0)%float with false. cbv iota.
  now rewrite div_nan, mul_nan.
Qed.

Lemma percentage_placedByAdd (start end_ : number) (keyframe : Keyframe) :
  percentage (val start) (val end_) keyframe = placedByAdd start end_ (time keyframe).
Proof.
  unfold placedByAdd. destruct (sameInfinity end_ start) eqn:Hinf.
  - now apply percentage_same_infinity.
  - now apply percentage_placedAt.
Qed.

Lemma ruleCssText_from (start end_ : number) (keyframes : list Keyframe) :
  forall acc : string,
    fold_left
      (fun ruleCssText keyframe =>
         let ruleCssText :=
           ruleCssText ++ TAB ++
           Number_toFixed 3 (percentage (val start) (val end_) keyframe) ++ "% {" ++ LF in
         let ruleCssText := propertiesCssText keyframe ruleCssText in
         ruleCssText ++ TAB ++ "}" ++ LF)%string
      keyframes acc
    = (acc ++
       concatStrings
         (map (fun keyframe => ruleBlock (placedByAdd start end_ (time keyframe)) keyframe)
            keyframes))%string.
Proof.
  induction keyframes as [|kf kfs IH]; intros acc; cbn [fold_left map concatStrings].
  - now rewrite append_empty_r.
  - rewrite IH. cbv zeta.
    rewrite propertiesCssText_acc, (percentage_placedByAdd start end_ kf).
    unfold ruleBlock. now rewrite !append_assoc.
Qed.

Lemma ruleCssTextOf_blocks (start end_ : number) (keyframes : list Keyframe) :
  ruleCssTextOf (val start) (val end_) keyframes
  = concatStrings
      (map (fun keyframe => ruleBlock (placedByAdd start end_ (time keyframe)) keyframe)
         keyframes).
Proof. exact (ruleCssText_from start end_ keyframes EmptyString). Qed.

(** C5, as amended: for a non-empty keyframe list [start] is the first
    keyframe's time and [end] the last one's, and the rule text is one block
    per keyframe, in order, placed at [100 * (time - start) / (end - start)]
    percent, or at 100 percent when [end == start], unless [start] and
    [end] are the same infinity: their difference is not a number, and then
    every block is placed at [NaN] percent although [end == start]; the
    call adds one animation; with two keyframes at times 0 and 0 its rule
    is two blocks, both at 100 percent. *)
Theorem add_places_keyframes :
  forall (timingFunction : string) (first : Keyframe) (rest : list Keyframe) (c : t),
    let keyframes := first :: rest in
    let start := time first in
    let end_ := time (last rest first) in
    startEnd keyframes = (val start, val end_)
    /\ cssText (add timingFunction keyframes c)
       = (cssText c ++
          "@-webkit-keyframes " ++ animationNameOf c ++ " {" ++ LF ++
          ruleCssTextOf (val start) (val end_) keyframes ++ LF ++ "}" ++ LF ++ LF ++
          "@keyframes " ++ animationNameOf c ++ " {" ++ LF ++
          ruleCssTextOf (val start) (val end_) keyframes ++ LF ++ "}" ++ LF ++ LF)%string
    /\ ruleCssTextOf (val start) (val end_) keyframes
       = concatStrings
           (map (fun keyframe => ruleBlock (placedByAdd start end_ (time keyframe)) keyframe)
              keyframes)
    /\ (sameInfinity end_ start = false ->
        forall keyframe,
          percentage (val start) (val end_) keyframe
          = if (end_ =? start)%float then 100%float
            else (100 * ((time keyframe - start) / (end_ - start)))%float)
    /\ (sameInfinity end_ start = true ->
        (end_ =? start)%float = true
        /\ forall keyframe,
             percentage (val start) (val end_) keyframe = nan
             /\ ruleBlock (percentage (val start) (val end_) keyframe) keyframe
                = (TAB ++ "NaN% {" ++ LF ++ propertiesCssText keyframe EmptyString ++
                   TAB ++ "}" ++ LF)%string)
    /\ _numAnimations (add timingFunction keyframes c) = (_numAnimations c + 1)%N
    /\ (forall properties0 properties1,
          let k0 := mkKeyframe 0%float properties0 in
          let k1 := mkKeyframe 0%float properties1 in
          ruleCssTextOf (fst (startEnd [k0; k1])) (snd (startEnd [k0; k1])) [k0; k1]
          = (ruleBlock 100%float k0 ++ ruleBlock 100%float k1)%string).
Proof.
  intros timingFunction first rest c keyframes start end_.
  assert (Hse : startEnd keyframes = (val start, val end_)) by apply startEnd_cons.
  split; [exact Hse|]. split; [|split; [|split; [|split; [|split]]]].
  - unfold add. rewrite Hse. reflexivity.
  - apply ruleCssTextOf_blocks.
  - intros Hinf keyframe. now apply percentage_placedAt.
  - intros Hinf. split; [now apply sameInfinity_equal|].
    intros keyframe. rewrite (percentage_same_infinity _ _ keyframe Hinf).
    split; reflexivity.
  - unfold add. now rewrite Hse.
  - intros p0 p1 k0 k1. rewrite startEnd_cons. cbn [fst snd last].
    rewrite ruleCssTextOf_blocks.
    cbn [map concatStrings]. now rewrite append_empty_r.
Qed.

(** Keyframes at times 0 and 10: blocks at 0 and 100 percent. *)
Lemma add_places_keyframes_witness :
  let k0 := mkKeyframe 0%float [("opacity", "0")] in
  let k1 := mkKeyframe 10%float [("opacity", "1")] in
  ruleCssTextOf (val 0%float) (val 10%float) [k0; k1]
  = concatStrings [ruleBlock 0%float k0; ruleBlock 100%float k1].
Proof.
  intros k0 k1.
  exact (proj1 (proj2 (proj2
           (add_places_keyframes "linear" k0 [k1] (fst (new (mkRenderer 0 1%float) 0)))))).
Defined.

(** C5, as stated, fails for keyframes at the times Infinity and Infinity:
    [end == start], and the two blocks are placed at [NaN] percent, not at
    100 percent. *)
Lemma equal_infinite_times_are_placed_at_NaN :
  let k0 := mkKeyframe infinity [("opacity", "0")] in
  let k1 := mkKeyframe infinity [("opacity", "1")] in
  let start := fst (startEnd [k0; k1]) in
  let end_ := snd (startEnd [k0; k1]) in
  start = val infinity
  /\ end_ = val infinity
  /\ (infinity =? infinity)%float = true
  /\ placedAt infinity infinity (time k0) = 100%float
  /\ ruleCssTextOf start end_ [k0; k1]
     = (TAB ++ "NaN% {" ++ LF ++ TAB ++ TAB ++ "opacity: 0;" ++ LF ++ TAB ++ "}" ++ LF ++
        TAB ++ "NaN% {" ++ LF ++ TAB ++ TAB ++ "opacity: 1;" ++ LF ++ TAB ++ "}" ++ LF)%string
  /\ ruleCssTextOf start end_ [k0; k1] <> (ruleBlock 100%float k0 ++ ruleBlock 100%float k1)%string.
Proof.
  intros k0 k1 start end_. repeat split. vm_compute. discriminate.
Qed.

End AnimationCollectionProps.

(** * Properties of [SpanStyles] *)

Module SpanStylesProps.

Import SpanStyles Spec JsFacts.

(** **** Setters and [reset] *)

(** C1: every attribute with a base-style default stores the base style's
    corresponding value when set to [null] and stores a concrete value
    unchanged; rotation X and Y and skew X and Y store [null], and the two
    blur strengths store 0, when set to [null]. *)
Theorem setters_default_rules :
  defaultsToBase set_italic _italic Style.italic /\
  defaultsToBase set_bold _bold Style.bold /\
  defaultsToBase set_underline _underline Style.underline /\
  defaultsToBase set_strikeThrough _strikeThrough Style.strikeThrough /\
  defaultsToBase set_outlineWidth _outlineWidth Style.outlineThickness /\
  defaultsToBase set_outlineHeight _outlineHeight Style.outlineThickness /\
  defaultsToBase set_shadowDepthX _shadowDepthX Style.shadowDepth /\
  defaultsToBase set_shadowDepthY _shadowDepthY Style.shadowDepth /\
  defaultsToBase set_fontName _fontName Style.fontName /\
  defaultsToBase set_fontSize _fontSize Style.fontSize /\
  defaultsToBase set_fontScaleX _fontScaleX Style.fontScaleX /\
  defaultsToBase set_fontScaleY _fontScaleY Style.fontScaleY /\
  defaultsToBase set_letterSpacing _letterSpacing Style.letterSpacing /\
  defaultsToBase set_rotationZ _rotationZ Style.rotationZ /\
  defaultsToBase set_primaryColor _primaryColor Style.primaryColor /\
  defaultsToBase set_secondaryColor _secondaryColor Style.secondaryColor /\
  defaultsToBase set_outlineColor _outlineColor Style.outlineColor /\
  defaultsToBase set_shadowColor _shadowColor Style.shadowColor /\
  unsetStores set_rotationX _rotationX null /\
  unsetStores set_rotationY _rotationY null /\
  unsetStores set_skewX _skewX null /\
  unsetStores set_skewY _skewY null /\
  unsetStores set_blur _blur (val 0%float) /\
  unsetStores set_gaussianBlur _gaussianBlur (val 0%float).
Proof.
  unfold defaultsToBase, unsetStores.
  repeat split; intros; reflexivity.
Qed.

Lemma valueOrDefault_same {T} (v : js T) : _valueOrDefault v v = v.
Proof. destruct v; reflexivity. Qed.

Lemma applyCall_defaultStyle (call : styleCall) (this : t) :
  _defaultStyle (applyCall call this) = _defaultStyle this.
Proof. destruct call; reflexivity. Qed.

Lemma applyCalls_defaultStyle (calls : list styleCall) : forall this : t,
  _defaultStyle (applyCalls calls this) = _defaultStyle this.
Proof.
  induction calls as [|call calls IH]; intros this; [reflexivity|].
  simpl. unfold applyCalls in IH. now rewrite IH, applyCall_defaultStyle.
Qed.

Lemma reset_null_atBaseStyle (this : t) : atBaseStyle (reset null this).
Proof.
  unfold atBaseStyle. repeat split; cbn; try apply valueOrDefault_same.
Qed.


(** C3: after any sequence of setter (and [reset]) calls, [reset(null)]
    leaves every attribute at the value the base style gives it: rotation X
    and Y and skew X and Y [null], both blur strengths 0, the four alpha
    overrides [null]; the base style itself is the one the state started
    with. *)
Theorem reset_null_restores_base :
  forall (calls : list styleCall) (this : t),
    atBaseStyle (reset null (applyCalls calls this)) /\
    _defaultStyle (reset null (applyCalls calls this)) = _defaultStyle this.
Proof.
  intros calls this. split.
  - apply reset_null_atBaseStyle.
  - change (_defaultStyle (reset null (applyCalls calls this)))
      with (_defaultStyle (applyCalls calls this)).
    apply applyCalls_defaultStyle.
Qed.

(** **** The transform *)

Lemma if_negb_append (c : bool) (t x : string) :
  (if negb c then t ++ x else t)%string = (t ++ (if c then EmptyString else x))%string.
Proof. destruct c; simpl; [now rewrite append_empty_r | reflexivity]. Qed.

Lemma transformOf_components (isTextOnlySpan : bool) (this : t) :
  transformOf isTextOnlySpan this
  = (scaleUnlessOne isTextOnlySpan this ++ rotationYComponent this ++
     rotationXComponent this ++ rotationZComponent this ++ shearComponent this)%string.
Proof.
  unfold transformOf, scaleUnlessOne, scaleComponent, rotationYComponent, rotationXComponent,
    rotationZComponent, shearComponent.
  cbv zeta. rewrite !if_negb_append.
  assert (Hskew : forall t0 x : string,
    (if negb (isNull (_skewX this)) || negb (isNull (_skewY this)) then t0 ++ x else t0)%string
    = (t0 ++ (if isNull (_skewX this) && isNull (_skewY this) then EmptyString else x))%string).
  { intros t0 x. destruct (isNull (_skewX this)), (isNull (_skewY this));
      cbn [negb orb andb]; try reflexivity. now rewrite append_empty_r. }
  rewrite Hskew. clear Hskew.
  destruct isTextOnlySpan; rewrite ?if_negb_append, ?append_assoc; reflexivity.
Qed.

(** **** The property bag *)

Lemma getProperty_set_same (name value : string) (style : CSSStyleDeclaration) :
  getProperty name (setProperty name value style) = value.
Proof.
  unfold getProperty, setProperty.
  now rewrite MapFacts.get_set_same by apply String.eqb_refl.
Qed.

Lemma getProperty_set_other (name name' value : string) (style : CSSStyleDeclaration) :
  name <> name' ->
  getProperty name (setProperty name' value style) = getProperty name style.
Proof.
  intros Hne. unfold getProperty, setProperty.
  induction style as [|[k v] style IH]; simpl.
  - apply String.eqb_neq in Hne. now rewrite Hne.
  - destruct (String.eqb name' k) eqn:E'; simpl.
    + apply String.eqb_eq in E'. subst k.
      apply String.eqb_neq in Hne. now rewrite Hne.
    + destruct (String.eqb name k); [reflexivity | exact IH].
Qed.

Lemma getProperty_set_congr (name name' value : string) (style style' : CSSStyleDeclaration) :
  getProperty name style = getProperty name style' ->
  getProperty name (setProperty name' value style)
  = getProperty name (setProperty name' value style').
Proof.
  intros H. destruct (string_dec name name') as [->|Hne].
  - now rewrite !getProperty_set_same.
  - now rewrite !getProperty_set_other.
Qed.

Lemma getProperty_applyTransform_congr (name transform : string)
    (style style' : CSSStyleDeclaration) :
  getProperty name style = getProperty name style' ->
  getProperty name (applyTransform transform style)
  = getProperty name (applyTransform transform style').
Proof.
  intros H. unfold applyTransform.
  destruct (negb (isEmpty transform)); [|exact H].
  now repeat apply getProperty_set_congr.
Qed.

Lemma wrapperNeedsDisplay_nextFilterId (n : N) (this : t) :
  wrapperNeedsDisplay (assign_nextFilterId n this) = wrapperNeedsDisplay this.
Proof. reflexivity. Qed.

(** What the later steps of [setStylesOnSpan] leave alone. *)
Lemma shadowOutline_other fuel this outlineColor outlineWidth outlineHeight style style' :
  shadowOutline fuel this outlineColor outlineWidth outlineHeight style = Ok style' ->
  forall name, name <> "textShadow" -> getProperty name style' = getProperty name style.
Proof.
  unfold shadowOutline. intros H name Hne.
  destruct ((0 <? outlineWidth)%float || (0 <? outlineHeight)%float).
  - destruct (shadowOutlineWalk fuel _ outlineWidth outlineHeight EmptyString);
      cbn [bind] in H; try discriminate.
    injection H as <-. now apply getProperty_set_other.
  - now injection H as <-.
Qed.

Lemma dropShadow_other this style style' :
  dropShadow this style = Ok style' ->
  forall name, name <> "textShadow" -> getProperty name style' = getProperty name style.
Proof.
  unfold dropShadow. intros H name Hne.
  destruct (negb (numEq (_shadowDepthX this) (val 0%float)) ||
            negb (numEq (_shadowDepthY this) (val 0%float))).
  - destruct (colorWithAlpha (_shadowColor this) (_shadowAlpha this));
      cbn [bind] in H; try discriminate.
    destruct (isEmpty (getProperty "textShadow" style));
      injection H as <-; now apply getProperty_set_other.
  - now injection H as <-.
Qed.

Lemma outlineStage_returns fuel this outlineColor outlineWidth outlineHeight style
    outlineFilter blurFilter filterId this' style' :
  outlineStage fuel this outlineColor outlineWidth outlineHeight style
  = Ok (outlineFilter, blurFilter, filterId, this', style') ->
  (this' = this \/ this' = assign_nextFilterId (_nextFilterId this + 1)%N this) /\
  forall name, name <> "textShadow" -> getProperty name style' = getProperty name style.
Proof.
  unfold outlineStage. intros H.
  destruct (RendererSettings.enableSvg (_settings this)).
  - cbv zeta in H.
    destruct (svgOutlineFilter fuel _ outlineColor outlineWidth outlineHeight);
      cbn [bind] in H; try discriminate.
    destruct (svgBlurFilter fuel _); cbn [bind] in H; try discriminate.
    inversion H; subst; clear H. split; [now right | reflexivity].
  - destruct (shadowOutline fuel this outlineColor outlineWidth outlineHeight style) eqn:E;
      cbn [bind] in H; try discriminate.
    inversion H; subst; clear H. split; [now left|].
    now apply (shadowOutline_other _ _ _ _ _ _ _ E).
Qed.

(** What a call that returns has done: one [_getFontSize] lookup, the
    transform on the inner span, the display mode of the wrapper; no
    attribute is changed. *)
Lemma setStylesOnSpan_returns fuel span animationCollection this dom w this' dom' :
  setStylesOnSpan fuel span animationCollection this dom = Ok (w, this', dom') ->
  let lookup :=
    _getFontSize (_fontName this) (effectivePointSize (firstChildIsText span) this) dom in
  _fontSizeCache dom' = _fontSizeCache (snd lookup) /\
  offsetHeightReads dom' = offsetHeightReads (snd lookup) /\
  (forall name,
      ~ In name ["font"; "textDecoration"; "letterSpacing"; "color"; "textShadow";
                 "webkitAnimation"; "animation"] ->
      getProperty name (style (wrapped w))
      = getProperty name
          (applyTransform (transformOf (firstChildIsText span) this) (style span))) /\
  getProperty "display" (wrapperStyle w)
  = (if wrapperNeedsDisplay this then "inline-block" else EmptyString) /\
  (this' = this \/ this' = assign_nextFilterId (_nextFilterId this + 1)%N this).
Proof.
  intros H. cbv zeta. unfold setStylesOnSpan in H.
  destruct (_getFontSize (_fontName this)
              (effectivePointSize (firstChildIsText span) this) dom) as [size dom1].
  cbv zeta in H. cbn [fst snd].
  destruct (colorWithAlpha (_primaryColor this) (_primaryAlpha this)) as [primaryColor| |];
    cbn [bind] in H; try discriminate.
  destruct (colorWithAlpha (_outlineColor this) (_outlineAlpha this)) as [outlineColor| |];
    cbn [bind] in H; try discriminate.
  match type of H with
  | bind ?m _ = _ =>
      destruct m as [[[[[outlineFilter blurFilter] filterId] this1] style1]| |] eqn:Hstage
  end; cbn [bind] in H; try discriminate.
  apply outlineStage_returns in Hstage. destruct Hstage as [Hthis Hstyle1].
  match type of H with
  | context [if ?c then _ else _] => destruct c
  end.
  all: match type of H with
       | bind ?m _ = _ => destruct m as [style2| |] eqn:Hshadow
       end; cbn [bind] in H; try discriminate.
  all: inversion H; subst; clear H;
    cbn [wrapped wrapperStyle style _fontSizeCache offsetHeightReads].
  all: assert (Hw : wrapperNeedsDisplay this' = wrapperNeedsDisplay this)
         by (destruct Hthis as [->| ->]; reflexivity).
  all: rewrite Hw.
  all: repeat split; try exact Hthis;
    try (destruct (wrapperNeedsDisplay this);
         [apply getProperty_set_same | reflexivity]).
  all: intros name Hn.
  all: assert (Hne : forall k,
                 In k ["font"; "textDecoration"; "letterSpacing"; "color"; "textShadow";
                       "webkitAnimation"; "animation"] -> name <> k)
         by (intros k Hk ->; now apply Hn).
  all: rewrite !getProperty_set_other by (apply Hne; simpl; tauto).
  all: rewrite (dropShadow_other _ _ _ Hshadow) by (apply Hne; simpl; tauto).
  all: rewrite Hstyle1 by (apply Hne; simpl; tauto).
  all: rewrite !getProperty_set_other by (apply Hne; simpl; tauto).
  all: apply getProperty_applyTransform_congr.
  all: now rewrite !getProperty_set_other by (apply Hne; simpl; tauto).
Qed.

Lemma applyTransform_sets (transform : string) (style : CSSStyleDeclaration) :
  transform <> EmptyString ->
  getProperty "transform" (applyTransform transform style) = transform /\
  getProperty "webkitTransform" (applyTransform transform style) = transform /\
  getProperty "display" (applyTransform transform style) = "inline-block".
Proof.
  intros H. unfold applyTransform.
  destruct transform as [|c rest]; [contradiction|]. cbn [isEmpty negb].
  repeat split.
  - rewrite !(getProperty_set_other "transform") by discriminate.
    apply getProperty_set_same.
  - rewrite !(getProperty_set_other "webkitTransform") by discriminate.
    apply getProperty_set_same.
  - apply getProperty_set_same.
Qed.

(** C4, as amended: the transform is the concatenation, in this order, of
    the scale component, the rotation about Y, the rotation about X, the
    rotation about Z with its sign inverted and the shear matrix, each
    present under its own condition, where of the independent scales of a
    run that is not text-only one that is the number 1 is left out; a
    non-empty transform is written to the span together with the display
    mode [inline-block], and that is what the span returned by
    [setStylesOnSpan] carries; the stored skews are not changed. *)
Theorem transform_order_and_display :
  forall (isTextOnlySpan : bool) (this : t),
    transformOf isTextOnlySpan this
    = (scaleUnlessOne isTextOnlySpan this ++ rotationYComponent this ++
       rotationXComponent this ++ rotationZComponent this ++ shearComponent this)%string
    /\ (forall style : CSSStyleDeclaration,
          transformOf isTextOnlySpan this <> EmptyString ->
          getProperty "transform" (applyTransform (transformOf isTextOnlySpan this) style)
          = transformOf isTextOnlySpan this /\
          getProperty "display" (applyTransform (transformOf isTextOnlySpan this) style)
          = "inline-block")
    /\ (forall fuel span animationCollection dom w this' dom',
          firstChildIsText span = isTextOnlySpan ->
          setStylesOnSpan fuel span animationCollection this dom = Ok (w, this', dom') ->
          (transformOf isTextOnlySpan this <> EmptyString ->
           getProperty "transform" (style (wrapped w)) = transformOf isTextOnlySpan this /\
           getProperty "display" (style (wrapped w)) = "inline-block") /\
          _skewX this' = _skewX this /\ _skewY this' = _skewY this).
Proof.
  intros isTextOnlySpan this. split; [apply transformOf_components|]. split.
  - intros style H. destruct (applyTransform_sets _ style H) as (H1 & _ & H3). now split.
  - intros fuel span animationCollection dom w this' dom' <- Hrun.
    destruct (setStylesOnSpan_returns _ _ _ _ _ _ _ _ Hrun) as (_ & _ & Hstyle & _ & Hthis).
    split.
    + intros H.
      destruct (applyTransform_sets _ (style span) H) as (H1 & _ & H3).
      rewrite !Hstyle by (simpl; intuition discriminate). now split.
    + destruct Hthis as [->| ->]; split; reflexivity.
Qed.

(** A run with a rotation about Z of 30 degrees and a skew along X. *)
Lemma transform_order_and_display_witness :
  let white := Color.mkColor 255%float 255%float 255%float 1%float in
  let base :=
    Style.mkStyle (val false) (val (inl false)) (val false) (val false)
      (val 0%float) (val 0%float) (val "Arial") (val 20%float) (val 1%float) (val 1%float)
      (val 0%float) (val 0%float) (val white) (val white) (val white) (val white) in
  let this :=
    set_skewX (val 0.5%float)
      (set_rotationZ (val 30%float)
         (new 0 0 base 1%float 1%float (RendererSettings.mkSettings true false))) in
  let collection :=
    fst (AnimationCollection.new (AnimationCollection.mkRenderer 0 1%float) 0) in
  let dom := mkDom Map.empty (fun _ size => (ToNumber size * 1.25)%float) [] [] [] in
  exists w this' dom',
    setStylesOnSpan 4 (mkSpan true []) collection this dom = Ok (w, this', dom') /\
    getProperty "transform" (style (wrapped w))
    = "rotateZ(-30deg) matrix(1, 0, 0.5, 1, 0, 0) " /\
    getProperty "display" (style (wrapped w)) = "inline-block".
Proof.
  intros white base this collection dom.
  destruct (setStylesOnSpan 4 (mkSpan true []) collection this dom)
    as [[[w this'] dom']| |] eqn:Hrun; [|vm_compute in Hrun; discriminate..].
  exists w, this', dom'. split; [reflexivity|].
  destruct (transform_order_and_display true this) as (_ & _ & H).
  destruct (H 4%nat (mkSpan true []) collection dom w this' dom' eq_refl Hrun) as (H1 & _).
  exact (H1 ltac:(vm_compute; discriminate)).
Defined.

(** C4, as stated, fails for a run that is not text-only and whose scales
    are both 1: the transform described has the two scale components, and
    with them the display mode; the code writes no transform, and the
    span keeps the transform and the display mode it came with. *)
Lemma scales_of_one_are_left_out :
  let this := Rendering.plainStyles true in
  let span := mkSpan false [] in
  _fontScaleX this = val 1%float
  /\ _fontScaleY this = val 1%float
  /\ transformAsSpecified false this = "scaleX(1) scaleY(1) "
  /\ transformOf false this = EmptyString
  /\ exists w this' dom',
       setStylesOnSpan 1 span Rendering.emptyCollection this Rendering.emptyPage
       = Ok (w, this', dom')
       /\ getProperty "transform" (style (wrapped w)) = EmptyString
       /\ getProperty "display" (style (wrapped w)) = EmptyString.
Proof.
  intros this span. repeat split.
  destruct (setStylesOnSpan 1 span Rendering.emptyCollection this Rendering.emptyPage)
    as [[[w this'] dom']| |] eqn:Hrun; [|vm_compute in Hrun; discriminate..].
  exists w, this', dom'. split; [reflexivity|].
  destruct (setStylesOnSpan_returns _ _ _ _ _ _ _ _ Hrun) as (_ & _ & Hstyle & _).
  rewrite !Hstyle by (simpl; intuition discriminate). split; reflexivity.
Qed.

(** **** The display mode of the wrapper *)

(** C8 (what the code does): the wrapper is made [inline-block] unless both
    rotations are the number 0.  On a fresh style state the rotations about
    X and Y are [null], no rotation is present, and the wrapper is made
    [inline-block] all the same; with both rotations set to 0 it is not. *)
Theorem wrapper_display_tests_zero :
  forall (rendererId dialogueId : N) (dialogueStyle : Style.t) (scaleX scaleY : number)
         (settings : RendererSettings.t),
    let this := new rendererId dialogueId dialogueStyle scaleX scaleY settings in
    _rotationX this = null
    /\ _rotationY this = null
    /\ wrapperNeedsDisplay this = true
    /\ (forall fuel span animationCollection dom w this' dom',
          setStylesOnSpan fuel span animationCollection this dom = Ok (w, this', dom') ->
          getProperty "display" (wrapperStyle w) = "inline-block")
    /\ wrapperNeedsDisplay (set_rotationY (val 0%float) (set_rotationX (val 0%float) this))
       = false.
Proof.
  intros rendererId dialogueId dialogueStyle scaleX scaleY settings this.
  repeat split.
  intros fuel span animationCollection dom w this' dom' Hrun.
  destruct (setStylesOnSpan_returns _ _ _ _ _ _ _ _ Hrun) as (_ & _ & _ & Hw & _).
  exact Hw.
Qed.

(** A run on a fresh style state, no rotation set: the wrapper is made
    [inline-block]. *)
Lemma wrapper_display_tests_zero_witness :
  let white := Color.mkColor 255%float 255%float 255%float 1%float in
  let base :=
    Style.mkStyle (val false) (val (inl false)) (val false) (val false)
      (val 0%float) (val 0%float) (val "Arial") (val 20%float) (val 1%float) (val 1%float)
      (val 0%float) (val 0%float) (val white) (val white) (val white) (val white) in
  let this := new 0 0 base 1%float 1%float (RendererSettings.mkSettings true false) in
  let collection :=
    fst (AnimationCollection.new (AnimationCollection.mkRenderer 0 1%float) 0) in
  let dom := freshDom (fun _ size => (ToNumber size * 1.25)%float) in
  exists w this' dom',
    setStylesOnSpan 4 (mkSpan true []) collection this dom = Ok (w, this', dom') /\
    _rotationX this = null /\ _rotationY this = null /\
    getProperty "display" (wrapperStyle w) = "inline-block".
Proof.
  intros white base this collection dom.
  destruct (setStylesOnSpan 4 (mkSpan true []) collection this dom)
    as [[[w this'] dom']| |] eqn:Hrun; [|vm_compute in Hrun; discriminate..].
  exists w, this', dom'. split; [reflexivity|].
  destruct (wrapper_display_tests_zero 0 0 base 1%float 1%float
              (RendererSettings.mkSettings true false)) as (Hx & Hy & _ & Hdisplay & _).
  split; [exact Hx|]. split; [exact Hy|].
  exact (Hdisplay 4%nat (mkSpan true []) collection dom w this' dom' Hrun).
Defined.

(** **** The walks call their callback once per recorded step *)

Lemma related_bind {A B A' B'} (R : A -> B -> Prop) (R' : A' -> B' -> Prop)
    (a : outcome A) (b : outcome B) (f : A -> outcome A') (g : B -> outcome B') :
  related R a b ->
  (forall x y, R x y -> related R' (f x) (g y)) ->
  related R' (bind a f) (bind b g).
Proof.
  destruct a, b; simpl; intros H Hfg; try contradiction; auto.
Qed.

Lemma related_forLoop {A B} (R : A -> B -> Prop) (cond : number -> bool)
    (next : number -> number) (bodyA : number -> A -> outcome A)
    (bodyB : number -> B -> outcome B) :
  (forall i a b, R a b -> related R (bodyA i a) (bodyB i b)) ->
  forall (fuel : nat) (i : number) (a : A) (b : B),
    R a b ->
    related (fun ia ib => fst ia = fst ib /\ R (snd ia) (snd ib))
      (forLoop fuel cond next bodyA i a) (forLoop fuel cond next bodyB i b).
Proof.
  intros Hbody. induction fuel as [|fuel IH]; intros i a b HR; simpl; [exact I|].
  destruct (cond i); [|now split].
  eapply related_bind; [apply Hbody, HR|]. intros a' b' HR'. now apply IH.
Qed.

Section Callbacks.
Context {A B : Type}.
Variable R : A -> B -> Prop.
Variable addA : number -> number -> A -> outcome A.
Variable addB : number -> number -> B -> outcome B.
Hypothesis add_related : forall x y a b, R a b -> related R (addA x y a) (addB x y b).

Lemma related_if (c : bool) (a a' : outcome A) (b b' : outcome B) :
  related R a b -> related R a' b' ->
  related R (if c then a else a') (if c then b else b').
Proof. destruct c; auto. Qed.

Lemma related_svgOutlineWalk (fuel : nat) (outlineWidth outlineHeight increment : number)
    (a : A) (b : B) :
  R a b ->
  related R (svgOutlineWalk fuel addA outlineWidth outlineHeight increment a)
    (svgOutlineWalk fuel addB outlineWidth outlineHeight increment b).
Proof.
  intros HR. unfold svgOutlineWalk.
  repeat apply related_if; try (now apply add_related).
  - eapply related_bind.
    + apply related_forLoop; [|exact HR]. intros i a' b' HR'. now apply add_related.
    + intros [x a'] [x' b'] [Hx HR']. simpl in Hx, HR'. subst x'.
      apply related_if; [now apply add_related | exact HR'].
  - eapply related_bind.
    + apply related_forLoop; [|exact HR]. intros i a' b' HR'. now apply add_related.
    + intros [y a'] [y' b'] [Hy HR']. simpl in Hy, HR'. subst y'.
      apply related_if; [now apply add_related | exact HR'].
Qed.

Lemma related_shadowOutlineWalk (fuel : nat) (outlineWidth outlineHeight : number)
    (a : A) (b : B) :
  R a b ->
  related R (shadowOutlineWalk fuel addA outlineWidth outlineHeight a)
    (shadowOutlineWalk fuel addB outlineWidth outlineHeight b).
Proof.
  intros HR. unfold shadowOutlineWalk.
  eapply related_bind.
  - apply related_forLoop; [|exact HR]. intros x a' b' HR'.
    eapply related_bind.
    + apply related_forLoop; [|exact HR']. intros y a'' b'' HR''.
      eapply related_bind; [now apply add_related|]. intros a1 b1 H1.
      eapply related_bind; [apply related_if; [now apply add_related | exact H1]|].
      intros a2 b2 H2.
      eapply related_bind; [apply related_if; [now apply add_related | exact H2]|].
      intros a3 b3 H3.
      apply related_if; [now apply add_related | exact H3].
    + intros [y a''] [y' b''] [_ HR'']. exact HR''.
  - intros [x a'] [x' b'] [_ HR']. exact HR'.
Qed.

End Callbacks.

Lemma svgOutlineWalk_steps (fuel : nat) (outlineWidth outlineHeight increment : number) :
  related (fun steps acc => acc = svgAfter steps)
    (svgOutlines fuel outlineWidth outlineHeight increment)
    (svgOutlineWalk fuel svgAddOutline outlineWidth outlineHeight increment
       (EmptyString, EmptyString, 0%N)).
Proof.
  unfold svgOutlines. apply related_svgOutlineWalk; [|reflexivity].
  intros x y steps [[outlineFilter mergeOutlinesFilter] outlineNumber] ->.
  simpl. unfold svgAfter in *. rewrite fold_left_app. simpl.
  destruct (fold_left _ steps (EmptyString, EmptyString, 0%N)) as [[o m] n].
  reflexivity.
Qed.

Lemma shadowOutlineWalk_steps (fuel : nat) (outlineColor : Color.t) (blur : number)
    (outlineWidth outlineHeight : number) :
  related (fun steps outlineCssString => outlineCssString = shadowAfter outlineColor blur steps)
    (shadowOutlines fuel outlineWidth outlineHeight)
    (shadowOutlineWalk fuel (shadowAddOutline outlineColor (val blur))
       outlineWidth outlineHeight EmptyString).
Proof.
  unfold shadowOutlines. apply related_shadowOutlineWalk; [|reflexivity].
  intros x y steps outlineCssString ->.
  simpl. unfold shadowAfter. now rewrite fold_left_app.
Qed.

(** What the two branches write is what the recorded steps say. *)
Lemma svgOutlineFilter_steps (fuel : nat) (this : t) (outlineColor : Color.t)
    (outlineWidth outlineHeight : number) (steps : list (number * number)) :
  (0 <? outlineWidth)%float || (0 <? outlineHeight)%float = true ->
  svgOutlines fuel outlineWidth outlineHeight (incrementOf this) = Ok steps ->
  svgOutlineFilter fuel this outlineColor outlineWidth outlineHeight
  = Ok (fst (fst (svgAfter steps)) ++
        mergeOutlines (snd (fst (svgAfter steps))) outlineColor)%string.
Proof.
  intros Hguard Hsteps. unfold svgOutlineFilter. rewrite Hguard.
  pose proof (svgOutlineWalk_steps fuel outlineWidth outlineHeight (incrementOf this)) as H.
  rewrite Hsteps in H.
  destruct (svgOutlineWalk fuel svgAddOutline outlineWidth outlineHeight (incrementOf this)
              (EmptyString, EmptyString, 0%N)) as [acc| |]; simpl in H; try contradiction.
  subst acc. cbn [bind]. now destruct (svgAfter steps) as [[o m] n].
Qed.

Lemma shadowOutline_steps (fuel : nat) (this : t) (outlineColor : Color.t) (blur : number)
    (outlineWidth outlineHeight : number) (style : CSSStyleDeclaration)
    (steps : list (number * number)) :
  (0 <? outlineWidth)%float || (0 <? outlineHeight)%float = true ->
  _gaussianBlur this = val blur ->
  shadowOutlines fuel outlineWidth outlineHeight = Ok steps ->
  shadowOutline fuel this outlineColor outlineWidth outlineHeight style
  = Ok (setProperty "textShadow"
          (substr (String.length ", ") (shadowAfter outlineColor blur steps)) style).
Proof.
  intros Hguard Hblur Hsteps. unfold shadowOutline. rewrite Hguard, Hblur.
  pose proof (shadowOutlineWalk_steps fuel outlineColor blur outlineWidth outlineHeight) as H.
  rewrite Hsteps in H.
  destruct (shadowOutlineWalk fuel (shadowAddOutline outlineColor (val blur))
              outlineWidth outlineHeight EmptyString) as [css| |];
    simpl in H; try contradiction.
  now subst css.
Qed.

(** **** Outlines with a zero width *)

Lemma svgOutlineWalk_zero_width {A} (fuel : nat)
    (addOutline : number -> number -> A -> outcome A)
    (outlineWidth outlineHeight increment : number) (acc : A) :
  (outlineWidth =? 0)%float = true -> (0 <? outlineHeight)%float = true ->
  svgOutlineWalk fuel addOutline outlineWidth outlineHeight increment acc
  = addOutline 0%float outlineHeight acc.
Proof.
  intros Hw Hh. unfold svgOutlineWalk.
  now rewrite (eqb_zero_leb_positive _ _ Hw Hh), (eqb_zero_not_positive _ Hw).
Qed.

(** The inner loop of the text-shadow walk at [x = 0]. *)
Lemma shadow_inner_loop (outlineHeight : number) (fuel : nat) :
  forall (y : number) (acc : list (number * number)),
    ('(_, acc) <-
       forLoop fuel (fun y => (y <=? outlineHeight)%float) (fun y => (y + 1)%float)
         (fun y acc =>
            acc <- recordOutline 0%float y acc ;;
            acc <- (if negb (0 =? 0)%float then recordOutline (- 0)%float y acc else Ok acc) ;;
            acc <- (if negb (y =? 0)%float then recordOutline 0%float (- y)%float acc
                    else Ok acc) ;;
            if negb (0 =? 0)%float && negb (y =? 0)%float
            then recordOutline (- 0)%float (- y)%float acc
            else Ok acc)
         y acc ;;
     Ok acc)
    = (rest <- verticalStack fuel outlineHeight y ;; Ok (acc ++ rest)%list).
Proof.
  induction fuel as [|fuel IH]; intros y acc; [reflexivity|].
  cbn [forLoop verticalStack].
  destruct (y <=? outlineHeight)%float; cbn [bind]; [|now rewrite app_nil_r].
  change (0 =? 0)%float with true. cbn [negb andb bind recordOutline].
  destruct (y =? 0)%float; cbn [negb bind recordOutline].
  - rewrite IH.
    destruct (verticalStack fuel outlineHeight (y + 1)%float); cbn [bind]; try reflexivity.
    now rewrite <- app_assoc.
  - rewrite IH.
    destruct (verticalStack fuel outlineHeight (y + 1)%float); cbn [bind]; try reflexivity.
    now rewrite <- !app_assoc.
Qed.

Lemma shadowOutlines_zero_width (fuel : nat) (outlineWidth outlineHeight : number) :
  (outlineWidth =? 0)%float = true ->
  shadowOutlines (S (S fuel)) outlineWidth outlineHeight
  = verticalStack (S (S fuel)) outlineHeight 0%float.
Proof.
  intros Hw. unfold shadowOutlines, shadowOutlineWalk.
  set (n := S (S fuel)). unfold n at 1. cbn [forLoop].
  rewrite (eqb_zero_leb_zero _ Hw), Hw.
  change (0 + 1)%float with 1%float.
  rewrite (eqb_zero_not_above_one _ Hw).
  pose proof (shadow_inner_loop outlineHeight n 0%float []) as Hin.
  cbn [app] in Hin.
  assert (Hret : (rest <- verticalStack n outlineHeight 0%float ;; Ok rest)
                 = verticalStack n outlineHeight 0%float)
    by (destruct (verticalStack n outlineHeight 0%float); reflexivity).
  rewrite Hret in Hin. clear Hret.
  match type of Hin with
  | bind ?inner _ = _ => destruct inner as [[y acc]| |]
  end; cbn [bind] in Hin |- *; rewrite <- Hin; reflexivity.
Qed.

Lemma verticalStack_below_one (fuel : nat) (outlineHeight : number) :
  (0 <? outlineHeight)%float = true -> (outlineHeight <? 1)%float = true ->
  verticalStack (S (S fuel)) outlineHeight 0%float = Ok [(0%float, 0%float)].
Proof.
  intros Hpos Hlt. cbn [verticalStack].
  rewrite (ltb_leb _ _ Hpos). change (0 + 1)%float with 1%float.
  now rewrite (ltb_not_leb _ _ Hlt).
Qed.

Lemma verticalStack_integer (n : nat) :
  In n (seq 1 64) ->
  verticalStack (S (S n)) (numberOfNat n) 0%float = Ok (integerStack n).
Proof.
  intros H. cbn [seq In] in H.
  repeat (destruct H as [<-|H]; [vm_compute; reflexivity|]).
  contradiction.
Qed.

(** C2, as amended.  With a scaled outline width of zero: when the scaled
    height is zero too, neither branch produces anything (no filter
    primitive, the span's text shadow untouched); when the scaled height is
    H > 0, the SVG branch dilates exactly once, at (0, H), and the
    text-shadow branch stacks entries on the vertical axis, (0, 0) then
    (0, y) and (0, -y) for y = 1, 2, ... up to H: a single entry only when
    H < 1, and then at (0, 0); 2 n + 1 entries when H is the integer n
    (checked up to 64). *)
Theorem outlines_with_zero_width :
  forall (fuel : nat) (this : t) (outlineColor : Color.t)
         (outlineWidth outlineHeight : number) (style : CSSStyleDeclaration),
    (outlineWidth =? 0)%float = true ->
    ((outlineHeight =? 0)%float = true ->
       svgOutlineFilter fuel this outlineColor outlineWidth outlineHeight = Ok EmptyString /\
       shadowOutline fuel this outlineColor outlineWidth outlineHeight style = Ok style)
    /\ ((0 <? outlineHeight)%float = true ->
          svgOutlines fuel outlineWidth outlineHeight (incrementOf this)
          = Ok [(0%float, outlineHeight)]
          /\ svgOutlineFilter fuel this outlineColor outlineWidth outlineHeight
             = Ok (feMorphology 0%float outlineHeight 0 ++
                   mergeOutlines (feMergeNode 0) outlineColor)%string
          /\ shadowOutlines (S (S fuel)) outlineWidth outlineHeight
             = verticalStack (S (S fuel)) outlineHeight 0%float
          /\ ((outlineHeight <? 1)%float = true ->
                shadowOutlines (S (S fuel)) outlineWidth outlineHeight
                = Ok [(0%float, 0%float)]
                /\ forall blur : number,
                     _gaussianBlur this = val blur ->
                     shadowOutline (S (S fuel)) this outlineColor outlineWidth outlineHeight
                       style
                     = Ok (setProperty "textShadow"
                             (substr (String.length ", ")
                                (shadowEntry outlineColor blur 0%float 0%float))
                             style))
          /\ (forall n : nat,
                (1 <= n <= 64)%nat -> outlineHeight = numberOfNat n ->
                shadowOutlines (S (S n)) outlineWidth outlineHeight = Ok (integerStack n)
                /\ List.length (integerStack n) = (2 * n + 1)%nat)).
Proof.
  intros fuel this outlineColor outlineWidth outlineHeight style Hw. split.
  - intros Hh. unfold svgOutlineFilter, shadowOutline.
    now rewrite (eqb_zero_not_positive _ Hw), (eqb_zero_not_positive _ Hh).
  - intros Hh. repeat split.
    + unfold svgOutlines. now rewrite svgOutlineWalk_zero_width.
    + unfold svgOutlineFilter. rewrite Hh, orb_true_r.
      now rewrite svgOutlineWalk_zero_width.
    + now apply shadowOutlines_zero_width.
    + rewrite shadowOutlines_zero_width by exact Hw.
      now apply verticalStack_below_one.
    + intros blur Hblur.
      apply (shadowOutline_steps _ _ _ blur _ _ _ [(0%float, 0%float)]);
        [now rewrite Hh, orb_true_r | exact Hblur |].
      rewrite shadowOutlines_zero_width by exact Hw.
      now apply verticalStack_below_one.
    + rewrite shadowOutlines_zero_width by exact Hw. subst outlineHeight.
      apply verticalStack_integer. apply in_seq. lia.
    + unfold integerStack. cbn [List.length]. rewrite flat_map_constant_length with (c := 2%nat).
      * rewrite length_seq. lia.
      * intros k _. reflexivity.
Qed.

(** A width of 0: one dilation at (0, 2.5) and five shadow entries for a
    height of 2.5, one shadow entry for a height of 0.5, five for a height
    of 2, nothing for a height of 0. *)
Lemma outlines_with_zero_width_witness :
  let white := Color.mkColor 255%float 255%float 255%float 1%float in
  let base :=
    Style.mkStyle (val false) (val (inl false)) (val false) (val false)
      (val 0%float) (val 0%float) (val "Arial") (val 20%float) (val 1%float) (val 1%float)
      (val 0%float) (val 0%float) (val white) (val white) (val white) (val white) in
  let this := new 0 0 base 1%float 1%float (RendererSettings.mkSettings true false) in
  svgOutlines 0 0%float 2.5%float (incrementOf this) = Ok [(0%float, 2.5%float)]
  /\ shadowOutlines 4 0%float 2.5%float
     = Ok [(0, 0); (0, 1); (0, -1); (0, 2); (0, -2)]%float
  /\ shadowOutlines 2 0%float 0.5%float = Ok [(0%float, 0%float)]
  /\ shadowOutlines 4 0%float 2%float
     = Ok [(0, 0); (0, 1); (0, -1); (0, 2); (0, -2)]%float
  /\ svgOutlineFilter 0 this white 0%float 0%float = Ok EmptyString.
Proof.
  intros white base this.
  destruct (outlines_with_zero_width 0 this white 0%float 2.5%float [] eq_refl)
    as [_ H]. destruct (H eq_refl) as (H1 & _).
  destruct (outlines_with_zero_width 2 this white 0%float 2.5%float [] eq_refl)
    as [_ H']. destruct (H' eq_refl) as (_ & _ & H3 & _).
  destruct (outlines_with_zero_width 0 this white 0%float 0.5%float [] eq_refl)
    as [_ H'']. destruct (H'' eq_refl) as (_ & _ & _ & H4 & _).
  destruct (H4 eq_refl) as [H4' _].
  destruct (outlines_with_zero_width 0 this white 0%float 2%float [] eq_refl)
    as [_ H2]. destruct (H2 eq_refl) as (_ & _ & _ & _ & H6).
  destruct (H6 2%nat ltac:(lia) eq_refl) as [H6' _].
  destruct (outlines_with_zero_width 0 this white 0%float 0%float [] eq_refl)
    as [H0 _]. destruct (H0 eq_refl) as (H5 & _).
  split; [exact H1|]. split; [rewrite H3; reflexivity|].
  split; [exact H4'|]. split; [exact H6' | exact H5].
Defined.

(** C2, as stated, fails in the text-shadow branch: a width of 0 and a
    height of 1 give three entries, and none of them alone at (0, 1). *)
Lemma shadow_outline_height_one :
  shadowOutlines 3 0%float 1%float = Ok [(0, 0); (0, 1); (0, -1)]%float
  /\ shadowOutlines 3 0%float 1%float <> Ok [(0%float, 1%float)].
Proof.
  split; [reflexivity|]. vm_compute. discriminate.
Qed.

(** **** Equal outline dimensions *)

(** C9, as stated, fails for W = 2: the walk emits (1, sqrt 3) and does not
    emit (sqrt 3, 1). *)
Lemma equal_dimensions_not_symmetric :
  svgOutlines 4 2%float 2%float 1%float
  = Ok [(0, 2); (1, sqrt 3); (2, 0)]%float
  /\ swapSymmetric [(0, 2); (1, sqrt 3); (2, 0)]%float = false
  /\ emitted [(0, 2); (1, sqrt 3); (2, 0)]%float (sqrt 3, 1)%float = false.
Proof. repeat split. Qed.

(** **** The font size cache *)

Lemma sizeEq_refl (a : js number) : sizeEq a a = true.
Proof. destruct a; simpl; auto using sameValueZero_refl. Qed.

Lemma sizeEq_sym (a b : js number) : sizeEq a b = sizeEq b a.
Proof. destruct a, b; simpl; auto using sameValueZero_sym. Qed.

Lemma sizeEq_trans (a b c : js number) :
  sizeEq a b = true -> sizeEq b c = true -> sizeEq a c = true.
Proof.
  destruct a, b, c; simpl; try congruence. apply sameValueZero_trans.
Qed.

Lemma familyEq_refl (a : js string) : familyEq a a = true.
Proof. destruct a; simpl; auto using String.eqb_refl. Qed.

Lemma familyEq_sym (a b : js string) : familyEq a b = familyEq b a.
Proof. destruct a, b; simpl; auto using String.eqb_sym. Qed.

Lemma familyEq_trans (a b c : js string) :
  familyEq a b = true -> familyEq b c = true -> familyEq a c = true.
Proof.
  destruct a, b, c; simpl; try congruence.
  rewrite !String.eqb_eq. congruence.
Qed.

Lemma cached_congr (dom : Dom) (a b : request) :
  sameRequest a b = true -> cached dom a = cached dom b.
Proof.
  unfold sameRequest, cached. intros H. apply andb_true_iff in H. destruct H as [Hf Hs].
  rewrite (MapFacts.get_congr familyEq familyEq_sym familyEq_trans _ _ _ Hf).
  destruct (Map.get familyEq (fst b) (_fontSizeCache dom)); [|reflexivity].
  now apply (MapFacts.get_congr sizeEq sizeEq_sym sizeEq_trans).
Qed.

(** A cached request is answered from the cache, and nothing changes. *)
Lemma getFontSize_hit (fontFamily : js string) (lineHeight : js number) (dom : Dom) (v : number) :
  cached dom (fontFamily, lineHeight) = Some v ->
  _getFontSize fontFamily lineHeight dom = (v, dom).
Proof.
  unfold cached, _getFontSize. cbn [fst snd]. intros H.
  destruct (Map.get familyEq fontFamily (_fontSizeCache dom)) as [sizes|]; [|discriminate].
  rewrite H. destruct dom; reflexivity.
Qed.

(** A request that is not cached is measured once and cached. *)
Lemma getFontSize_miss (fontFamily : js string) (lineHeight : js number) (dom : Dom) :
  cached dom (fontFamily, lineHeight) = None ->
  let v :=
    (ToNumber lineHeight * ToNumber lineHeight / offsetHeight dom fontFamily lineHeight)%float in
  let dom' := snd (_getFontSize fontFamily lineHeight dom) in
  fst (_getFontSize fontFamily lineHeight dom) = v /\
  offsetHeightReads dom' = (offsetHeightReads dom ++ [(fontFamily, lineHeight)])%list /\
  offsetHeight dom' = offsetHeight dom /\
  forall r : request,
    cached dom' r = if sameRequest r (fontFamily, lineHeight) then Some v else cached dom r.
Proof.
  unfold cached, _getFontSize. cbn [fst snd]. intros H. cbv zeta.
  destruct (Map.get familyEq fontFamily (_fontSizeCache dom)) as [sizes|] eqn:Hfam.
  - rewrite H. cbn [fst snd offsetHeightReads offsetHeight _fontSizeCache].
    repeat split. intros r. unfold sameRequest. cbn [fst snd].
    rewrite (MapFacts.get_set familyEq familyEq_sym familyEq_trans).
    destruct (familyEq (fst r) fontFamily) eqn:Ef; cbn [andb].
    + rewrite (MapFacts.get_set sizeEq sizeEq_sym sizeEq_trans).
      rewrite (MapFacts.get_congr familyEq familyEq_sym familyEq_trans _ _ _ Ef), Hfam.
      reflexivity.
    + reflexivity.
  - cbn [Map.get Map.empty fst snd offsetHeightReads offsetHeight _fontSizeCache].
    repeat split. intros r. unfold sameRequest. cbn [fst snd].
    rewrite !(MapFacts.get_set familyEq familyEq_sym familyEq_trans).
    destruct (familyEq (fst r) fontFamily) eqn:Ef; cbn [andb].
    + rewrite (MapFacts.get_set sizeEq sizeEq_sym sizeEq_trans).
      rewrite (MapFacts.get_congr familyEq familyEq_sym familyEq_trans _ _ _ Ef), Hfam.
      reflexivity.
    + reflexivity.
Qed.

Lemma sameRequest_refl (r : request) : sameRequest r r = true.
Proof. unfold sameRequest. now rewrite familyEq_refl, sizeEq_refl. Qed.

Lemma sameRequest_sym (a b : request) : sameRequest a b = sameRequest b a.
Proof. unfold sameRequest. now rewrite familyEq_sym, sizeEq_sym. Qed.

Lemma readAtMostOnce_snoc (reads : list request) (r : request) :
  readAtMostOnce reads = true ->
  existsb (sameRequest r) reads = false ->
  readAtMostOnce (reads ++ [r]) = true.
Proof.
  induction reads as [|r0 reads IH]; simpl; intros H Hr; [reflexivity|].
  apply andb_true_iff in H. destruct H as [H0 H].
  apply orb_false_iff in Hr. destruct Hr as [Hr0 Hr].
  rewrite existsb_app, IH by assumption. simpl.
  rewrite (sameRequest_sym r0 r), Hr0.
  apply negb_true_iff in H0. now rewrite H0.
Qed.

End SpanStylesProps.

(** * Sequences of calls on an animation collection *)

Module AnimationCollectionSequences.

Import AnimationCollection Spec Sequences JsFacts AnimationCollectionProps.

Lemma string_eqb_trans (a b c : string) :
  String.eqb a b = true -> String.eqb b c = true -> String.eqb a c = true.
Proof. rewrite !String.eqb_eq. congruence. Qed.

Lemma startEnd_firstTime (keyframes : list Keyframe) :
  fst (startEnd keyframes) = firstTime keyframes.
Proof.
  destruct keyframes as [|first rest]; [reflexivity|].
  now rewrite startEnd_cons.
Qed.

Lemma add_delay (timingFunction : string) (keyframes : list Keyframe) (c : t) (name : string) :
  Map.get String.eqb name (_animationDelays (add timingFunction keyframes c))
  = if String.eqb name (animationNameOf c) then Some (firstTime keyframes)
    else Map.get String.eqb name (_animationDelays c).
Proof.
  unfold add. rewrite <- startEnd_firstTime.
  destruct (startEnd keyframes) as [start end_]. cbn [_animationDelays fst].
  apply (MapFacts.get_set String.eqb String.eqb_sym string_eqb_trans).
Qed.

Lemma addAll_keeps_delay (id : string) (calls : list (string * list Keyframe)) :
  forall (n : nat) (c : t) (j : nat),
    named id n c -> (j < n)%nat ->
    Map.get String.eqb (animationName id j) (_animationDelays (addAll calls c))
    = Map.get String.eqb (animationName id j) (_animationDelays c).
Proof.
  induction calls as [|call calls IH]; intros n c j Hc Hj; [reflexivity|].
  cbn [addAll fold_left]. fold (addAll calls (add (fst call) (snd call) c)).
  rewrite (IH (S n) _ j (add_named id n c _ _ Hc)) by lia.
  rewrite add_delay, (animationNameOf_named id n c Hc).
  destruct (String.eqb (animationName id j) (animationName id n)) eqn:E; [|reflexivity].
  apply String.eqb_eq, animationName_inj in E. lia.
Qed.

Lemma addAll_delay (id : string) (calls : list (string * list Keyframe)) :
  forall (n : nat) (c : t) (k : nat) (call : string * list Keyframe),
    named id n c -> nth_error calls k = Some call ->
    Map.get String.eqb (animationName id (n + k)) (_animationDelays (addAll calls c))
    = Some (firstTime (snd call)).
Proof.
  induction calls as [|call0 calls IH]; intros n c k call Hc Hk; [now destruct k|].
  cbn [addAll fold_left]. fold (addAll calls (add (fst call0) (snd call0) c)).
  pose proof (add_named id n c (fst call0) (snd call0) Hc) as Hc'.
  destruct k as [|k]; cbn [nth_error] in Hk.
  - injection Hk as <-. rewrite Nat.add_0_r.
    rewrite (addAll_keeps_delay id calls (S n) _ n Hc') by lia.
    rewrite add_delay, (animationNameOf_named id n c Hc).
    now rewrite String.eqb_refl.
  - replace (n + S k)%nat with (S n + k)%nat by lia.
    now apply (IH (S n)).
Qed.

(** X1: the delay registered for an animation is the time of its first
    keyframe, and no later [add] changes it. *)
Theorem delays_are_first_times :
  forall (renderer : NullRenderer) (nextId : N) (calls : list (string * list Keyframe))
         (k : nat) (call : string * list Keyframe),
    nth_error calls k = Some call ->
    let c0 := fst (new renderer nextId) in
    Map.get String.eqb (animationName (_id c0) k) (animationDelays (addAll calls c0))
    = Some (firstTime (snd call)).
Proof.
  intros renderer nextId calls k call Hk c0.
  exact (addAll_delay (_id c0) calls 0 c0 k call (new_named renderer nextId) Hk).
Qed.

(** Three animations, the second without keyframes. *)
Lemma delays_are_first_times_witness :
  let k0 := mkKeyframe 5%float [("opacity", "0")] in
  let k1 := mkKeyframe 9%float [("opacity", "1")] in
  let c0 := fst (new (mkRenderer 3 1%float) 7) in
  let c := addAll [("linear", [k0; k1]); ("ease", []); ("linear", [k1])] c0 in
  Map.get String.eqb "animation-3-7-0" (animationDelays c) = Some (val 5%float)
  /\ Map.get String.eqb "animation-3-7-1" (animationDelays c) = Some null.
Proof.
  intros k0 k1 c0 c. split.
  - exact (delays_are_first_times (mkRenderer 3 1%float) 7
             [("linear", [k0; k1]); ("ease", []); ("linear", [k1])] 0 _ eq_refl).
  - exact (delays_are_first_times (mkRenderer 3 1%float) 7
             [("linear", [k0; k1]); ("ease", []); ("linear", [k1])] 1 _ eq_refl).
Defined.


(** **** The texts a sequence of calls leaves *)

Lemma numbered_snoc {A} (l : list A) (x : A) : forall k : nat,
  numbered k (l ++ [x]) = (numbered k l ++ [((k + List.length l)%nat, x)])%list.
Proof.
  induction l as [|y l IH]; intros k; simpl.
  - now rewrite Nat.add_0_r.
  - rewrite IH. now replace (S k + List.length l)%nat with (k + S (List.length l))%nat by lia.
Qed.

Lemma concatStrings_snoc (l : list string) (x : string) :
  concatStrings (l ++ [x]) = concatStrings l ++ x.
Proof.
  induction l as [|y l IH]; simpl.
  - apply append_empty_r.
  - now rewrite IH, append_assoc.
Qed.

Lemma joinWith_snoc (separator : string) (parts : list string) (x : string) :
  parts <> [] ->
  joinWith separator (parts ++ [x]) = joinWith separator parts ++ separator ++ x.
Proof.
  induction parts as [|y parts IH]; intros H; [contradiction|].
  destruct parts as [|z parts]; [reflexivity|].
  change (joinWith separator ((y :: z :: parts) ++ [x]))
    with (y ++ separator ++ joinWith separator ((z :: parts) ++ [x])).
  rewrite IH by discriminate.
  change (joinWith separator (y :: z :: parts))
    with (y ++ separator ++ joinWith separator (z :: parts)).
  now rewrite !append_assoc.
Qed.

Lemma styleEntries_empty (id : string) (rate : number)
    (calls : list (nat * (string * list Keyframe))) :
  isEmpty (joinWith "," (map (styleEntry id rate) calls))
  = match calls with [] => true | _ => false end.
Proof.
  destruct calls as [|call [|call' calls]]; reflexivity.
Qed.

(** What one call appends to the two texts. *)
Lemma add_texts (id : string) (n : nat) (c : t) (timingFunction : string)
    (keyframes : list Keyframe) :
  named id n c ->
  _cssText (add timingFunction keyframes c)
  = _cssText c ++ rulesEntry id (n, (timingFunction, keyframes))
  /\ _animationStyle (add timingFunction keyframes c)
     = (if isEmpty (_animationStyle c) then EmptyString else _animationStyle c ++ ",") ++
       styleEntry id (_rate c) (n, (timingFunction, keyframes))
  /\ _rate (add timingFunction keyframes c) = _rate c.
Proof.
  intros Hc. unfold rulesEntry, styleEntry, ruleTextOf, durationOf, keyframesRules.
  cbn [fst snd]. rewrite <- (animationNameOf_named id n c Hc).
  unfold add. destruct (startEnd keyframes) as [start end_]. cbn [fst snd].
  cbn [_cssText _animationStyle _rate]. repeat split.
  destruct (isEmpty (_animationStyle c)) eqn:E; cbn [negb].
  - destruct (_animationStyle c); [reflexivity | discriminate].
  - now rewrite !append_assoc.
Qed.

Lemma addAll_snoc (calls : list (string * list Keyframe)) (call : string * list Keyframe)
    (c : t) :
  addAll (calls ++ [call]) c = add (fst call) (snd call) (addAll calls c).
Proof. unfold addAll. now rewrite fold_left_app. Qed.

Lemma addAll_texts (renderer : NullRenderer) (nextId : N)
    (calls : list (string * list Keyframe)) :
  let c0 := fst (new renderer nextId) in
  let c := addAll calls c0 in
  _cssText c = concatStrings (map (rulesEntry (_id c0)) (numbered 0 calls))
  /\ _animationStyle c
     = joinWith "," (map (styleEntry (_id c0) (clock_rate renderer)) (numbered 0 calls))
  /\ _rate c = clock_rate renderer.
Proof.
  intros c0. induction calls as [|call calls IH] using rev_ind; [now repeat split|].
  cbv zeta in IH |- *. destruct IH as (Hcss & Hstyle & Hrate).
  pose proof (addAll_named (_id c0) calls 0 c0 (new_named renderer nextId)) as Hc.
  cbn [Nat.add] in Hc.
  destruct (add_texts (_id c0) _ _ (fst call) (snd call) Hc) as (Hcss' & Hstyle' & Hrate').
  rewrite addAll_snoc, numbered_snoc, !map_app. cbn [map Nat.add].
  rewrite Hcss', Hstyle', Hrate', Hcss, Hstyle, Hrate, concatStrings_snoc.
  rewrite styleEntries_empty. rewrite <- surjective_pairing.
  repeat split.
  destruct calls as [|call' calls]; [reflexivity|].
  rewrite joinWith_snoc by discriminate. cbn [numbered map]. now rewrite !append_assoc.
Qed.

(** X2: the animation style lists one entry per call of [add], in call order
    and separated by commas: the animation's name, its duration (the
    distance between its first and last keyframes over the clock's rate,
    with three decimals) in seconds, and the timing function. *)
Theorem animationStyle_lists_entries :
  forall (renderer : NullRenderer) (nextId : N) (calls : list (string * list Keyframe)),
    let c0 := fst (new renderer nextId) in
    animationStyle (addAll calls c0)
    = joinWith "," (map (styleEntry (_id c0) (clock_rate renderer)) (numbered 0 calls)).
Proof.
  intros renderer nextId calls c0.
  exact (proj1 (proj2 (addAll_texts renderer nextId calls))).
Qed.

(** X3: the style sheet text is the concatenation, in call order, of the rules
    of every call of [add]: for each animation a prefixed [@-webkit-keyframes]
    rule and a [@keyframes] rule of the same name and with the same
    keyframe blocks. *)
Theorem cssText_concatenates_rules :
  forall (renderer : NullRenderer) (nextId : N) (calls : list (string * list Keyframe)),
    let c0 := fst (new renderer nextId) in
    cssText (addAll calls c0)
    = concatStrings (map (rulesEntry (_id c0)) (numbered 0 calls)).
Proof.
  intros renderer nextId calls c0.
  exact (proj1 (addAll_texts renderer nextId calls)).
Qed.

(** **** One named animation per call *)

(** C6: N calls to [add] on a fresh collection leave exactly the N
    animations named [animation-<id>-0] to [animation-<id>-(N-1)], in call
    order and pairwise distinct: these are the keys of the delays, the
    names of the rules in the style sheet text and the names of the entries
    of the animation style, one per call; each further call appends exactly
    one animation under the next name of the sequence, a name not used
    before: one key, one pair of rules and one entry. *)
Theorem add_names_sequence :
  forall (renderer : NullRenderer) (nextId : N)
         (calls : list (string * list Keyframe)),
    let c0 := fst (new renderer nextId) in
    let c := addAll calls c0 in
    let names := map (animationName (_id c0)) (seq 0 (List.length calls)) in
    Map.keys (animationDelays c) = names
    /\ NoDup names
    /\ _numAnimations c = N.of_nat (List.length calls)
    /\ cssText c = concatStrings (map (rulesEntry (_id c0)) (numbered 0 calls))
    /\ animationStyle c
       = joinWith "," (map (styleEntry (_id c0) (clock_rate renderer)) (numbered 0 calls))
    /\ forall (timingFunction : string) (keyframes : list Keyframe),
         let name := animationName (_id c0) (List.length calls) in
         let c' := add timingFunction keyframes c in
         ~ In name names
         /\ Map.keys (animationDelays c') = (names ++ [name])%list
         /\ cssText c' = cssText c ++ keyframesRules name (ruleTextOf keyframes)
         /\ animationStyle c'
            = (if isEmpty (animationStyle c) then EmptyString else animationStyle c ++ ",") ++
              name ++ " " ++
              Number_toFixed 3 (durationOf (clock_rate renderer) keyframes) ++ "s " ++
              timingFunction
         /\ _numAnimations c' = N.of_nat (S (List.length calls)).
Proof.
  intros renderer nextId calls c0 c names.
  pose proof (addAll_named (_id c0) calls 0 c0 (new_named renderer nextId)) as H.
  cbn [Nat.add] in H. fold c in H.
  pose proof H as (_ & Hn & Hkeys). fold names in Hkeys.
  destruct (addAll_texts renderer nextId calls) as (Hcss & Hstyle & Hrate).
  fold c0 in Hcss, Hstyle, Hrate. fold c in Hcss, Hstyle, Hrate.
  unfold animationDelays, cssText, animationStyle.
  split; [exact Hkeys|]. split; [|split; [exact Hn|split; [exact Hcss|split; [exact Hstyle|]]]].
  - unfold names. apply NoDup_map_NoDup_ForallPairs; [|apply seq_NoDup].
    intros i j _ _. apply animationName_inj.
  - intros timingFunction keyframes. cbv zeta.
    set (name := animationName (_id c0) (List.length calls)).
    set (c' := add timingFunction keyframes c).
    destruct (add_texts (_id c0) _ c timingFunction keyframes H) as (Hcss' & Hstyle' & _).
    pose proof (add_named (_id c0) _ c timingFunction keyframes H) as (_ & Hn' & _).
    split; [|split; [|split; [exact Hcss'|split; [|exact Hn']]]].
    + unfold names. intros Hin. apply in_map_iff in Hin. destruct Hin as (i & Hi & Hin).
      apply in_seq in Hin. apply animationName_inj in Hi. lia.
    + unfold c'. rewrite (add_keys (_id c0) _ c timingFunction keyframes H).
      now rewrite Hkeys.
    + unfold c'. rewrite Hstyle', Hrate. reflexivity.
Qed.

(** **** An animation without keyframes *)

Lemma zero_over_rate (rate : number) :
  Number_toFixed 3 ((ToNumber null - ToNumber null) / rate)%float
  = if zeroOrNaN rate then "NaN" else "0.000".
Proof.
  change (ToNumber null - ToNumber null)%float with 0%float.
  unfold Number_toFixed, zeroOrNaN. rewrite div_spec.
  change (Prim2SF 0) with (S754_zero false).
  destruct (Prim2SF rate) as [s|s| |s m e]; reflexivity.
Qed.

(** X4: [add] with no keyframes: the two rules have an empty body, the delay
    registered is [null], and the duration printed is [0.000], or [NaN]
    when the clock's rate is zero or not a number. *)
Theorem add_without_keyframes :
  forall (timingFunction : string) (c : t),
    let c' := add timingFunction [] c in
    cssText c' = cssText c ++ keyframesRules (animationNameOf c) EmptyString
    /\ Map.get String.eqb (animationNameOf c) (animationDelays c') = Some null
    /\ animationStyle c'
       = (if isEmpty (animationStyle c) then EmptyString else animationStyle c ++ ",") ++
         animationNameOf c ++ " " ++
         (if zeroOrNaN (_rate c) then "NaN" else "0.000") ++ "s " ++ timingFunction
    /\ _numAnimations c' = (_numAnimations c + 1)%N.
Proof.
  intros timingFunction c c'. split; [reflexivity|]. split; [|split; [|reflexivity]].
  - unfold c', animationDelays. rewrite add_delay. now rewrite String.eqb_refl.
  - unfold c', animationStyle, add. cbn [startEnd fold_left _animationStyle].
    rewrite zero_over_rate.
    destruct (isEmpty (_animationStyle c)) eqn:E; cbn [negb].
    + destruct (_animationStyle c); [reflexivity | discriminate].
    + now rewrite !append_assoc.
Qed.


(** **** Names are not shared *)

Lemma uint_no_dash (d : Decimal.uint) : occurs "-" (NilEmpty.string_of_uint d) = false.
Proof. induction d; simpl; auto. Qed.

Lemma decimalOfN_no_dash (n : N) : occurs "-" (decimalOfN n) = false.
Proof. apply uint_no_dash. Qed.

(** Two texts cut at their first dash. *)
Lemma split_at_dash (a b x y : string) :
  occurs "-" a = false -> occurs "-" b = false ->
  a ++ "-" ++ x = b ++ "-" ++ y -> a = b /\ x = y.
Proof.
  revert b. induction a as [|c a IH]; intros [|c' b] Ha Hb H; simpl in *.
  - injection H as H. now split.
  - injection H as Hc H. subst c'. discriminate.
  - injection H as Hc H. subst c. discriminate.
  - injection H as Hc H. subst c'.
    apply orb_false_iff in Ha, Hb.
    destruct (IH b (proj2 Ha) (proj2 Hb) H) as [-> ->]. now split.
Qed.

Lemma dashed_inj (r n i r' n' i' : N) :
  (decimalOfN r ++ "-" ++ decimalOfN n) ++ "-" ++ decimalOfN i
  = (decimalOfN r' ++ "-" ++ decimalOfN n') ++ "-" ++ decimalOfN i' ->
  r = r' /\ n = n' /\ i = i'.
Proof.
  rewrite !append_assoc. intros H.
  apply split_at_dash in H; try apply decimalOfN_no_dash. destruct H as [Hr H].
  apply split_at_dash in H; try apply decimalOfN_no_dash. destruct H as [Hn Hi].
  repeat split; now apply decimalOfN_inj.
Qed.

Lemma animationName_new_inj (r1 r2 : NullRenderer) (n1 n2 : N) (i j : nat) :
  animationName (_id (fst (new r1 n1))) i = animationName (_id (fst (new r2 n2))) j ->
  id r1 = id r2 /\ n1 = n2 /\ i = j.
Proof.
  unfold animationName. cbn [new fst _id]. intros H.
  apply (append_inj_l "animation-") in H.
  apply dashed_inj in H. destruct H as (Hr & Hn & Hi).
  repeat split; try assumption. now apply Nat2N.inj.
Qed.

Lemma nth_error_newAll (renderers : list NullRenderer) :
  forall (nextId : N) (a : nat) (c : t),
    nth_error (newAll renderers nextId) a = Some c ->
    exists renderer, c = fst (new renderer (nextId + N.of_nat a)).
Proof.
  induction renderers as [|r rs IH]; intros nextId a c H; [now destruct a|].
  cbn [newAll new] in H. destruct a as [|a]; cbn [nth_error] in H.
  - injection H as <-. exists r. now rewrite N.add_0_r.
  - apply IH in H. destruct H as [r' ->]. exists r'.
    now replace (nextId + 1 + N.of_nat a)%N with (nextId + N.of_nat (S a))%N by lia.
Qed.

(** X5: animation names are not shared: among the collections created in one
    process, whatever their renderers, two different collections never use
    the same animation name, nor does one collection use a name twice. *)
Theorem animation_names_are_unique :
  forall (renderers : list NullRenderer) (nextId : N) (a b : nat) (ca cb : t) (i j : nat),
    nth_error (newAll renderers nextId) a = Some ca ->
    nth_error (newAll renderers nextId) b = Some cb ->
    a <> b \/ i <> j ->
    animationName (_id ca) i <> animationName (_id cb) j.
Proof.
  intros renderers nextId a b ca cb i j Ha Hb Hne H.
  apply nth_error_newAll in Ha, Hb. destruct Ha as [ra ->], Hb as [rb ->].
  apply animationName_new_inj in H. destruct H as (_ & Hn & Hi).
  destruct Hne as [Hne|Hne]; [apply Hne; lia | now apply Hne].
Qed.

(** Two collections of the same renderer, a third one created in between. *)
Lemma animation_names_are_unique_witness :
  let r := mkRenderer 1 1%float in
  map _id (newAll [r; mkRenderer 12 1%float; r] 3) = ["1-3"; "12-4"; "1-5"]
  /\ "animation-1-3-0" <> "animation-1-5-0".
Proof.
  intros r. split; [reflexivity|].
  refine (animation_names_are_unique [r; mkRenderer 12 1%float; r] 3 0 2
            (fst (new r 3)) (fst (new r 5)) 0 0 eq_refl eq_refl _).
  left. lia.
Defined.

End AnimationCollectionSequences.

(** * Calls on a style state *)

Module SpanStylesStates.

Import SpanStyles Spec States Rendering JsFacts.

Lemma reset_after_call (newStyle : js Style.t) (call : styleCall) (this : t) :
  reset newStyle (applyCall call this) = reset newStyle this.
Proof. destruct call; vm_compute; reflexivity. Qed.

(** X6: [reset] forgets every earlier call: what it leaves depends on the
    style it is given and on the base style only, not on what the setters
    (or an earlier [reset]) had stored; in particular a second [reset] to the
    same style changes nothing. *)
Theorem reset_forgets_earlier_calls :
  forall (newStyle : js Style.t) (calls : list styleCall) (this : t),
    reset newStyle (applyCalls calls this) = reset newStyle this
    /\ reset newStyle (reset newStyle this) = reset newStyle this.
Proof.
  intros newStyle calls this. split; [|vm_compute; reflexivity].
  revert this. induction calls as [|call calls IH]; intros this; [reflexivity|].
  cbn [applyCalls fold_left]. fold (applyCalls calls (applyCall call this)).
  now rewrite IH, reset_after_call.
Qed.

(** X7: [reset(style)] takes every attribute that has a setter with a default
    from the given style, falling back to the base style where the given
    style holds [null]; the rotation about Z alone is stored as the given
    style has it, [null] included; the rotations about X and Y, the skews
    and the alpha overrides are cleared and the blurs are 0.  The base
    style, the identifier, the scales, the settings and the filter counter
    are kept. *)
Theorem reset_takes_style :
  forall (style : Style.t) (this : t),
    atStyle style this (reset (val style) this)
    /\ sameObject this (reset (val style) this)
    /\ (Style.rotationZ style = null -> _rotationZ (reset (val style) this) = null).
Proof.
  intros style this. split; [|split].
  - unfold atStyle, fromStyle. repeat split.
  - unfold sameObject. repeat split.
  - intros H. exact H.
Qed.


Lemma later_call_overrides (c1 c2 : styleCall) (this : t) :
  attributeOf c1 = attributeOf c2 ->
  applyCall c2 (applyCall c1 this) = applyCall c2 this.
Proof.
  intros H. destruct c1; destruct c2; try discriminate H; vm_compute; reflexivity.
Qed.

Lemma calls_commute (c1 c2 : styleCall) (this : t) :
  attributeOf c1 <> None -> attributeOf c2 <> None -> attributeOf c1 <> attributeOf c2 ->
  applyCall c2 (applyCall c1 this) = applyCall c1 (applyCall c2 this).
Proof.
  intros H1 H2 H.
  destruct c1; try (exfalso; apply H1; reflexivity);
    destruct c2; try (exfalso; apply H2; reflexivity);
    try (exfalso; apply H; reflexivity); vm_compute; reflexivity.
Qed.

(** X8: setters of different attributes can be called in either order, and of
    two calls of the same setter the later one decides: the state after
    both is the state after the later one alone. *)
Theorem setters_compose :
  forall (c1 c2 : styleCall) (this : t),
    attributeOf c1 <> None -> attributeOf c2 <> None ->
    (attributeOf c1 <> attributeOf c2 ->
       applyCall c2 (applyCall c1 this) = applyCall c1 (applyCall c2 this))
    /\ (attributeOf c1 = attributeOf c2 ->
          applyCall c2 (applyCall c1 this) = applyCall c2 this).
Proof.
  intros c1 c2 this H1 H2. split.
  - now apply calls_commute.
  - apply later_call_overrides.
Qed.

(** Italic and bold in either order; italic set twice. *)
Lemma setters_compose_witness :
  let this := plainStyles true in
  set_bold (val (inl true)) (set_italic (val true) this)
  = set_italic (val true) (set_bold (val (inl true)) this)
  /\ set_italic (val false) (set_italic (val true) this) = set_italic (val false) this.
Proof.
  intros this. split.
  - refine (proj1 (setters_compose (SetItalic (val true)) (SetBold (val (inl true))) this
                     _ _) _); discriminate.
  - refine (proj2 (setters_compose (SetItalic (val true)) (SetItalic (val false)) this
                     _ _) _); [discriminate | discriminate | reflexivity].
Defined.

End SpanStylesStates.

(** * Styled spans *)

Module SpanStylesRendering.

Import SpanStyles Spec Sequences Rendering JsFacts SpanStylesProps.

(** **** What a call that returns has gone through *)

Lemma getFontSize_page (fontFamily : js string) (lineHeight : js number) (dom : Dom) :
  _svgDefsElement (snd (_getFontSize fontFamily lineHeight dom)) = _svgDefsElement dom
  /\ animationStyleElement (snd (_getFontSize fontFamily lineHeight dom))
     = animationStyleElement dom.
Proof.
  unfold _getFontSize.
  destruct (Map.get familyEq fontFamily (_fontSizeCache dom)) as [sizes|];
    match goal with
    | |- context [Map.get sizeEq lineHeight ?m] =>
        destruct (Map.get sizeEq lineHeight m)
    end; now split.
Qed.

Lemma outlineStage_keeps (fuel : nat) (this : t) (outlineColor : Color.t)
    (outlineWidth outlineHeight : number) (style : CSSStyleDeclaration)
    (outlineFilter blurFilter filterId : string) (this' : t) (style' : CSSStyleDeclaration) :
  outlineStage fuel this outlineColor outlineWidth outlineHeight style
  = Ok (outlineFilter, blurFilter, filterId, this', style') ->
  this' = assign_nextFilterId (_nextFilterId this') this.
Proof.
  intros H. apply outlineStage_returns in H. destruct H as [[->| ->] _]; now destruct this.
Qed.

Lemma setStylesOnSpan_inversion (fuel : nat) (span : HTMLSpanElement)
    (animationCollection : AnimationCollection.t) (this : t) (dom : Dom)
    (w : FilterWrapperSpan) (this' : t) (dom' : Dom) :
  setStylesOnSpan fuel span animationCollection this dom = Ok (w, this', dom') ->
  let lookup :=
    _getFontSize (_fontName this) (effectivePointSize (firstChildIsText span) this) dom in
  exists (primaryColor outlineColor : Color.t) (outlineFilter blurFilter filterId : string)
         (style1 style2 : CSSStyleDeclaration),
    colorWithAlpha (_primaryColor this) (_primaryAlpha this) = Ok primaryColor
    /\ colorWithAlpha (_outlineColor this) (_outlineAlpha this) = Ok outlineColor
    /\ outlineStage fuel this outlineColor (scaledOutlineWidth this) (scaledOutlineHeight this)
         (firstWrites span this (fst lookup) primaryColor)
       = Ok (outlineFilter, blurFilter, filterId, this', style1)
    /\ dropShadow this style1 = Ok style2
    /\ wrapped w
       = mkSpan (firstChildIsText span)
           (setProperty "animation" (AnimationCollection.animationStyle animationCollection)
              (setProperty "webkitAnimation"
                 (AnimationCollection.animationStyle animationCollection) style2))
    /\ wrapperStyle w
       = wrapperStyleOf (negb (isEmpty outlineFilter) || negb (isEmpty blurFilter)) filterId this
    /\ _svgDefsElement dom'
       = (if negb (isEmpty outlineFilter) || negb (isEmpty blurFilter)
          then _svgDefsElement dom ++ [filterStringOf filterId outlineFilter blurFilter]
          else _svgDefsElement dom)%list
    /\ animationStyleElement dom'
       = (animationStyleElement dom ++ [AnimationCollection.cssText animationCollection])%list.
Proof.
  intros H lookup. unfold setStylesOnSpan in H.
  pose proof (getFontSize_page (_fontName this)
                (effectivePointSize (firstChildIsText span) this) dom) as [Hdefs Hanim].
  fold lookup in Hdefs, Hanim.
  change (_getFontSize (_fontName this) (effectivePointSize (firstChildIsText span) this) dom)
    with lookup in H.
  destruct lookup as [size dom1]. cbv zeta in H. cbn [fst snd] in *.
  destruct (colorWithAlpha (_primaryColor this) (_primaryAlpha this)) as [primaryColor| |];
    cbn [bind] in H; try discriminate.
  destruct (colorWithAlpha (_outlineColor this) (_outlineAlpha this)) as [outlineColor| |];
    cbn [bind] in H; try discriminate.
  match type of H with
  | bind ?m _ = _ =>
      destruct m as [[[[[outlineFilter blurFilter] filterId] this1] style1]| |] eqn:Hstage
  end; cbn [bind] in H; try discriminate.
  pose proof (outlineStage_keeps _ _ _ _ _ _ _ _ _ _ _ Hstage) as Hthis.
  assert (Hshadow : dropShadow this1 style1 = dropShadow this style1)
    by (rewrite Hthis; reflexivity).
  assert (Hdisplay : wrapperNeedsDisplay this1 = wrapperNeedsDisplay this)
    by (rewrite Hthis; reflexivity).
  rewrite Hshadow, Hdisplay in H.
  destruct (dropShadow this style1) as [style2| |] eqn:Hdrop;
    [|destruct (negb (isEmpty outlineFilter) || negb (isEmpty blurFilter));
      cbn [bind] in H; discriminate..].
  exists primaryColor, outlineColor, outlineFilter, blurFilter, filterId, style1, style2.
  unfold wrapperStyleOf, filterUrl.
  destruct (negb (isEmpty outlineFilter) || negb (isEmpty blurFilter));
    cbn [bind] in H; inversion H; subst; clear H;
    cbn [wrapped wrapperStyle _svgDefsElement animationStyleElement];
    rewrite Hdefs, Hanim; repeat split; assumption.
Qed.


Lemma applyTransform_other (name transform : string) (style : CSSStyleDeclaration) :
  ~ In name ["webkitTransform"; "webkitTransformOrigin"; "transform"; "transformOrigin";
             "display"] ->
  getProperty name (applyTransform transform style) = getProperty name style.
Proof.
  intros Hn. unfold applyTransform. destruct (negb (isEmpty transform)); [|reflexivity].
  rewrite !getProperty_set_other; [reflexivity|..]; intros ->; apply Hn; simpl; tauto.
Qed.

(** The properties written before the outline are not written again,
    [textShadow] and the two animation properties apart. *)
Lemma setStylesOnSpan_first_writes (fuel : nat) (span : HTMLSpanElement)
    (animationCollection : AnimationCollection.t) (this : t) (dom : Dom)
    (w : FilterWrapperSpan) (this' : t) (dom' : Dom) :
  setStylesOnSpan fuel span animationCollection this dom = Ok (w, this', dom') ->
  let lookup :=
    _getFontSize (_fontName this) (effectivePointSize (firstChildIsText span) this) dom in
  exists primaryColor : Color.t,
    colorWithAlpha (_primaryColor this) (_primaryAlpha this) = Ok primaryColor
    /\ forall name : string,
         ~ In name ["textShadow"; "webkitAnimation"; "animation"] ->
         getProperty name (style (wrapped w))
         = getProperty name (firstWrites span this (fst lookup) primaryColor).
Proof.
  intros H lookup. apply setStylesOnSpan_inversion in H. fold lookup in H.
  destruct H as (primaryColor & outlineColor & outlineFilter & blurFilter & filterId &
                 style1 & style2 & Hprimary & _ & Hstage & Hdrop & Hw & _).
  exists primaryColor. split; [exact Hprimary|]. intros name Hn.
  assert (Hne : forall k, In k ["textShadow"; "webkitAnimation"; "animation"] -> name <> k)
    by (intros k Hk ->; now apply Hn).
  rewrite Hw. cbn [style].
  rewrite !getProperty_set_other by (apply Hne; simpl; tauto).
  rewrite (dropShadow_other _ _ _ Hdrop) by (apply Hne; simpl; tauto).
  apply outlineStage_returns in Hstage. destruct Hstage as [_ Hstage].
  apply Hstage. apply Hne; simpl; tauto.
Qed.

(** **** The text decoration *)

Lemma textDecorationOf_values (this : t) :
  textDecorationOf this
  = match ToBoolean (_underline this), ToBoolean (_strikeThrough this) with
    | true, true => "underline line-through"
    | true, false => "underline"
    | false, true => "line-through"
    | false, false => EmptyString
    end.
Proof.
  unfold textDecorationOf.
  destruct (ToBoolean (_underline this)), (ToBoolean (_strikeThrough this)); reflexivity.
Qed.

(** X9: the text decoration of a styled span is one of four texts, chosen by
    the truth of the underline and strike-through attributes ([null] and
    [undefined] count as false); a strike-through alone is written without the
    blank that separates it from an underline. *)
Theorem text_decoration_values :
  forall (fuel : nat) (span : HTMLSpanElement) (animationCollection : AnimationCollection.t)
         (this : t) (dom : Dom) (w : FilterWrapperSpan) (this' : t) (dom' : Dom),
    setStylesOnSpan fuel span animationCollection this dom = Ok (w, this', dom') ->
    getProperty "textDecoration" (style (wrapped w))
    = match ToBoolean (_underline this), ToBoolean (_strikeThrough this) with
      | true, true => "underline line-through"
      | true, false => "underline"
      | false, true => "line-through"
      | false, false => EmptyString
      end.
Proof.
  intros fuel span animationCollection this dom w this' dom' H.
  destruct (setStylesOnSpan_first_writes _ _ _ _ _ _ _ _ H) as (primaryColor & _ & Hstyle).
  rewrite Hstyle by (simpl; intuition discriminate).
  unfold firstWrites.
  rewrite !getProperty_set_other by discriminate.
  rewrite applyTransform_other by (simpl; intuition discriminate).
  rewrite getProperty_set_same. apply textDecorationOf_values.
Qed.

(** A struck-through span. *)
Lemma text_decoration_values_witness :
  let this := set_strikeThrough (val true) (plainStyles true) in
  exists w this' dom',
    setStylesOnSpan 1 textSpan emptyCollection this emptyPage = Ok (w, this', dom')
    /\ getProperty "textDecoration" (style (wrapped w)) = "line-through".
Proof.
  intros this.
  destruct (setStylesOnSpan 1 textSpan emptyCollection this emptyPage)
    as [[[w this'] dom']| |] eqn:Hrun; [|vm_compute in Hrun; discriminate..].
  exists w, this', dom'. split; [reflexivity|].
  exact (text_decoration_values 1 textSpan emptyCollection this emptyPage w this' dom' Hrun).
Defined.

(** **** The font and the line height *)

Lemma fontStyleOrWeightOf_tokens (this : t) :
  fontStyleOrWeightOf this = italicToken (_italic this) ++ weightToken (_bold this).
Proof.
  unfold fontStyleOrWeightOf, italicToken, weightToken. cbv zeta.
  destruct (ToBoolean (_italic this)); destruct (_bold this) as [| |[[|]|weight]];
    cbn [boldIs Bool.eqb negb boldInTemplate]; try reflexivity;
    now rewrite ?append_assoc.
Qed.

(** X10: the font of a styled span is written as the italic keyword when the
    italic attribute is true, the weight (the keyword [bold] for [true],
    nothing for [false], the number for a numeric weight), the scaled size
    measured for the font, a slash, the line height and the quoted font name;
    the line height is the text [makeNewLine] gives the [<br>] it makes:
    the scaled font size with three decimals, in pixels. *)
Theorem font_and_line_height :
  forall (fuel : nat) (span : HTMLSpanElement) (animationCollection : AnimationCollection.t)
         (this : t) (dom : Dom) (w : FilterWrapperSpan) (this' : t) (dom' : Dom),
    setStylesOnSpan fuel span animationCollection this dom = Ok (w, this', dom') ->
    let size :=
      fst (_getFontSize (_fontName this)
             (effectivePointSize (firstChildIsText span) this) dom) in
    getProperty "font" (style (wrapped w))
    = italicToken (_italic this) ++ weightToken (_bold this) ++
      Number_toFixed 3 (_scaleY this * size)%float ++ "px/" ++
      getProperty "lineHeight" (makeNewLine this) ++ " " ++
      q (stringInTemplate (_fontName this))
    /\ getProperty "lineHeight" (makeNewLine this)
       = Number_toFixed 3 (_scaleY this * ToNumber (_fontSize this))%float ++ "px"
    /\ makeNewLine this' = makeNewLine this.
Proof.
  intros fuel span animationCollection this dom w this' dom' H size.
  destruct (setStylesOnSpan_first_writes _ _ _ _ _ _ _ _ H) as (primaryColor & _ & Hstyle).
  fold size in Hstyle. split; [|split].
  - rewrite Hstyle by (simpl; intuition discriminate).
    unfold firstWrites.
    rewrite !getProperty_set_other by discriminate.
    rewrite applyTransform_other by (simpl; intuition discriminate).
    rewrite !getProperty_set_other by discriminate.
    rewrite getProperty_set_same.
    unfold fontOf, makeNewLine. rewrite getProperty_set_same, fontStyleOrWeightOf_tokens.
    now rewrite !append_assoc.
  - unfold makeNewLine. apply getProperty_set_same.
  - destruct (setStylesOnSpan_returns _ _ _ _ _ _ _ _ H) as (_ & _ & _ & _ & [->| ->]);
      reflexivity.
Qed.

(** An italic span of weight 700, in Arial at 20 pixels. *)
Lemma font_and_line_height_witness :
  let this := set_bold (val (inr 700%float)) (set_italic (val true) (plainStyles true)) in
  exists w this' dom',
    setStylesOnSpan 1 textSpan emptyCollection this emptyPage = Ok (w, this', dom')
    /\ getProperty "font" (style (wrapped w))
       = "italic 700 16.000px/20.000px " ++ q "Arial"
    /\ getProperty "lineHeight" (makeNewLine this) = "20.000px".
Proof.
  intros this.
  destruct (setStylesOnSpan 1 textSpan emptyCollection this emptyPage)
    as [[[w this'] dom']| |] eqn:Hrun; [|vm_compute in Hrun; discriminate..].
  exists w, this', dom'. split; [reflexivity|].
  destruct (font_and_line_height 1 textSpan emptyCollection this emptyPage w this' dom' Hrun)
    as (Hfont & Hline & _).
  split; [exact Hfont | exact Hline].
Defined.

(** **** The animations of a styled span *)

(** X11: every styling appends one text node to the animation style element,
    holding the whole style sheet text of the collection it is given, also
    when that text is empty or was appended before, and names the
    collection's animations on the span, with and without the vendor
    prefix. *)
Theorem styling_appends_animation_text :
  forall (fuel : nat) (span : HTMLSpanElement) (animationCollection : AnimationCollection.t)
         (this : t) (dom : Dom) (w : FilterWrapperSpan) (this' : t) (dom' : Dom),
    setStylesOnSpan fuel span animationCollection this dom = Ok (w, this', dom') ->
    animationStyleElement dom'
    = (animationStyleElement dom ++ [AnimationCollection.cssText animationCollection])%list
    /\ getProperty "animation" (style (wrapped w))
       = AnimationCollection.animationStyle animationCollection
    /\ getProperty "webkitAnimation" (style (wrapped w))
       = AnimationCollection.animationStyle animationCollection.
Proof.
  intros fuel span animationCollection this dom w this' dom' H.
  apply setStylesOnSpan_inversion in H.
  destruct H as (primaryColor & outlineColor & outlineFilter & blurFilter & filterId &
                 style1 & style2 & _ & _ & _ & _ & Hw & _ & _ & Hanim).
  split; [exact Hanim|]. rewrite Hw. cbn [style]. split.
  - apply getProperty_set_same.
  - rewrite getProperty_set_other by discriminate. apply getProperty_set_same.
Qed.

(** A collection with one animation of ten seconds. *)
Lemma styling_appends_animation_text_witness :
  let k0 := AnimationCollection.mkKeyframe 0%float [("opacity", "0")] in
  let k1 := AnimationCollection.mkKeyframe 10%float [("opacity", "1")] in
  let collection := AnimationCollection.add "linear" [k0; k1] emptyCollection in
  exists w this' dom',
    setStylesOnSpan 1 textSpan collection (plainStyles true) emptyPage = Ok (w, this', dom')
    /\ animationStyleElement dom' = [AnimationCollection.cssText collection]
    /\ getProperty "animation" (style (wrapped w)) = "animation-0-0-0 10.000s linear".
Proof.
  intros k0 k1 collection.
  destruct (setStylesOnSpan 1 textSpan collection (plainStyles true) emptyPage)
    as [[[w this'] dom']| |] eqn:Hrun; [|vm_compute in Hrun; discriminate..].
  exists w, this', dom'. split; [reflexivity|].
  destruct (styling_appends_animation_text 1 textSpan collection (plainStyles true) emptyPage
              w this' dom' Hrun) as (Helement & Hanimation & _).
  split; [exact Helement | exact Hanimation].
Defined.


(** **** Spans without a transform *)

Lemma isEmpty_append (a b : string) : isEmpty (a ++ b) = isEmpty a && isEmpty b.
Proof. now destruct a. Qed.

Lemma transformOf_empty (isTextOnlySpan : bool) (this : t) :
  isEmpty (transformOf isTextOnlySpan this) = untransformed isTextOnlySpan this.
Proof.
  rewrite transformOf_components, !isEmpty_append.
  unfold untransformed, scaleUnlessOne, scaleComponent, rotationYComponent,
    rotationXComponent, rotationZComponent, shearComponent.
  destruct isTextOnlySpan;
    destruct (numEq (_fontScaleY this) (_fontScaleX this));
    destruct (numEq (_fontScaleX this) (val 1%float));
    destruct (numEq (_fontScaleY this) (val 1%float));
    destruct (isNull (_rotationY this)); destruct (isNull (_rotationX this));
    destruct (numEq (_rotationZ this) (val 0%float));
    destruct (isNull (_skewX this)); destruct (isNull (_skewY this)); reflexivity.
Qed.

(** X12: no transform is written exactly when the scales ask for none (equal
    scales for a text-only span, both scales 1 for any other), the rotations
    about X and Y and the two skews are [null] and the rotation about Z is
    the number 0; a rotation about Z of [null] is written as a rotation by
    0 degrees.  A span styled without a transform keeps the transform, the
    transform origin and the display mode it came with. *)
Theorem transform_written_exactly_when :
  forall (isTextOnlySpan : bool) (this : t),
    isEmpty (transformOf isTextOnlySpan this) = untransformed isTextOnlySpan this
    /\ (_rotationZ this = null ->
        untransformed isTextOnlySpan this = false
        /\ rotationZComponent this = "rotateZ(0deg) ")
    /\ (forall fuel span animationCollection dom w this' dom' name,
          firstChildIsText span = isTextOnlySpan ->
          setStylesOnSpan fuel span animationCollection this dom = Ok (w, this', dom') ->
          untransformed isTextOnlySpan this = true ->
          In name ["webkitTransform"; "webkitTransformOrigin"; "transform";
                   "transformOrigin"; "display"] ->
          getProperty name (style (wrapped w)) = getProperty name (style span)).
Proof.
  intros isTextOnlySpan this. split; [apply transformOf_empty|]. split.
  - intros Hz. unfold untransformed, rotationZComponent. rewrite Hz. split; [|reflexivity].
    cbn [numEq strictEq]. now rewrite !andb_false_r.
  - intros fuel span animationCollection dom w this' dom' name <- H Hnone Hname.
    destruct (setStylesOnSpan_returns _ _ _ _ _ _ _ _ H) as (_ & _ & Hstyle & _).
    rewrite Hstyle.
    + unfold applyTransform. now rewrite transformOf_empty, Hnone.
    + simpl in Hname |- *. intuition (subst; discriminate).
Qed.

(** A fresh style state, both scales 1: a text-only span that came with a
    display mode keeps it. *)
Lemma transform_written_exactly_when_witness :
  let span := mkSpan true [("display", "block")] in
  untransformed true (plainStyles true) = true
  /\ exists w this' dom',
       setStylesOnSpan 1 span emptyCollection (plainStyles true) emptyPage
       = Ok (w, this', dom')
       /\ getProperty "display" (style (wrapped w)) = "block".
Proof.
  intros span. split; [reflexivity|].
  destruct (setStylesOnSpan 1 span emptyCollection (plainStyles true) emptyPage)
    as [[[w this'] dom']| |] eqn:Hrun; [|vm_compute in Hrun; discriminate..].
  exists w, this', dom'. split; [reflexivity|].
  destruct (transform_written_exactly_when true (plainStyles true)) as (_ & _ & H).
  apply (H 1%nat span emptyCollection emptyPage w this' dom' "display" eq_refl Hrun eq_refl).
  simpl. tauto.
Defined.

(** **** Type errors *)

Lemma bind_no_throw_from {A B} (m : outcome A) (k : A -> outcome B) :
  m <> TypeError -> (forall a, m = Ok a -> k a <> TypeError) -> bind m k <> TypeError.
Proof.
  destruct m; simpl; intros Hm Hk; [now apply Hk | now contradiction Hm | discriminate].
Qed.

Lemma bind_no_throw {A B} (m : outcome A) (k : A -> outcome B) :
  m <> TypeError -> (forall a, k a <> TypeError) -> bind m k <> TypeError.
Proof. intros Hm Hk. apply bind_no_throw_from; [exact Hm | intros a _; apply Hk]. Qed.

Lemma forLoop_no_throw {A} (cond : number -> bool) (next : number -> number)
    (body : number -> A -> outcome A) :
  (forall i a, body i a <> TypeError) ->
  forall (fuel : nat) (i : number) (a : A), forLoop fuel cond next body i a <> TypeError.
Proof.
  intros Hbody. induction fuel as [|fuel IH]; intros i a; simpl; [discriminate|].
  destruct (cond i); [|discriminate].
  apply bind_no_throw; [apply Hbody | intros a'; apply IH].
Qed.

Lemma if_no_throw {A} (c : bool) (m m' : outcome A) :
  m <> TypeError -> m' <> TypeError -> (if c then m else m') <> TypeError.
Proof. now destruct c. Qed.

Lemma svgOutlineWalk_no_throw {A} (addOutline : number -> number -> A -> outcome A) :
  (forall x y a, addOutline x y a <> TypeError) ->
  forall fuel outlineWidth outlineHeight increment a,
    svgOutlineWalk fuel addOutline outlineWidth outlineHeight increment a <> TypeError.
Proof.
  intros Hadd fuel outlineWidth outlineHeight increment a. unfold svgOutlineWalk.
  repeat apply if_no_throw; try apply Hadd.
  all: apply bind_no_throw; [apply forLoop_no_throw; intros; apply Hadd|].
  all: intros [i a']; apply if_no_throw; [apply Hadd | discriminate].
Qed.

Lemma shadowOutlineWalk_no_throw {A} (addOutline : number -> number -> A -> outcome A) :
  (forall x y a, addOutline x y a <> TypeError) ->
  forall fuel outlineWidth outlineHeight a,
    shadowOutlineWalk fuel addOutline outlineWidth outlineHeight a <> TypeError.
Proof.
  intros Hadd fuel outlineWidth outlineHeight a. unfold shadowOutlineWalk.
  apply bind_no_throw; [|intros [i a']; discriminate].
  apply forLoop_no_throw. intros x a'.
  apply bind_no_throw; [|intros [i a'']; discriminate].
  apply forLoop_no_throw. intros y a''.
  repeat (apply bind_no_throw; [|intros ?]);
    try (apply if_no_throw; [apply Hadd | discriminate]); apply Hadd.
Qed.

Lemma svgOutlineFilter_no_throw (fuel : nat) (this : t) (outlineColor : Color.t)
    (outlineWidth outlineHeight : number) :
  svgOutlineFilter fuel this outlineColor outlineWidth outlineHeight <> TypeError.
Proof.
  unfold svgOutlineFilter. apply if_no_throw; [|discriminate].
  apply bind_no_throw; [|intros [[o m] n]; discriminate].
  apply svgOutlineWalk_no_throw. intros x y [[o m] n]. discriminate.
Qed.

Lemma svgBlurFilter_no_throw (fuel : nat) (this : t) : svgBlurFilter fuel this <> TypeError.
Proof.
  unfold svgBlurFilter. cbv zeta.
  apply bind_no_throw; [|intros [i b]; discriminate].
  apply forLoop_no_throw. intros i b. discriminate.
Qed.

Lemma outlineStage_no_throw (fuel : nat) (this : t) (outlineColor : Color.t)
    (style : CSSStyleDeclaration) :
  RendererSettings.enableSvg (_settings this) = true \/ hasOutline this = false \/
  present (_gaussianBlur this) = true ->
  outlineStage fuel this outlineColor (scaledOutlineWidth this) (scaledOutlineHeight this) style
  <> TypeError.
Proof.
  intros H. unfold outlineStage.
  destruct (RendererSettings.enableSvg (_settings this)) eqn:Hsvg.
  - cbv zeta.
    apply bind_no_throw; [apply svgOutlineFilter_no_throw|]. intros outlineFilter.
    apply bind_no_throw; [apply svgBlurFilter_no_throw|]. intros blurFilter. discriminate.
  - apply bind_no_throw; [|intros style'; discriminate].
    unfold shadowOutline. fold (hasOutline this).
    destruct H as [H|[H|H]]; [discriminate | now rewrite H |].
    apply if_no_throw; [|discriminate].
    apply bind_no_throw; [|intros css; discriminate].
    apply shadowOutlineWalk_no_throw. intros x y a.
    destruct (_gaussianBlur this); try discriminate H. discriminate.
Qed.

Lemma dropShadow_no_throw (this : t) (style : CSSStyleDeclaration) :
  hasDropShadow this = false \/ present (_shadowColor this) = true ->
  dropShadow this style <> TypeError.
Proof.
  intros H. unfold dropShadow. fold (hasDropShadow this).
  destruct (hasDropShadow this); [|discriminate].
  destruct H as [H|H]; [discriminate|].
  destruct (_shadowColor this); try discriminate H. cbn [colorWithAlpha bind].
  now destruct (isEmpty (getProperty "textShadow" style)).
Qed.

Lemma dropShadow_throws (this : t) (style : CSSStyleDeclaration) :
  hasDropShadow this = true -> present (_shadowColor this) = false ->
  dropShadow this style = TypeError.
Proof.
  intros Hshadow Hcolor. unfold dropShadow. fold (hasDropShadow this). rewrite Hshadow.
  now destruct (_shadowColor this).
Qed.

(** X13: [setStylesOnSpan] throws a [TypeError] whenever the primary or the
    outline colour is [null] or [undefined]; it does not return when a drop
    shadow is to be written and the shadow colour is [null] or [undefined];
    and it does not throw when the two colours are there, the shadow colour
    is there or no drop shadow is to be written, and, where the outline is
    written as text shadows, the Gaussian blur is a number. *)
Theorem absent_colour_is_a_type_error :
  forall (fuel : nat) (span : HTMLSpanElement) (animationCollection : AnimationCollection.t)
         (this : t) (dom : Dom),
    (present (_primaryColor this) && present (_outlineColor this) = false ->
       setStylesOnSpan fuel span animationCollection this dom = TypeError)
    /\ (hasDropShadow this = true -> present (_shadowColor this) = false ->
        forall result, setStylesOnSpan fuel span animationCollection this dom <> Ok result)
    /\ (present (_primaryColor this) && present (_outlineColor this) = true ->
        hasDropShadow this = false \/ present (_shadowColor this) = true ->
        RendererSettings.enableSvg (_settings this) = true \/ hasOutline this = false \/
        present (_gaussianBlur this) = true ->
        setStylesOnSpan fuel span animationCollection this dom <> TypeError).
Proof.
  intros fuel span animationCollection this dom. split; [|split].
  - intros H. unfold setStylesOnSpan.
    destruct (_getFontSize (_fontName this)
                (effectivePointSize (firstChildIsText span) this) dom) as [size dom1].
    cbv zeta.
    destruct (_primaryColor this) as [| |primary]; try reflexivity.
    destruct (_outlineColor this) as [| |outline]; try reflexivity.
    discriminate H.
  - intros Hshadow Hcolor [[w this'] dom'] H.
    apply setStylesOnSpan_inversion in H.
    destruct H as (primaryColor & outlineColor & outlineFilter & blurFilter & filterId &
                   style1 & style2 & _ & _ & _ & Hdrop & _).
    rewrite (dropShadow_throws _ _ Hshadow Hcolor) in Hdrop. discriminate.
  - intros Hcolors Hshadow Hblur. apply andb_true_iff in Hcolors.
    destruct Hcolors as [Hprimary Houtline]. unfold setStylesOnSpan.
    destruct (_getFontSize (_fontName this)
                (effectivePointSize (firstChildIsText span) this) dom) as [size dom1].
    cbv zeta.
    destruct (_primaryColor this) as [| |primary]; try discriminate Hprimary.
    destruct (_outlineColor this) as [| |outline]; try discriminate Houtline.
    cbn [colorWithAlpha bind].
    apply bind_no_throw_from; [now apply outlineStage_no_throw|].
    intros [[[[outlineFilter blurFilter] filterId] this1] style1] Hstage.
    apply outlineStage_keeps in Hstage.
    assert (Hsame : dropShadow this1 style1 = dropShadow this style1)
      by (rewrite Hstage; reflexivity).
    destruct (negb (isEmpty outlineFilter) || negb (isEmpty blurFilter)); rewrite Hsame;
      (apply bind_no_throw; [now apply dropShadow_no_throw | intros style2; discriminate]).
Qed.

(** The primary colour set to [undefined]. *)
Lemma absent_colour_is_a_type_error_witness :
  setStylesOnSpan 1 textSpan emptyCollection
    (set_primaryColor undefined (plainStyles true)) emptyPage
  = TypeError.
Proof.
  exact (proj1 (absent_colour_is_a_type_error 1 textSpan emptyCollection
                  (set_primaryColor undefined (plainStyles true)) emptyPage) eq_refl).
Defined.



(** **** Filters *)

Lemma svgOutlineFilter_empty (fuel : nat) (this : t) (outlineColor : Color.t)
    (outlineWidth outlineHeight : number) (outlineFilter : string) :
  svgOutlineFilter fuel this outlineColor outlineWidth outlineHeight = Ok outlineFilter ->
  isEmpty outlineFilter = negb ((0 <? outlineWidth)%float || (0 <? outlineHeight)%float).
Proof.
  unfold svgOutlineFilter.
  destruct ((0 <? outlineWidth)%float || (0 <? outlineHeight)%float); intros H.
  - destruct (svgOutlineWalk fuel svgAddOutline outlineWidth outlineHeight (incrementOf this)
                (EmptyString, EmptyString, 0%N)) as [[[o m] n]| |];
      cbn [bind] in H; try discriminate.
    injection H as <-. rewrite isEmpty_append. apply andb_false_r.
  - now injection H as <-.
Qed.

(** The loop of [svgBlurFilter]: one primitive per number [i], [i + 1],
    ... below the blur strength. *)
Lemma blur_loop (blur : number) (fuel : nat) :
  forall (i : number) (blurFilter : string) (i' : number) (blurFilter' : string),
    forLoop fuel (fun i => (i <? blur)%float) (fun i => (i + 1)%float)
      (fun _ blurFilter => Ok (blurFilter ++ convolveMatrix)) i blurFilter
    = Ok (i', blurFilter') ->
    exists k : nat,
      blurFilter' = blurFilter ++ repeatString k convolveMatrix
      /\ (k < fuel)%nat
      /\ (forall j, (j < k)%nat -> (Nat.iter j (fun i => (i + 1)%float) i <? blur)%float = true)
      /\ (Nat.iter k (fun i => (i + 1)%float) i <? blur)%float = false.
Proof.
  induction fuel as [|fuel IH]; intros i blurFilter i' blurFilter' H; [discriminate|].
  cbn [forLoop] in H. destruct (i <? blur)%float eqn:Hcond.
  - cbn [bind] in H. apply IH in H. destruct H as (k & -> & Hk & Hbelow & Hstop).
    exists (S k). repeat split.
    + cbn [repeatString]. now rewrite !append_assoc.
    + lia.
    + intros [|j] Hj; [exact Hcond|].
      rewrite Nat.iter_succ_r. apply Hbelow. lia.
    + now rewrite Nat.iter_succ_r.
  - injection H as <- <-. exists 0%nat. repeat split.
    + now rewrite append_empty_r.
    + lia.
    + intros j Hj. lia.
    + exact Hcond.
Qed.

(** The text of the Gaussian blur primitive. *)
Lemma svgBlurFilter_shape (fuel : nat) (this : t) (blurFilter : string) :
  svgBlurFilter fuel this = Ok blurFilter ->
  exists k : nat,
    blurFilter
    = (if (0 <? ToNumber (_gaussianBlur this))%float
       then TAB ++ "<feGaussianBlur stdDeviation=" ++
            q (numberInTemplate (_gaussianBlur this)) ++ " />" ++ LF
       else EmptyString) ++ repeatString k convolveMatrix
    /\ (k < fuel)%nat
    /\ (forall j, (j < k)%nat ->
          (Nat.iter j (fun i => (i + 1)%float) 0%float <? ToNumber (_blur this))%float = true)
    /\ (Nat.iter k (fun i => (i + 1)%float) 0%float <? ToNumber (_blur this))%float = false.
Proof.
  unfold svgBlurFilter. cbv zeta. intros H.
  match type of H with
  | bind ?m _ = _ => destruct m as [[i' blurFilter']| |] eqn:Hloop
  end; cbn [bind] in H; try discriminate.
  injection H as <-. apply blur_loop in Hloop.
  destruct Hloop as (k & -> & Hk). exists k. split; [|exact Hk].
  now destruct (0 <? ToNumber (_gaussianBlur this))%float.
Qed.

Lemma svgBlurFilter_empty (fuel : nat) (this : t) (blurFilter : string) :
  svgBlurFilter fuel this = Ok blurFilter ->
  isEmpty blurFilter = negb (hasBlur this).
Proof.
  intros H. apply svgBlurFilter_shape in H.
  destruct H as (k & -> & _ & Hbelow & Hstop). unfold hasBlur.
  rewrite isEmpty_append.
  destruct (0 <? ToNumber (_gaussianBlur this))%float; [reflexivity|].
  cbn [isEmpty andb orb]. destruct k as [|k].
  - change ((0 <? ToNumber (_blur this))%float = false) in Hstop. now rewrite Hstop.
  - assert (H0 : (0 <? ToNumber (_blur this))%float = true) by (apply (Hbelow 0%nat); lia).
    now rewrite H0.
Qed.

(** What the outline stage hands on, with and without SVG filters. *)
Lemma outlineStage_svg (fuel : nat) (this : t) (outlineColor : Color.t)
    (style : CSSStyleDeclaration) (outlineFilter blurFilter filterId : string) (this' : t)
    (style' : CSSStyleDeclaration) :
  RendererSettings.enableSvg (_settings this) = true ->
  outlineStage fuel this outlineColor (scaledOutlineWidth this) (scaledOutlineHeight this) style
  = Ok (outlineFilter, blurFilter, filterId, this', style') ->
  svgOutlineFilter fuel this outlineColor (scaledOutlineWidth this) (scaledOutlineHeight this)
  = Ok outlineFilter
  /\ svgBlurFilter fuel this = Ok blurFilter
  /\ filterId = filterIdOf this
  /\ this' = assign_nextFilterId (_nextFilterId this + 1)%N this
  /\ style' = style.
Proof.
  intros Hsvg H. unfold outlineStage in H. rewrite Hsvg in H. cbv zeta in H.
  change (svgOutlineFilter fuel (assign_nextFilterId (_nextFilterId this + 1)%N this)
            outlineColor (scaledOutlineWidth this) (scaledOutlineHeight this))
    with (svgOutlineFilter fuel this outlineColor (scaledOutlineWidth this)
            (scaledOutlineHeight this)) in H.
  change (svgBlurFilter fuel (assign_nextFilterId (_nextFilterId this + 1)%N this))
    with (svgBlurFilter fuel this) in H.
  destruct (svgOutlineFilter fuel this outlineColor (scaledOutlineWidth this)
              (scaledOutlineHeight this)) as [o| |]; cbn [bind] in H; try discriminate.
  destruct (svgBlurFilter fuel this) as [b| |]; cbn [bind] in H; try discriminate.
  inversion H; subst; clear H. now repeat split.
Qed.

Lemma outlineStage_shadows (fuel : nat) (this : t) (outlineColor : Color.t)
    (style : CSSStyleDeclaration) (outlineFilter blurFilter filterId : string) (this' : t)
    (style' : CSSStyleDeclaration) :
  RendererSettings.enableSvg (_settings this) = false ->
  outlineStage fuel this outlineColor (scaledOutlineWidth this) (scaledOutlineHeight this) style
  = Ok (outlineFilter, blurFilter, filterId, this', style') ->
  shadowOutline fuel this outlineColor (scaledOutlineWidth this) (scaledOutlineHeight this) style
  = Ok style'
  /\ outlineFilter = EmptyString /\ blurFilter = EmptyString /\ this' = this.
Proof.
  intros Hsvg H. unfold outlineStage in H. rewrite Hsvg in H.
  destruct (shadowOutline fuel this outlineColor (scaledOutlineWidth this)
              (scaledOutlineHeight this) style) as [s| |]; cbn [bind] in H; try discriminate.
  inversion H; subst; clear H. now repeat split.
Qed.

Lemma wrapperStyleOf_filter (filtered : bool) (filterId : string) (this : t) :
  getProperty "filter" (wrapperStyleOf filtered filterId this)
  = (if filtered then filterUrl filterId else EmptyString)
  /\ getProperty "webkitFilter" (wrapperStyleOf filtered filterId this)
     = (if filtered then filterUrl filterId else EmptyString).
Proof.
  unfold wrapperStyleOf. cbv zeta.
  destruct (wrapperNeedsDisplay this), filtered; split;
    rewrite ?(getProperty_set_other "filter" "display"),
      ?(getProperty_set_other "webkitFilter" "display"),
      ?(getProperty_set_other "webkitFilter" "filter") by discriminate;
    try apply getProperty_set_same; reflexivity.
Qed.

Lemma setStylesOnSpan_without_svg (fuel : nat) (span : HTMLSpanElement)
    (animationCollection : AnimationCollection.t) (this : t) (dom : Dom)
    (w : FilterWrapperSpan) (this' : t) (dom' : Dom) :
  RendererSettings.enableSvg (_settings this) = false ->
  setStylesOnSpan fuel span animationCollection this dom = Ok (w, this', dom') ->
  this' = this
  /\ _svgDefsElement dom' = _svgDefsElement dom
  /\ getProperty "filter" (wrapperStyle w) = EmptyString
  /\ getProperty "webkitFilter" (wrapperStyle w) = EmptyString.
Proof.
  intros Hsvg H.
  apply setStylesOnSpan_inversion in H.
  destruct H as (primaryColor & outlineColor & outlineFilter & blurFilter & filterId &
                 style1 & style2 & _ & _ & Hstage & _ & _ & Hw & Hdefs & _).
  apply (outlineStage_shadows _ _ _ _ _ _ _ _ _ Hsvg) in Hstage.
  destruct Hstage as (_ & -> & -> & ->). cbn [isEmpty negb orb] in Hw, Hdefs.
  rewrite Hw. destruct (wrapperStyleOf_filter false filterId this) as [Hf Hwf].
  now repeat split.
Qed.

(** X14: without SVG filters a styling makes no filter: nothing is appended to
    the [<defs>] element, the wrapper refers to no filter, and the style
    state, its filter counter included, is as it was. *)
Theorem no_filter_without_svg :
  forall (fuel : nat) (span : HTMLSpanElement) (animationCollection : AnimationCollection.t)
         (this : t) (dom : Dom) (w : FilterWrapperSpan) (this' : t) (dom' : Dom),
    RendererSettings.enableSvg (_settings this) = false ->
    setStylesOnSpan fuel span animationCollection this dom = Ok (w, this', dom') ->
    this' = this
    /\ _svgDefsElement dom' = _svgDefsElement dom
    /\ getProperty "filter" (wrapperStyle w) = EmptyString
    /\ getProperty "webkitFilter" (wrapperStyle w) = EmptyString.
Proof.
  intros fuel span animationCollection this dom w this' dom'.
  apply setStylesOnSpan_without_svg.
Qed.

(** An outline of 1 by 1 and a blur, without SVG filters. *)
Lemma no_filter_without_svg_witness :
  let this :=
    set_blur (val 2%float)
      (set_outlineHeight (val 1%float) (set_outlineWidth (val 1%float) (plainStyles false))) in
  exists w this' dom',
    setStylesOnSpan 4 textSpan emptyCollection this emptyPage = Ok (w, this', dom')
    /\ _svgDefsElement dom' = []
    /\ getProperty "filter" (wrapperStyle w) = EmptyString.
Proof.
  intros this.
  destruct (setStylesOnSpan 4 textSpan emptyCollection this emptyPage)
    as [[[w this'] dom']| |] eqn:Hrun; [|vm_compute in Hrun; discriminate..].
  exists w, this', dom'. split; [reflexivity|].
  destruct (no_filter_without_svg 4 textSpan emptyCollection this emptyPage w this' dom'
              eq_refl Hrun) as (_ & Hdefs & Hfilter & _).
  split; [exact Hdefs | exact Hfilter].
Defined.

Lemma setStylesOnSpan_with_svg (fuel : nat) (span : HTMLSpanElement)
    (animationCollection : AnimationCollection.t) (this : t) (dom : Dom)
    (w : FilterWrapperSpan) (this' : t) (dom' : Dom) :
  RendererSettings.enableSvg (_settings this) = true ->
  setStylesOnSpan fuel span animationCollection this dom = Ok (w, this', dom') ->
  this' = assign_nextFilterId (_nextFilterId this + 1)%N this
  /\ (exists (outlineColor : Color.t) (outlineFilter blurFilter : string),
        colorWithAlpha (_outlineColor this) (_outlineAlpha this) = Ok outlineColor
        /\ svgOutlineFilter fuel this outlineColor (scaledOutlineWidth this)
             (scaledOutlineHeight this) = Ok outlineFilter
        /\ svgBlurFilter fuel this = Ok blurFilter
        /\ _svgDefsElement dom'
           = (if hasOutline this || hasBlur this
              then _svgDefsElement dom ++
                   [filterStringOf (filterIdOf this) outlineFilter blurFilter]
              else _svgDefsElement dom)%list)
  /\ getProperty "filter" (wrapperStyle w)
     = (if hasOutline this || hasBlur this then filterUrl (filterIdOf this) else EmptyString)
  /\ getProperty "webkitFilter" (wrapperStyle w) = getProperty "filter" (wrapperStyle w).
Proof.
  intros Hsvg H.
  apply setStylesOnSpan_inversion in H.
  destruct H as (primaryColor & outlineColor & outlineFilter & blurFilter & filterId &
                 style1 & style2 & _ & Hcolor & Hstage & _ & _ & Hw & Hdefs & _).
  apply (outlineStage_svg _ _ _ _ _ _ _ _ _ Hsvg) in Hstage.
  destruct Hstage as (Houtline & Hblur & -> & -> & _).
  pose proof (svgOutlineFilter_empty _ _ _ _ _ _ Houtline) as Hoe.
  pose proof (svgBlurFilter_empty _ _ _ Hblur) as Hbe.
  fold (hasOutline this) in Hoe.
  rewrite Hoe, Hbe, !negb_involutive in Hw, Hdefs.
  destruct (wrapperStyleOf_filter (hasOutline this || hasBlur this) (filterIdOf this) this)
    as [Hf Hwf].
  rewrite Hw, Hf, Hwf. split; [reflexivity|]. split; [|now split].
  now exists outlineColor, outlineFilter, blurFilter.
Qed.

(** X15: with SVG filters every styling takes the next filter identifier and
    advances the counter by one, whether it makes a filter or not, and
    changes nothing else of the style state.  It makes a filter exactly
    when the scaled outline is positive in one dimension or one of the two
    blurs is positive: then one filter definition with that identifier is
    appended to the [<defs>] element and the wrapper refers to it, with and
    without the vendor prefix; otherwise nothing is appended and the wrapper
    refers to no filter. *)
Theorem svg_filter_when_needed :
  forall (fuel : nat) (span : HTMLSpanElement) (animationCollection : AnimationCollection.t)
         (this : t) (dom : Dom) (w : FilterWrapperSpan) (this' : t) (dom' : Dom),
    RendererSettings.enableSvg (_settings this) = true ->
    setStylesOnSpan fuel span animationCollection this dom = Ok (w, this', dom') ->
    this' = assign_nextFilterId (_nextFilterId this + 1)%N this
    /\ (exists (outlineColor : Color.t) (outlineFilter blurFilter : string),
          colorWithAlpha (_outlineColor this) (_outlineAlpha this) = Ok outlineColor
          /\ svgOutlineFilter fuel this outlineColor (scaledOutlineWidth this)
               (scaledOutlineHeight this) = Ok outlineFilter
          /\ svgBlurFilter fuel this = Ok blurFilter
          /\ _svgDefsElement dom'
             = (if hasOutline this || hasBlur this
                then _svgDefsElement dom ++
                     [filterStringOf (filterIdOf this) outlineFilter blurFilter]
                else _svgDefsElement dom)%list)
    /\ getProperty "filter" (wrapperStyle w)
       = (if hasOutline this || hasBlur this then filterUrl (filterIdOf this) else EmptyString)
    /\ getProperty "webkitFilter" (wrapperStyle w) = getProperty "filter" (wrapperStyle w).
Proof.
  intros fuel span animationCollection this dom w this' dom'.
  apply setStylesOnSpan_with_svg.
Qed.

(** A blur of 1 with SVG filters: the first filter of the style state. *)
Lemma svg_filter_when_needed_witness :
  let this := set_blur (val 1%float) (plainStyles true) in
  exists w this' dom',
    setStylesOnSpan 2 textSpan emptyCollection this emptyPage = Ok (w, this', dom')
    /\ _nextFilterId this' = 1%N
    /\ getProperty "filter" (wrapperStyle w) = "url(" ++ q "#svg-filter-0-0-0" ++ ")".
Proof.
  intros this.
  destruct (setStylesOnSpan 2 textSpan emptyCollection this emptyPage)
    as [[[w this'] dom']| |] eqn:Hrun; [|vm_compute in Hrun; discriminate..].
  exists w, this', dom'. split; [reflexivity|].
  destruct (svg_filter_when_needed 2 textSpan emptyCollection this emptyPage w this' dom'
              eq_refl Hrun) as (Hthis & _ & Hfilter & _).
  split; [now rewrite Hthis | exact Hfilter].
Defined.

(** **** The filters of one style state *)

Lemma append_length (a b : string) :
  String.length (a ++ b) = (String.length a + String.length b)%nat.
Proof. induction a as [|c a IH]; simpl; [reflexivity | now rewrite IH]. Qed.

Lemma append_inj_r (a b s : string) : a ++ s = b ++ s -> a = b.
Proof.
  revert b. induction a as [|c a IH]; intros [|c' b] H; simpl in H.
  - reflexivity.
  - apply (f_equal String.length) in H. simpl in H. rewrite append_length in H. lia.
  - apply (f_equal String.length) in H. simpl in H. rewrite append_length in H. lia.
  - injection H as -> H. now rewrite (IH b H).
Qed.

Lemma filterUrl_inj (a b : string) : filterUrl a = filterUrl b -> a = b.
Proof.
  unfold filterUrl, q. intros H.
  apply (append_inj_l "url(") in H. rewrite !append_assoc in H.
  apply (append_inj_l DQUOTE) in H. apply (append_inj_l "#") in H.
  now apply append_inj_r in H.
Qed.

Lemma filterUrl_not_empty (filterId : string) : isEmpty (filterUrl filterId) = false.
Proof. reflexivity. Qed.

(** The reference to the [k]-th filter of the style state [id]. *)
Lemma numbered_filter_inj (id : string) (k k' : N) :
  filterUrl ("svg-filter-" ++ id ++ "-" ++ decimalOfN k)
  = filterUrl ("svg-filter-" ++ id ++ "-" ++ decimalOfN k') -> k = k'.
Proof.
  intros H. apply filterUrl_inj in H.
  apply (append_inj_l "svg-filter-") in H. apply append_inj_l in H.
  apply (append_inj_l "-") in H. now apply decimalOfN_inj.
Qed.

Lemma applyCall_keeps (call : styleCall) (this : t) :
  _id (applyCall call this) = _id this
  /\ _nextFilterId (applyCall call this) = _nextFilterId this
  /\ _settings (applyCall call this) = _settings this.
Proof. destruct call; repeat split. Qed.

Lemma filtersOf_snoc (wrappers : list FilterWrapperSpan) (w : FilterWrapperSpan) :
  filtersOf (wrappers ++ [w])
  = (filtersOf wrappers ++
     (if isEmpty (getProperty "filter" (wrapperStyle w)) then []
      else [getProperty "filter" (wrapperStyle w)]))%list.
Proof.
  unfold filtersOf. rewrite map_app, filter_app. cbn [map filter].
  now destruct (isEmpty (getProperty "filter" (wrapperStyle w))).
Qed.

Lemma numberedBelow_later (id : string) (first next next' : N) (references : list string) :
  (next <= next')%N -> numberedBelow id first next references ->
  numberedBelow id first next' references.
Proof.
  intros Hle [Hnodup Hall]. split; [exact Hnodup|].
  intros reference Hin. destruct (Hall reference Hin) as (k & Hk & ->).
  exists k. split; [lia | reflexivity].
Qed.

Lemma numberedBelow_snoc (id : string) (first next : N) (references : list string) :
  (first <= next)%N -> numberedBelow id first next references ->
  numberedBelow id first (next + 1)
    (references ++ [filterUrl ("svg-filter-" ++ id ++ "-" ++ decimalOfN next)]).
Proof.
  intros Hle [Hnodup Hall]. split.
  - apply NoDup_app; [exact Hnodup | apply NoDup_cons; [intros [] | apply NoDup_nil] |].
    intros reference Hin [<-|[]].
    destruct (Hall _ Hin) as (k & Hk & E). apply numbered_filter_inj in E. lia.
  - intros reference Hin. apply in_app_or in Hin. destruct Hin as [Hin|[<-|[]]].
    + destruct (Hall reference Hin) as (k & Hk & ->). exists k. split; [lia | reflexivity].
    + exists next. split; [lia | reflexivity].
Qed.

Lemma run_numbers_filters (operations : list operation) :
  forall (this : t) (dom : Dom) (wrappers wrappers' : list FilterWrapperSpan)
         (this' : t) (dom' : Dom) (first : N),
    run operations this dom wrappers = Ok (wrappers', this', dom') ->
    (first <= _nextFilterId this)%N ->
    numberedBelow (_id this) first (_nextFilterId this) (filtersOf wrappers) ->
    _id this' = _id this
    /\ (_nextFilterId this <= _nextFilterId this')%N
    /\ numberedBelow (_id this) first (_nextFilterId this') (filtersOf wrappers').
Proof.
  induction operations as [|[call|fuel span animationCollection] operations IH];
    intros this dom wrappers wrappers' this' dom' first H Hfirst Hinv; cbn [run] in H.
  - injection H as <- <- <-. split; [reflexivity|]. split; [lia | exact Hinv].
  - destruct (applyCall_keeps call this) as (Hid & Hnext & _).
    apply (IH _ _ _ _ _ _ first) in H; rewrite ?Hid, ?Hnext in *; assumption.
  - destruct (setStylesOnSpan fuel span animationCollection this dom)
      as [[[w this1] dom1]| |] eqn:Hstyled; cbn [bind] in H; try discriminate.
    destruct (RendererSettings.enableSvg (_settings this)) eqn:Hsvg.
    + destruct (setStylesOnSpan_with_svg _ _ _ _ _ _ _ _ Hsvg Hstyled)
        as (-> & _ & Hfilter & _).
      apply (IH _ _ _ _ _ _ first) in H;
        cbn [_id _nextFilterId assign_nextFilterId] in *.
      * destruct H as (Hid & Hnext & Hinv'). split; [exact Hid|]. split; [lia | exact Hinv'].
      * lia.
      * rewrite filtersOf_snoc, Hfilter.
        destruct (hasOutline this || hasBlur this).
        -- rewrite filterUrl_not_empty. now apply numberedBelow_snoc.
        -- cbn [isEmpty]. rewrite app_nil_r.
           apply (numberedBelow_later _ _ (_nextFilterId this)); [lia | exact Hinv].
    + destruct (setStylesOnSpan_without_svg _ _ _ _ _ _ _ _ Hsvg Hstyled)
        as (-> & _ & Hfilter & _).
      apply (IH _ _ _ _ _ _ first) in H; try assumption.
      rewrite filtersOf_snoc, Hfilter. cbn [isEmpty]. now rewrite app_nil_r.
Qed.

(** X16: through any sequence of setter calls, resets and stylings on one style
    state, no two of the wrappers returned refer to the same filter: every
    reference is to a filter numbered from the counter the sequence started
    with up to, and not including, the counter it ends with, and no number is
    used twice. *)
Theorem filters_are_not_shared :
  forall (operations : list operation) (this : t) (dom : Dom)
         (wrappers : list FilterWrapperSpan) (this' : t) (dom' : Dom),
    run operations this dom [] = Ok (wrappers, this', dom') ->
    NoDup (filtersOf wrappers)
    /\ _id this' = _id this
    /\ forall reference, In reference (filtersOf wrappers) ->
         exists k : N,
           (_nextFilterId this <= k < _nextFilterId this')%N
           /\ reference = filterUrl ("svg-filter-" ++ _id this ++ "-" ++ decimalOfN k).
Proof.
  intros operations this dom wrappers this' dom' H.
  apply (run_numbers_filters _ _ _ _ _ _ _ (_nextFilterId this)) in H.
  - destruct H as (Hid & _ & Hnodup & Hall). now repeat split.
  - lia.
  - split; [apply NoDup_nil | intros reference []].
Qed.

(** Three stylings, a blur set after the first one: the first makes no
    filter and uses up the number 0. *)
Lemma filters_are_not_shared_witness :
  let operations :=
    [Render 2 textSpan emptyCollection; Call (SetBlur (val 1%float));
     Render 2 textSpan emptyCollection; Render 2 textSpan emptyCollection] in
  exists wrappers this' dom',
    run operations (plainStyles true) emptyPage [] = Ok (wrappers, this', dom')
    /\ filtersOf wrappers
       = ["url(" ++ q "#svg-filter-0-0-1" ++ ")"; "url(" ++ q "#svg-filter-0-0-2" ++ ")"]
    /\ NoDup (filtersOf wrappers).
Proof.
  intros operations.
  destruct (run operations (plainStyles true) emptyPage [])
    as [[[wrappers this'] dom']| |] eqn:Hrun; [|vm_compute in Hrun; discriminate..].
  exists wrappers, this', dom'. split; [reflexivity|].
  destruct (filters_are_not_shared operations (plainStyles true) emptyPage wrappers this' dom'
              Hrun) as (Hnodup & _).
  split; [|exact Hnodup].
  vm_compute in Hrun. injection Hrun as <- _ _. reflexivity.
Defined.


(** **** The text shadow *)

Lemma dropShadow_textShadow (this : t) (style style' : CSSStyleDeclaration) :
  dropShadow this style = Ok style' ->
  getProperty "textShadow" style'
  = shadowsAfter (getProperty "textShadow" style) (dropShadowEntries this).
Proof.
  unfold dropShadow, shadowsAfter, dropShadowEntries. fold (hasDropShadow this).
  destruct (hasDropShadow this).
  - destruct (_shadowColor this) as [| |color]; cbn [colorWithAlpha bind]; try discriminate.
    fold (shadowCssStringOf this (Color.withAlpha (_shadowAlpha this) color)).
    destruct (isEmpty (getProperty "textShadow" style)); intros H; injection H as <-;
      now rewrite getProperty_set_same.
  - intros H. injection H as <-.
    now destruct (getProperty "textShadow" style).
Qed.

Lemma firstWrites_textShadow (span : HTMLSpanElement) (this : t) (size : number)
    (primaryColor : Color.t) :
  getProperty "textShadow" (firstWrites span this size primaryColor)
  = getProperty "textShadow" (style span).
Proof.
  unfold firstWrites.
  rewrite !getProperty_set_other by discriminate.
  rewrite applyTransform_other by (simpl; intuition discriminate).
  now rewrite !getProperty_set_other by discriminate.
Qed.

Lemma final_textShadow (style2 : CSSStyleDeclaration) (animationStyle : string) :
  getProperty "textShadow"
    (setProperty "animation" animationStyle
       (setProperty "webkitAnimation" animationStyle style2))
  = getProperty "textShadow" style2.
Proof. now rewrite !getProperty_set_other by discriminate. Qed.

(** X17: with SVG filters, or without a positive outline, the outline writes no
    text shadow: the span keeps the text shadow it came with, and the drop
    shadow, written when either shadow depth is not the number 0, is put
    after it, behind a comma, or stands alone when the span came with
    none. *)
Theorem text_shadow_without_outline :
  forall (fuel : nat) (span : HTMLSpanElement) (animationCollection : AnimationCollection.t)
         (this : t) (dom : Dom) (w : FilterWrapperSpan) (this' : t) (dom' : Dom),
    RendererSettings.enableSvg (_settings this) = true \/ hasOutline this = false ->
    setStylesOnSpan fuel span animationCollection this dom = Ok (w, this', dom') ->
    getProperty "textShadow" (style (wrapped w))
    = shadowsAfter (getProperty "textShadow" (style span)) (dropShadowEntries this).
Proof.
  intros fuel span animationCollection this dom w this' dom' Hmode H.
  apply setStylesOnSpan_inversion in H.
  destruct H as (primaryColor & outlineColor & outlineFilter & blurFilter & filterId &
                 style1 & style2 & _ & _ & Hstage & Hdrop & Hw & _).
  rewrite Hw. cbn [style]. rewrite final_textShadow, (dropShadow_textShadow _ _ _ Hdrop).
  f_equal. rewrite <- (firstWrites_textShadow span this
    (fst (_getFontSize (_fontName this) (effectivePointSize (firstChildIsText span) this) dom))
    primaryColor).
  f_equal.
  destruct (RendererSettings.enableSvg (_settings this)) eqn:Hsvg.
  - now destruct (outlineStage_svg _ _ _ _ _ _ _ _ _ Hsvg Hstage) as (_ & _ & _ & _ & ->).
  - destruct Hmode as [Hmode|Hmode]; [discriminate|].
    destruct (outlineStage_shadows _ _ _ _ _ _ _ _ _ Hsvg Hstage) as (Hshadow & _).
    unfold shadowOutline in Hshadow. fold (hasOutline this) in Hshadow.
    rewrite Hmode in Hshadow. now injection Hshadow as <-.
Qed.

(** A shadow depth of 2 along X, with SVG filters. *)
Lemma text_shadow_without_outline_witness :
  let this := set_shadowDepthX (val 2%float) (plainStyles true) in
  exists w this' dom',
    setStylesOnSpan 1 textSpan emptyCollection this emptyPage = Ok (w, this', dom')
    /\ getProperty "textShadow" (style (wrapped w))
       = "rgba(255, 255, 255, 1.000) 2.000px 0.000px 0px".
Proof.
  intros this.
  destruct (setStylesOnSpan 1 textSpan emptyCollection this emptyPage)
    as [[[w this'] dom']| |] eqn:Hrun; [|vm_compute in Hrun; discriminate..].
  exists w, this', dom'. split; [reflexivity|].
  exact (text_shadow_without_outline 1 textSpan emptyCollection this emptyPage w this' dom'
           (or_introl eq_refl) Hrun).
Defined.

Lemma shadowAfter_entries (outlineColor : Color.t) (blur : number)
    (steps : list (number * number)) :
  shadowAfter outlineColor blur steps
  = concatStrings (map (fun offsets => ", " ++ shadowText outlineColor blur offsets) steps).
Proof.
  unfold shadowAfter.
  induction steps as [|offsets steps IH] using rev_ind; [reflexivity|].
  rewrite fold_left_app, map_app. cbn [fold_left map].
  rewrite AnimationCollectionSequences.concatStrings_snoc, IH.
  reflexivity.
Qed.

Lemma shadowText_not_empty (outlineColor : Color.t) (blur : number)
    (offsets : number * number) :
  isEmpty (shadowText outlineColor blur offsets) = false.
Proof. reflexivity. Qed.

Lemma substr_entries (outlineColor : Color.t) (blur : number)
    (steps : list (number * number)) :
  substr (String.length ", ")
    (concatStrings (map (fun offsets => ", " ++ shadowText outlineColor blur offsets) steps))
  = joinWith ", " (map (shadowText outlineColor blur) steps).
Proof.
  destruct steps as [|first steps]; [reflexivity|].
  cbn [map concatStrings]. change (String.length ", ") with 2%nat.
  change (substr 2 ((", " ++ shadowText outlineColor blur first) ++
                    concatStrings
                      (map (fun offsets => ", " ++ shadowText outlineColor blur offsets) steps)))
    with (shadowText outlineColor blur first ++
          concatStrings
            (map (fun offsets => ", " ++ shadowText outlineColor blur offsets) steps)).
  revert first. induction steps as [|second steps IH]; intros first.
  - apply append_empty_r.
  - cbn [map concatStrings]. rewrite append_assoc.
    change (joinWith ", " (shadowText outlineColor blur first ::
                           shadowText outlineColor blur second ::
                           map (shadowText outlineColor blur) steps))
      with (shadowText outlineColor blur first ++ ", " ++
            joinWith ", " (shadowText outlineColor blur second ::
                           map (shadowText outlineColor blur) steps)).
    now rewrite <- IH.
Qed.

Lemma joinWith_entries_empty (outlineColor : Color.t) (blur : number)
    (steps : list (number * number)) :
  isEmpty (joinWith ", " (map (shadowText outlineColor blur) steps))
  = match steps with [] => true | _ => false end.
Proof. destruct steps as [|first [|second steps]]; reflexivity. Qed.

Lemma shadowsAfter_entries (outlineColor : Color.t) (blur : number)
    (steps : list (number * number)) (entries : list string) :
  (List.length entries <= 1)%nat ->
  shadowsAfter (joinWith ", " (map (shadowText outlineColor blur) steps)) entries
  = joinWith ", " (map (shadowText outlineColor blur) steps ++ entries).
Proof.
  intros Hlen. unfold shadowsAfter. rewrite joinWith_entries_empty.
  destruct steps as [|first steps]; [reflexivity|].
  destruct entries as [|entry [|entry' entries]]; [| |simpl in Hlen; lia].
  - now rewrite app_nil_r.
  - now rewrite AnimationCollectionSequences.joinWith_snoc by discriminate.
Qed.

Lemma dropShadowEntries_length (this : t) : (List.length (dropShadowEntries this) <= 1)%nat.
Proof.
  unfold dropShadowEntries. destruct (hasDropShadow this); [|simpl; lia].
  destruct (_shadowColor this); simpl; lia.
Qed.

(** The steps behind a text-shadow outline that was written. *)
Lemma shadowOutline_inversion (fuel : nat) (this : t) (outlineColor : Color.t) (blur : number)
    (outlineWidth outlineHeight : number) (style style' : CSSStyleDeclaration) :
  (0 <? outlineWidth)%float || (0 <? outlineHeight)%float = true ->
  _gaussianBlur this = val blur ->
  shadowOutline fuel this outlineColor outlineWidth outlineHeight style = Ok style' ->
  exists steps : list (number * number),
    shadowOutlines fuel outlineWidth outlineHeight = Ok steps
    /\ style'
       = setProperty "textShadow"
           (joinWith ", " (map (shadowText outlineColor blur) steps)) style.
Proof.
  intros Hguard Hblur H.
  pose proof (shadowOutlineWalk_steps fuel outlineColor blur outlineWidth outlineHeight) as Hrel.
  destruct (shadowOutlines fuel outlineWidth outlineHeight) as [steps| |] eqn:Hsteps.
  - exists steps. split; [reflexivity|].
    rewrite (shadowOutline_steps _ _ _ blur _ _ _ steps Hguard Hblur Hsteps) in H.
    injection H as <-. rewrite shadowAfter_entries.
    apply (f_equal (fun textShadow => setProperty "textShadow" textShadow style)).
    exact (substr_entries outlineColor blur steps).
  - exfalso. unfold shadowOutline in H. rewrite Hguard, Hblur in H.
    destruct (shadowOutlineWalk fuel (shadowAddOutline outlineColor (val blur))
                outlineWidth outlineHeight EmptyString); simpl in Hrel; try contradiction.
    discriminate.
  - exfalso. unfold shadowOutline in H. rewrite Hguard, Hblur in H.
    destruct (shadowOutlineWalk fuel (shadowAddOutline outlineColor (val blur))
                outlineWidth outlineHeight EmptyString); simpl in Hrel; try contradiction.
    discriminate.
Qed.

(** X18: without SVG filters and with a positive outline, a call that
    returns has replaced the text shadow the span came with by a
    comma-separated list: one shadow for every offset the outline walk has
    visited, in the order of the walk, each in the outline colour and with
    the Gaussian blur as its radius, and after them the drop shadow when
    there is one. *)
Theorem text_shadow_lists_outline_then_shadow :
  forall (fuel : nat) (span : HTMLSpanElement) (animationCollection : AnimationCollection.t)
         (this : t) (dom : Dom) (w : FilterWrapperSpan) (this' : t) (dom' : Dom)
         (outlineColor : Color.t) (blur : number),
    RendererSettings.enableSvg (_settings this) = false ->
    hasOutline this = true ->
    _outlineColor this = val outlineColor ->
    _gaussianBlur this = val blur ->
    setStylesOnSpan fuel span animationCollection this dom = Ok (w, this', dom') ->
    exists steps : list (number * number),
      shadowOutlines fuel (scaledOutlineWidth this) (scaledOutlineHeight this) = Ok steps
      /\ getProperty "textShadow" (style (wrapped w))
         = joinWith ", "
             (map (shadowText (Color.withAlpha (_outlineAlpha this) outlineColor) blur) steps ++
              dropShadowEntries this).
Proof.
  intros fuel span animationCollection this dom w this' dom' outlineColor blur
    Hsvg Houtline Hcolor Hblur H.
  apply setStylesOnSpan_inversion in H.
  destruct H as (primaryColor & outlineColor' & outlineFilter & blurFilter & filterId &
                 style1 & style2 & _ & Hcolor' & Hstage & Hdrop & Hw & _).
  rewrite Hcolor in Hcolor'. cbn [colorWithAlpha] in Hcolor'. injection Hcolor' as <-.
  destruct (outlineStage_shadows _ _ _ _ _ _ _ _ _ Hsvg Hstage) as (Hshadow & _).
  apply (shadowOutline_inversion _ _ _ blur) in Hshadow; [|exact Houtline | exact Hblur].
  destruct Hshadow as (steps & Hsteps & ->).
  exists steps. split; [exact Hsteps|].
  rewrite Hw. cbn [style]. rewrite final_textShadow, (dropShadow_textShadow _ _ _ Hdrop).
  rewrite getProperty_set_same.
  apply shadowsAfter_entries, dropShadowEntries_length.
Qed.

(** An outline of height 1 and a shadow depth of 2 along Y, without SVG
    filters: three outline shadows, then the drop shadow. *)
Lemma text_shadow_lists_outline_then_shadow_witness :
  let this :=
    set_shadowDepthY (val 2%float) (set_outlineHeight (val 1%float) (plainStyles false)) in
  exists w this' dom',
    setStylesOnSpan 3 textSpan emptyCollection this emptyPage = Ok (w, this', dom')
    /\ getProperty "textShadow" (style (wrapped w))
       = "rgba(255, 255, 255, 1.000) 0px 0px 0.000px, " ++
         "rgba(255, 255, 255, 1.000) 0px 1px 0.000px, " ++
         "rgba(255, 255, 255, 1.000) 0px -1px 0.000px, " ++
         "rgba(255, 255, 255, 1.000) 0.000px 2.000px 0px".
Proof.
  intros this.
  destruct (setStylesOnSpan 3 textSpan emptyCollection this emptyPage)
    as [[[w this'] dom']| |] eqn:Hrun; [|vm_compute in Hrun; discriminate..].
  exists w, this', dom'. split; [reflexivity|].
  destruct (text_shadow_lists_outline_then_shadow 3 textSpan emptyCollection this emptyPage
              w this' dom' white 0%float eq_refl eq_refl eq_refl eq_refl Hrun)
    as (steps & Hsteps & ->).
  vm_compute in Hsteps. injection Hsteps as <-. reflexivity.
Defined.


(** **** The primitives of a filter *)

(** X19: the blur primitives, when the loop that writes them ends, are at
    most one Gaussian blur, present when the Gaussian blur strength is
    positive, followed by box blurs only: one [feConvolveMatrix] for each of
    the numbers 0, 1, 2, ... that is below the blur strength, so none when
    the strength is not positive ([null], [undefined] and NaN included). *)
Theorem blur_filter_primitives :
  forall (fuel : nat) (this : t) (blurFilter : string),
    svgBlurFilter fuel this = Ok blurFilter ->
    exists k : nat,
      blurFilter
      = (if (0 <? ToNumber (_gaussianBlur this))%float
         then TAB ++ "<feGaussianBlur stdDeviation=" ++
              q (numberInTemplate (_gaussianBlur this)) ++ " />" ++ LF
         else EmptyString) ++ repeatString k convolveMatrix
      /\ (k < fuel)%nat
      /\ (forall j, (j < k)%nat ->
            (Nat.iter j (fun i => (i + 1)%float) 0%float <? ToNumber (_blur this))%float = true)
      /\ (Nat.iter k (fun i => (i + 1)%float) 0%float <? ToNumber (_blur this))%float = false.
Proof.
  intros fuel this blurFilter. apply svgBlurFilter_shape.
Qed.

(** A blur strength of 2.5: three box blurs. *)
Lemma blur_filter_primitives_witness :
  let this := set_blur (val 2.5%float) (plainStyles true) in
  svgBlurFilter 4 this = Ok (repeatString 3 convolveMatrix)
  /\ exists k : nat,
       repeatString 3 convolveMatrix = repeatString k convolveMatrix /\ (k < 4)%nat.
Proof.
  intros this. split; [reflexivity|].
  destruct (blur_filter_primitives 4 this (repeatString 3 convolveMatrix) eq_refl)
    as (k & Hk & Hfuel & _).
  exists k. split; [exact Hk | exact Hfuel].
Defined.

Lemma svgAfter_from (steps : list (number * number)) :
  forall (outlineFilter mergeOutlinesFilter : string) (outlineNumber : N),
    fold_left
      (fun (acc : string * string * N) (radii : number * number) =>
         let '(outlineFilter, mergeOutlinesFilter, outlineNumber) := acc in
         (outlineFilter ++ feMorphology (fst radii) (snd radii) outlineNumber,
          mergeOutlinesFilter ++ feMergeNode outlineNumber,
          (outlineNumber + 1)%N))
      steps (outlineFilter, mergeOutlinesFilter, outlineNumber)
    = (outlineFilter ++ dilations outlineNumber steps,
       mergeOutlinesFilter ++ mergeInputs outlineNumber steps,
       (outlineNumber + N.of_nat (List.length steps))%N).
Proof.
  induction steps as [|[x y] steps IH]; intros o m n.
  - cbn [fold_left dilations mergeInputs List.length]. now rewrite !append_empty_r, N.add_0_r.
  - cbn [fold_left dilations mergeInputs List.length fst snd]. rewrite IH, !append_assoc.
    f_equal. lia.
Qed.

Lemma svgAfter_numbered (steps : list (number * number)) :
  svgAfter steps = (dilations 0 steps, mergeInputs 0 steps, N.of_nat (List.length steps)).
Proof. unfold svgAfter. now rewrite svgAfter_from. Qed.

(** A loop whose body records one step per iteration. *)
Lemma forLoop_appends {B} (cond : number -> bool) (next : number -> number)
    (body : number -> list B -> outcome (list B)) :
  (forall i a, exists p, body i a = Ok (a ++ [p])%list) ->
  forall (fuel : nat) (i : number) (a : list B) (i' : number) (a' : list B),
    forLoop fuel cond next body i a = Ok (i', a') ->
    exists l, a' = (a ++ l)%list /\ (cond i = true -> l <> []).
Proof.
  intros Hbody. induction fuel as [|fuel IH]; intros i a i' a' H; [discriminate|].
  cbn [forLoop] in H. destruct (cond i).
  - destruct (Hbody i a) as [p Hp]. rewrite Hp in H. cbn [bind] in H.
    apply IH in H. destruct H as (l & -> & _).
    exists (p :: l). split; [now rewrite <- app_assoc | discriminate].
  - injection H as <- <-. exists []. split; [now rewrite app_nil_r | discriminate].
Qed.

Lemma svgOutlines_not_empty (fuel : nat) (outlineWidth outlineHeight increment : number)
    (steps : list (number * number)) :
  svgOutlines fuel outlineWidth outlineHeight increment = Ok steps -> steps <> [].
Proof.
  unfold svgOutlines, svgOutlineWalk, recordOutline.
  destruct (outlineWidth <=? outlineHeight)%float.
  - destruct (0 <? outlineWidth)%float eqn:Hpos; [|intros H; injection H as <-; discriminate].
    match goal with
    | |- bind ?m _ = _ -> _ => destruct m as [[x acc]| |] eqn:Hloop
    end; cbn [bind]; try discriminate.
    apply forLoop_appends in Hloop; [|intros i a; eexists; reflexivity].
    destruct Hloop as (l & -> & Hl). specialize (Hl (ltb_leb _ _ Hpos)).
    destruct (negb (x =? outlineWidth + increment)%float); intros H; injection H as <-.
    + now destruct l.
    + now destruct l.
  - destruct (0 <? outlineHeight)%float eqn:Hpos; [|intros H; injection H as <-; discriminate].
    match goal with
    | |- bind ?m _ = _ -> _ => destruct m as [[y acc]| |] eqn:Hloop
    end; cbn [bind]; try discriminate.
    apply forLoop_appends in Hloop; [|intros i a; eexists; reflexivity].
    destruct Hloop as (l & -> & Hl). specialize (Hl (ltb_leb _ _ Hpos)).
    destruct (negb (y =? outlineHeight + increment)%float); intros H; injection H as <-.
    + now destruct l.
    + now destruct l.
Qed.

Lemma svgOutlineFilter_inversion (fuel : nat) (this : t) (outlineColor : Color.t)
    (outlineWidth outlineHeight : number) (outlineFilter : string) :
  (0 <? outlineWidth)%float || (0 <? outlineHeight)%float = true ->
  svgOutlineFilter fuel this outlineColor outlineWidth outlineHeight = Ok outlineFilter ->
  exists steps : list (number * number),
    svgOutlines fuel outlineWidth outlineHeight (incrementOf this) = Ok steps
    /\ outlineFilter = dilations 0 steps ++ mergeOutlines (mergeInputs 0 steps) outlineColor.
Proof.
  intros Hguard H.
  pose proof (svgOutlineWalk_steps fuel outlineWidth outlineHeight (incrementOf this)) as Hrel.
  destruct (svgOutlines fuel outlineWidth outlineHeight (incrementOf this))
    as [steps| |] eqn:Hsteps.
  - exists steps. split; [reflexivity|].
    rewrite (svgOutlineFilter_steps _ _ _ _ _ steps Hguard Hsteps) in H.
    injection H as <-. now rewrite svgAfter_numbered.
  - exfalso. unfold svgOutlineFilter in H. rewrite Hguard in H.
    destruct (svgOutlineWalk fuel svgAddOutline outlineWidth outlineHeight (incrementOf this)
                (EmptyString, EmptyString, 0%N)); simpl in Hrel; try contradiction.
    discriminate.
  - exfalso. unfold svgOutlineFilter in H. rewrite Hguard in H.
    destruct (svgOutlineWalk fuel svgAddOutline outlineWidth outlineHeight (incrementOf this)
                (EmptyString, EmptyString, 0%N)); simpl in Hrel; try contradiction.
    discriminate.
Qed.

(** X20: the outline primitives of a positive outline, when the walk
    returns, are one dilation for every pair of radii the walk has emitted,
    and there is at least one, with the results named [outline0],
    [outline1], ... in the order of the walk, then one merge with one input
    per dilation, naming the same results in the same order, flooded with
    the outline colour. *)
Theorem outline_filter_numbers_dilations :
  forall (fuel : nat) (this : t) (outlineColor : Color.t)
         (outlineWidth outlineHeight : number) (outlineFilter : string),
    (0 <? outlineWidth)%float || (0 <? outlineHeight)%float = true ->
    svgOutlineFilter fuel this outlineColor outlineWidth outlineHeight = Ok outlineFilter ->
    exists steps : list (number * number),
      svgOutlines fuel outlineWidth outlineHeight (incrementOf this) = Ok steps
      /\ steps <> []
      /\ outlineFilter = dilations 0 steps ++ mergeOutlines (mergeInputs 0 steps) outlineColor.
Proof.
  intros fuel this outlineColor outlineWidth outlineHeight outlineFilter Hguard H.
  destruct (svgOutlineFilter_inversion _ _ _ _ _ _ Hguard H) as (steps & Hsteps & ->).
  exists steps. split; [exact Hsteps|]. split; [|reflexivity].
  now apply svgOutlines_not_empty in Hsteps.
Qed.

(** An outline of 1 by 2: two dilations, at (0, 2) and (1, 0). *)
Lemma outline_filter_numbers_dilations_witness :
  exists outlineFilter : string,
    svgOutlineFilter 3 (plainStyles true) white 1%float 2%float = Ok outlineFilter
    /\ outlineFilter
       = dilations 0 [(0, 2); (1, 0)]%float ++
         mergeOutlines (mergeInputs 0 [(0, 2); (1, 0)]%float) white.
Proof.
  destruct (svgOutlineFilter 3 (plainStyles true) white 1%float 2%float)
    as [outlineFilter| |] eqn:H; [|vm_compute in H; discriminate..].
  exists outlineFilter. split; [reflexivity|].
  destruct (outline_filter_numbers_dilations 3 (plainStyles true) white 1%float 2%float
              outlineFilter eq_refl H) as (steps & Hsteps & _ & ->).
  vm_compute in Hsteps. injection Hsteps as <-. reflexivity.
Defined.

(** **** Spans that are always styled *)

(** X21: a span without a positive outline and without a positive box blur is
    always styled: when the primary and the outline colour are there, and
    the shadow colour too if a drop shadow is to be written, [setStylesOnSpan]
    returns without a single iteration of its loops. *)
Theorem plain_span_is_styled :
  forall (fuel : nat) (span : HTMLSpanElement) (animationCollection : AnimationCollection.t)
         (this : t) (dom : Dom),
    present (_primaryColor this) && present (_outlineColor this) = true ->
    hasOutline this = false ->
    (0 <? ToNumber (_blur this))%float = false ->
    hasDropShadow this = false \/ present (_shadowColor this) = true ->
    exists w this' dom',
      setStylesOnSpan (S fuel) span animationCollection this dom = Ok (w, this', dom').
Proof.
  intros fuel span animationCollection this dom Hcolors Houtline Hblur Hshadow.
  apply andb_true_iff in Hcolors. destruct Hcolors as [Hprimary Houtlined].
  unfold setStylesOnSpan.
  destruct (_getFontSize (_fontName this)
              (effectivePointSize (firstChildIsText span) this) dom) as [size dom1].
  cbv zeta.
  destruct (_primaryColor this) as [| |primary]; try discriminate Hprimary.
  destruct (_outlineColor this) as [| |outline]; try discriminate Houtlined.
  cbn [colorWithAlpha bind].
  fold (scaledOutlineWidth this) (scaledOutlineHeight this).
  assert (Hstage : exists outlineFilter blurFilter filterId this1 style1,
            forall style,
              outlineStage (S fuel) this (Color.withAlpha (_outlineAlpha this) outline)
                (scaledOutlineWidth this) (scaledOutlineHeight this) style
              = Ok (outlineFilter, blurFilter, filterId, this1, style1 style)
              /\ forall style', dropShadow this1 style' = dropShadow this style').
  { unfold outlineStage, svgOutlineFilter, svgBlurFilter, shadowOutline.
    fold (hasOutline this). rewrite Houtline.
    destruct (RendererSettings.enableSvg (_settings this)).
    - cbv zeta. cbn [bind forLoop _blur assign_nextFilterId]. rewrite Hblur.
      cbn [bind]. do 5 eexists. intros style. split; reflexivity.
    - cbn [bind]. do 5 eexists. intros style. split; reflexivity. }
  destruct Hstage as (outlineFilter & blurFilter & filterId & this1 & style1 & Hstage).
  match goal with
  | |- exists _ _ _, bind (outlineStage _ _ _ _ _ ?style) _ = _ =>
      destruct (Hstage style) as [-> Hdrop]
  end.
  cbn [bind].
  assert (Hok : forall style, exists style', dropShadow this style = Ok style').
  { intros style. unfold dropShadow. fold (hasDropShadow this).
    destruct (hasDropShadow this); [|now eexists].
    destruct Hshadow as [Hshadow|Hshadow]; [discriminate|].
    destruct (_shadowColor this); try discriminate Hshadow. cbn [colorWithAlpha bind].
    destruct (isEmpty (getProperty "textShadow" style)); now eexists. }
  match goal with
  | |- context [dropShadow this1 ?style] =>
      rewrite (Hdrop style); destruct (Hok style) as [style2 ->]
  end.
  destruct (negb (isEmpty outlineFilter) || negb (isEmpty blurFilter));
    cbn [bind]; now do 3 eexists.
Qed.

(** A span of a fresh style state, without SVG filters. *)
Lemma plain_span_is_styled_witness :
  exists w this' dom',
    setStylesOnSpan 1 textSpan emptyCollection (plainStyles false) emptyPage
    = Ok (w, this', dom').
Proof.
  apply (plain_span_is_styled 0 textSpan emptyCollection (plainStyles false) emptyPage);
    [reflexivity | reflexivity | reflexivity | left; reflexivity].
Defined.

(** **** An outline of negative width *)

Lemma below_zero_below_positive (w h : number) :
  (w <? 0)%float = true -> (0 <? h)%float = true -> (w <=? h)%float = true.
Proof.
  rewrite !ltb_spec, leb_spec, Prim2SF_zero. unfold SFltb, SFleb.
  destruct (Prim2SF w) as [[|]|[|]| |[|] mw ew], (Prim2SF h) as [[|]|[|]| |[|] mh eh];
    simpl; congruence.
Qed.

(** X22: for a negative scaled width and a positive scaled height the two
    branches differ: the SVG walk emits the one pair of radii (0, height),
    the text-shadow walk visits no offset at all, so that the text shadow is
    set to the empty text. *)
Theorem outline_of_negative_width :
  forall (fuel : nat) (this : t) (outlineColor : Color.t) (blur : number)
         (outlineWidth outlineHeight increment : number) (style : CSSStyleDeclaration),
    (outlineWidth <? 0)%float = true ->
    (0 <? outlineHeight)%float = true ->
    svgOutlines fuel outlineWidth outlineHeight increment = Ok [(0%float, outlineHeight)]
    /\ shadowOutlines (S fuel) outlineWidth outlineHeight = Ok []
    /\ (_gaussianBlur this = val blur ->
        shadowOutline (S fuel) this outlineColor outlineWidth outlineHeight style
        = Ok (setProperty "textShadow" EmptyString style)).
Proof.
  intros fuel this outlineColor blur outlineWidth outlineHeight increment style Hw Hh.
  pose proof (ltb_not_leb _ _ Hw) as Hnot.
  assert (Hpos : (0 <? outlineWidth)%float = false).
  { destruct (0 <? outlineWidth)%float eqn:E; [|reflexivity].
    apply ltb_leb in E. congruence. }
  assert (Hshadows : shadowOutlines (S fuel) outlineWidth outlineHeight = Ok []).
  { unfold shadowOutlines, shadowOutlineWalk. cbn [forLoop]. now rewrite Hnot. }
  split; [|split].
  - unfold svgOutlines, svgOutlineWalk.
    now rewrite (below_zero_below_positive _ _ Hw Hh), Hpos.
  - exact Hshadows.
  - intros Hblur.
    assert (Hguard : (0 <? outlineWidth)%float || (0 <? outlineHeight)%float = true)
      by (rewrite Hh; apply orb_true_r).
    rewrite (shadowOutline_steps _ _ _ blur _ _ _ [] Hguard Hblur Hshadows).
    reflexivity.
Qed.

(** A width of -1 and a height of 2. *)
Lemma outline_of_negative_width_witness :
  svgOutlines 0 (-1)%float 2%float 1%float = Ok [(0%float, 2%float)]
  /\ shadowOutlines 1 (-1)%float 2%float = Ok [].
Proof.
  destruct (outline_of_negative_width 0 (plainStyles false) white 0%float (-1)%float 2%float
              1%float [] eq_refl eq_refl) as (Hsvg & Hshadow & _).
  split; [exact Hsvg | exact Hshadow].
Defined.


(** **** The offsets and radii of an outline *)

(** A loop whose body records a block of steps per iteration. *)
Lemma forLoop_blocks {B} (cond : number -> bool) (next : number -> number)
    (body : number -> list B -> outcome (list B)) (P : number -> list B -> Prop) :
  (forall i a a', body i a = Ok a' -> exists l, a' = (a ++ l)%list /\ P i l) ->
  forall (fuel : nat) (i : number) (a : list B) (i' : number) (a' : list B),
    forLoop fuel cond next body i a = Ok (i', a') ->
    exists (n : nat) (blocks : list (number * list B)),
      a' = (a ++ List.concat (map snd blocks))%list
      /\ map fst blocks = map (fun k => Nat.iter k next i) (seq 0 n)
      /\ Forall (fun block => cond (fst block) = true /\ P (fst block) (snd block)) blocks
      /\ cond (Nat.iter n next i) = false.
Proof.
  intros Hbody. induction fuel as [|fuel IH]; intros i a i' a' H; [discriminate|].
  cbn [forLoop] in H. destruct (cond i) eqn:Hcond.
  - destruct (body i a) as [a1| |] eqn:Hb; cbn [bind] in H; try discriminate.
    destruct (Hbody _ _ _ Hb) as (l & -> & Hl).
    apply IH in H. destruct H as (n & blocks & -> & Hfst & Hall & Hstop).
    exists (S n), ((i, l) :: blocks). cbn [map snd fst List.concat seq].
    split; [|split; [|split]].
    + now rewrite <- app_assoc.
    + rewrite Hfst, <- seq_shift, map_map. f_equal. apply map_ext. intros k.
      now rewrite Nat.iter_succ_r.
    + constructor; [now split | exact Hall].
    + now rewrite Nat.iter_succ_r.
  - injection H as <- <-. exists 0%nat, []. cbn [map List.concat seq].
    split; [now rewrite app_nil_r|]. split; [reflexivity|]. split; [constructor | exact Hcond].
Qed.

Lemma shadow_body (x y : number) (acc : list (number * number)) :
  (acc <- recordOutline x y acc ;;
   acc <- (if negb (x =? 0)%float then recordOutline (- x)%float y acc else Ok acc) ;;
   acc <- (if negb (y =? 0)%float then recordOutline x (- y)%float acc else Ok acc) ;;
   if negb (x =? 0)%float && negb (y =? 0)%float
   then recordOutline (- x)%float (- y)%float acc
   else Ok acc)
  = Ok (acc ++ mirrorsOf (x, y))%list.
Proof.
  unfold recordOutline, mirrorsOf.
  destruct (x =? 0)%float, (y =? 0)%float; cbn [negb andb orb bind app];
    now rewrite <- ?app_assoc.
Qed.

Lemma concat_blocks {B} (f : number -> list B) (blocks : list (number * list B)) :
  Forall (fun block => snd block = f (fst block)) blocks ->
  List.concat (map snd blocks) = flat_map f (map fst blocks).
Proof.
  induction 1 as [|[i l] blocks Hb _ IH]; [reflexivity|].
  cbn [map snd fst List.concat flat_map] in *. now rewrite Hb, IH.
Qed.

Lemma countsUpTo_intro (increment bound : number) (blocks : list (number * list (number * number)))
    (n : nat) (P : number -> list (number * number) -> Prop) :
  map fst blocks = map (fun k => Nat.iter k (fun x => (x + increment)%float) 0%float) (seq 0 n) ->
  Forall (fun block => (fst block <=? bound)%float = true /\ P (fst block) (snd block)) blocks ->
  (Nat.iter n (fun x => (x + increment)%float) 0%float <=? bound)%float = false ->
  countsUpTo increment bound n.
Proof.
  intros Hfst Hall Hstop. split; [|exact Hstop].
  unfold walkPoints. rewrite <- Hfst. apply Forall_map.
  apply (Forall_impl _ (P := fun block =>
           (fst block <=? bound)%float = true /\ P (fst block) (snd block)));
    [now intros ? [? _] | exact Hall].
Qed.

(** The inner loop of the text-shadow walk. *)
Lemma shadow_column (outlineWidth outlineHeight x : number) (fuel : nat)
    (acc acc' : list (number * number)) (y' : number) :
  forLoop fuel (fun y => (y <=? maxYOf outlineWidth outlineHeight x)%float)
    (fun y => (y + 1)%float)
    (fun y acc =>
       acc <- recordOutline x y acc ;;
       acc <- (if negb (x =? 0)%float then recordOutline (- x)%float y acc else Ok acc) ;;
       acc <- (if negb (y =? 0)%float then recordOutline x (- y)%float acc else Ok acc) ;;
       if negb (x =? 0)%float && negb (y =? 0)%float
       then recordOutline (- x)%float (- y)%float acc
       else Ok acc)
    0%float acc
  = Ok (y', acc') ->
  exists m : nat,
    acc' = (acc ++ columnAt x m)%list
    /\ countsUpTo 1%float (maxYOf outlineWidth outlineHeight x) m.
Proof.
  intros H.
  apply (forLoop_blocks _ _ _ (fun y l => l = mirrorsOf (x, y))) in H.
  - destruct H as (m & blocks & -> & Hfst & Hall & Hstop). exists m.
    change (map fst blocks = walkPoints m 1%float) in Hfst. split.
    + f_equal. unfold columnAt. rewrite <- Hfst.
      apply (concat_blocks (fun y => mirrorsOf (x, y))).
      apply (Forall_impl _ (P := fun block =>
               (fst block <=? maxYOf outlineWidth outlineHeight x)%float = true
               /\ snd block = mirrorsOf (x, fst block)));
        [now intros ? [_ ?] | exact Hall].
    + exact (countsUpTo_intro _ _ _ _ (fun y l => l = mirrorsOf (x, y)) Hfst Hall Hstop).
  - intros y a0 a1 Hb. rewrite shadow_body in Hb. injection Hb as <-.
    now exists (mirrorsOf (x, y)).
Qed.

(** X23: the offsets of a text-shadow outline whose walk returns are those of
    the grid points of the first quadrant within the ellipse, each with its
    mirror images in the other quadrants (an offset on an axis is not
    repeated): the walk has gone through the horizontal offsets 0, 1, 2, ...
    not above the width and, at each of them, through the vertical offsets
    0, 1, 2, ... not above what the ellipse allows there. *)
Theorem shadow_offsets_fill_the_ellipse :
  forall (fuel : nat) (outlineWidth outlineHeight : number) (steps : list (number * number)),
    shadowOutlines fuel outlineWidth outlineHeight = Ok steps ->
    exists (n : nat) (columns : list (number * nat)),
      map fst columns = walkPoints n 1%float
      /\ countsUpTo 1%float outlineWidth n
      /\ steps = flat_map (fun column => columnAt (fst column) (snd column)) columns
      /\ Forall
           (fun column =>
              countsUpTo 1%float (maxYOf outlineWidth outlineHeight (fst column)) (snd column))
           columns.
Proof.
  intros fuel outlineWidth outlineHeight steps H.
  unfold shadowOutlines, shadowOutlineWalk in H.
  match type of H with
  | bind ?m _ = _ => destruct m as [[x acc]| |] eqn:Houter
  end; cbn [bind] in H; try discriminate.
  injection H as <-.
  apply (forLoop_blocks _ _ _
           (fun x l =>
              exists m : nat,
                l = columnAt x m
                /\ countsUpTo 1%float (maxYOf outlineWidth outlineHeight x) m)) in Houter.
  - destruct Houter as (n & blocks & -> & Hfst & Hall & Hstop). cbn [app].
    change (map fst blocks = walkPoints n 1%float) in Hfst.
    exists n.
    assert (Hcolumns : exists columns : list (number * nat),
              map fst columns = map fst blocks
              /\ List.concat (map snd blocks)
                 = flat_map (fun column => columnAt (fst column) (snd column)) columns
              /\ Forall
                   (fun column =>
                      countsUpTo 1%float (maxYOf outlineWidth outlineHeight (fst column))
                        (snd column))
                   columns).
    { clear Hfst Hstop x. induction blocks as [|[x l] blocks IH].
      - exists []. repeat split. constructor.
      - inversion Hall as [|? ? [Hx (m & Hl & Hm)] Hrest]; subst.
        destruct (IH Hrest) as (columns & Hf & Hc & Hb).
        exists ((x, m) :: columns). cbn [map fst snd List.concat flat_map] in *.
        split; [now rewrite Hf|]. split; [now rewrite Hl, Hc|].
        constructor; [exact Hm | exact Hb]. }
    destruct Hcolumns as (columns & Hf & Hc & Hb).
    exists columns. split; [now rewrite Hf, Hfst|]. split; [|split].
    + exact (countsUpTo_intro _ _ _ _
               (fun x l =>
                  exists m : nat,
                    l = columnAt x m
                    /\ countsUpTo 1%float (maxYOf outlineWidth outlineHeight x) m)
               Hfst Hall Hstop).
    + exact Hc.
    + exact Hb.
  - intros i a a' Hinner.
    match type of Hinner with
    | bind ?m _ = _ => destruct m as [[y acc']| |] eqn:Hloop
    end; cbn [bind] in Hinner; try discriminate.
    injection Hinner as <-.
    apply shadow_column in Hloop. destruct Hloop as (m & -> & Hm).
    exists (columnAt i m). split; [reflexivity|]. now exists m.
Qed.

(** An outline of 1 by 1: five offsets, in two columns. *)
Lemma shadow_offsets_fill_the_ellipse_witness :
  shadowOutlines 4 1%float 1%float
  = Ok [(0, 0); (0, 1); (0, -1); (1, 0); (-1, 0)]%float
  /\ exists columns : list (number * nat),
       [(0, 0); (0, 1); (0, -1); (1, 0); (-1, 0)]%float
       = flat_map (fun column => columnAt (fst column) (snd column)) columns.
Proof.
  split; [reflexivity|].
  destruct (shadow_offsets_fill_the_ellipse 4 1%float 1%float
              [(0, 0); (0, 1); (0, -1); (1, 0); (-1, 0)]%float eq_refl)
    as (n & columns & _ & _ & Hsteps & _).
  now exists columns.
Defined.

(** A loop whose body records one step per iteration: the steps are those
    of the successive values of the loop variable. *)
Lemma forLoop_records {B} (cond : number -> bool) (next : number -> number) (g : number -> B) :
  forall (fuel : nat) (i : number) (a : list B) (i' : number) (a' : list B),
    forLoop fuel cond next (fun i a => Ok (a ++ [g i])%list) i a = Ok (i', a') ->
    exists n : nat,
      (n < fuel)%nat
      /\ a' = (a ++ map (fun k => g (Nat.iter k next i)) (seq 0 n))%list
      /\ i' = Nat.iter n next i
      /\ (forall k, (k < n)%nat -> cond (Nat.iter k next i) = true)
      /\ cond i' = false.
Proof.
  induction fuel as [|fuel IH]; intros i a i' a' H; [discriminate|].
  cbn [forLoop] in H. destruct (cond i) eqn:Hcond.
  - cbn [bind] in H. apply IH in H. destruct H as (n & Hn & -> & -> & Hbelow & Hstop).
    exists (S n). split; [lia|]. split; [|split; [|split]].
    + cbn [seq map]. rewrite <- app_assoc. cbn [app]. do 2 f_equal.
      rewrite <- seq_shift, map_map. apply map_ext. intros k.
      now rewrite Nat.iter_succ_r.
    + now rewrite Nat.iter_succ_r.
    + intros [|k] Hk; [exact Hcond|]. rewrite Nat.iter_succ_r. apply Hbelow. lia.
    + exact Hstop.
  - injection H as <- <-. exists 0%nat. cbn [seq map]. split; [lia|].
    split; [now rewrite app_nil_r|]. split; [reflexivity|].
    split; [intros k Hk; lia | exact Hcond].
Qed.

Lemma walkPoints_below (n : nat) (increment bound : number) :
  (forall k, (k < n)%nat ->
     (Nat.iter k (fun x => (x + increment)%float) 0%float <=? bound)%float = true) ->
  Forall (fun x => (x <=? bound)%float = true) (walkPoints n increment).
Proof.
  intros H. unfold walkPoints. apply Forall_map, Forall_forall.
  intros k Hk. apply in_seq in Hk. apply H. lia.
Qed.

(** X24: the radii of an SVG outline whose walk returns lie on the quarter of
    the ellipse: with the width not above the height and positive, they are
    taken at the horizontal radii 0, increment, 2 increments, ... as long as
    these do not exceed the width, at least at 0, each with the vertical radius
    [height / width * sqrt (width^2 - x^2)], and the pair (width, 0) closes
    the walk unless the loop variable stopped at exactly width + increment;
    with the width above the height the walk goes along the vertical axis in
    the same way and closes with (0, height); a dimension that is not
    positive gives the one pair on the other axis. *)
Theorem svg_radii_lie_on_the_ellipse :
  forall (fuel : nat) (outlineWidth outlineHeight increment : number)
         (steps : list (number * number)),
    svgOutlines fuel outlineWidth outlineHeight increment = Ok steps ->
    let stopped := fun n : nat => Nat.iter n (fun x => (x + increment)%float) 0%float in
    if (outlineWidth <=? outlineHeight)%float then
      if (0 <? outlineWidth)%float then
        exists n : nat,
          (1 <= n < fuel)%nat
          /\ steps
             = (map (radiiAtX outlineWidth outlineHeight) (walkPoints n increment) ++
                (if (stopped n =? outlineWidth + increment)%float then []
                 else [(outlineWidth, 0%float)]))%list
          /\ countsUpTo increment outlineWidth n
      else steps = [(0%float, outlineHeight)]
    else
      if (0 <? outlineHeight)%float then
        exists n : nat,
          (1 <= n < fuel)%nat
          /\ steps
             = (map (radiiAtY outlineWidth outlineHeight) (walkPoints n increment) ++
                (if (stopped n =? outlineHeight + increment)%float then []
                 else [(0%float, outlineHeight)]))%list
          /\ countsUpTo increment outlineHeight n
      else steps = [(outlineWidth, 0%float)].
Proof.
  intros fuel outlineWidth outlineHeight increment steps H stopped.
  unfold svgOutlines, svgOutlineWalk, recordOutline in H.
  destruct (outlineWidth <=? outlineHeight)%float.
  - destruct (0 <? outlineWidth)%float eqn:Hpos; [|now injection H as <-].
    match type of H with
    | bind ?m _ = _ => destruct m as [[x acc]| |] eqn:Hloop
    end; cbn [bind] in H; try discriminate.
    apply (forLoop_records _ _ (radiiAtX outlineWidth outlineHeight)) in Hloop.
    destruct Hloop as (n & Hn & -> & -> & Hbelow & Hstop). cbn [app] in H.
    exists n. split; [|split].
    + split; [|exact Hn]. destruct n as [|n]; [|lia].
      change ((0 <=? outlineWidth)%float = false) in Hstop.
      rewrite (ltb_leb _ _ Hpos) in Hstop. discriminate.
    + unfold walkPoints, stopped. rewrite map_map. unfold number in H.
      destruct (Nat.iter n (fun x => x + increment) 0 =? outlineWidth + increment)%float;
        cbn [negb] in H;
        injection H as <-; [now rewrite app_nil_r | reflexivity].
    + split; [now apply walkPoints_below | exact Hstop].
  - destruct (0 <? outlineHeight)%float eqn:Hpos; [|now injection H as <-].
    match type of H with
    | bind ?m _ = _ => destruct m as [[y acc]| |] eqn:Hloop
    end; cbn [bind] in H; try discriminate.
    apply (forLoop_records _ _ (radiiAtY outlineWidth outlineHeight)) in Hloop.
    destruct Hloop as (n & Hn & -> & -> & Hbelow & Hstop). cbn [app] in H.
    exists n. split; [|split].
    + split; [|exact Hn]. destruct n as [|n]; [|lia].
      change ((0 <=? outlineHeight)%float = false) in Hstop.
      rewrite (ltb_leb _ _ Hpos) in Hstop. discriminate.
    + unfold walkPoints, stopped. rewrite map_map. unfold number in H.
      destruct (Nat.iter n (fun y => y + increment) 0 =? outlineHeight + increment)%float;
        cbn [negb] in H;
        injection H as <-; [now rewrite app_nil_r | reflexivity].
    + split; [now apply walkPoints_below | exact Hstop].
Qed.

(** An outline of 2 by 2 with a unit step. *)
Lemma svg_radii_lie_on_the_ellipse_witness :
  svgOutlines 4 2%float 2%float 1%float = Ok [(0, 2); (1, sqrt 3); (2, 0)]%float
  /\ exists n : nat,
       [(0, 2); (1, sqrt 3); (2, 0)]%float
       = (map (radiiAtX 2%float 2%float) (walkPoints n 1%float) ++
          (if (Nat.iter n (fun x => (x + 1)%float) 0%float =? 2 + 1)%float then []
           else [(2%float, 0%float)]))%list.
Proof.
  split; [reflexivity|].
  destruct (svg_radii_lie_on_the_ellipse 4 2%float 2%float 1%float
              [(0, 2); (1, sqrt 3); (2, 0)]%float eq_refl) as (n & _ & Hsteps & _).
  now exists n.
Defined.


(** **** Equal outline dimensions *)

Lemma positive_leb_refl (w : number) : (0 <? w)%float = true -> (w <=? w)%float = true.
Proof.
  rewrite ltb_spec, leb_spec, Prim2SF_zero. unfold SFltb, SFleb.
  destruct (Prim2SF w) as [s|s| |s m e]; try (destruct s; simpl; congruence).
  - simpl. discriminate.
  - intros _. now rewrite FloatRounding.finite_compare_refl.
Qed.

(** The steps of a walk along X whose set is symmetric have sampled
    vertical radii: the mirror image of a step is a step, and the
    horizontal radius of a step is sampled. *)
Lemma symmetric_steps_sampled (W increment : number) (n : nat)
    (closing steps : list (number * number)) :
  steps = (map (radiiAtX W W) (walkPoints n increment) ++ closing)%list ->
  closing = [] \/ closing = [(W, 0%float)] ->
  swapSymmetric steps = true ->
  Forall (fun radii => sampled W increment n (snd radii) = true) steps.
Proof.
  intros Hsteps Hclosing Hsym. apply Forall_forall. intros radii Hin.
  unfold swapSymmetric in Hsym.
  pose proof (proj1 (forallb_forall _ _) Hsym radii Hin) as Hmirror.
  unfold emitted in Hmirror. apply existsb_exists in Hmirror.
  destruct Hmirror as (step & Hstep & Hsame).
  unfold sameRadii, mirrored in Hsame. cbn [fst snd] in Hsame.
  apply andb_true_iff in Hsame. destruct Hsame as [Hfst _].
  unfold sampled. apply existsb_exists. exists (fst step). split; [|exact Hfst].
  rewrite Hsteps in Hstep. apply in_app_or in Hstep. apply in_or_app.
  destruct Hstep as [Hstep|Hstep].
  - left. apply in_map_iff in Hstep. destruct Hstep as (x & <- & Hx). exact Hx.
  - right. destruct Hclosing as [->| ->]; [contradiction|].
    destruct Hstep as [<-|[]]. now left.
Qed.

Ltac integer_walk_case :=
  split;
  [vm_compute; reflexivity
  |split; intros E;
   [first [reflexivity | vm_compute in E; discriminate E]
   |first [discriminate E | vm_compute; reflexivity]]].

Lemma integerWalk_upto (n : nat) : In n (seq 1 64) -> integerWalk n.
Proof.
  intros H. unfold integerWalk. cbn [seq In] in H.
  repeat (destruct H as [<-|H]; [integer_walk_case|]).
  contradiction.
Qed.

(** C9, as amended: for equal outline dimensions W > 0 and any increment, a
    walk that returns has stepped along the X axis only: it has emitted the
    radii (x, W / W * sqrt (W * W - x * x)) at x = 0, increment,
    2 increments, ... as long as x <= W, at least at 0, and then (W, 0)
    unless the loop variable stopped at exactly W + increment.  The set of
    emitted radii is symmetric under swapping the axes only if every
    vertical radius emitted is itself one of those horizontal radii or W.
    For W an integer from 1 to 64 and a unit step the walk returns within
    W + 2 iterations with the W + 1 radii at x = 0, 1, ..., W, a symmetric
    set only for W = 1. *)
Theorem equal_dimensions_walk :
  (forall (fuel : nat) (W increment : number) (steps : list (number * number)),
     (0 <? W)%float = true ->
     svgOutlines fuel W W increment = Ok steps ->
     exists n : nat,
       (1 <= n < fuel)%nat
       /\ steps
          = (map (radiiAtX W W) (walkPoints n increment) ++
             (if (Nat.iter n (fun x => (x + increment)%float) 0%float =? W + increment)%float
              then [] else [(W, 0%float)]))%list
       /\ countsUpTo increment W n
       /\ (swapSymmetric steps = true ->
           Forall (fun radii => sampled W increment n (snd radii) = true) steps))
  /\ (forall n : nat, (1 <= n <= 64)%nat -> integerWalk n).
Proof.
  split.
  - intros fuel W increment steps Hpos H.
    unfold svgOutlines, svgOutlineWalk, recordOutline in H.
    rewrite (positive_leb_refl W Hpos), Hpos in H.
    match type of H with
    | bind ?m _ = _ => destruct m as [[x acc]| |] eqn:Hloop
    end; cbn [bind] in H; try discriminate.
    apply (forLoop_records _ _ (radiiAtX W W)) in Hloop.
    destruct Hloop as (n & Hn & -> & -> & Hbelow & Hstop). cbn [app] in H.
    assert (Hsteps :
              steps
              = (map (radiiAtX W W) (walkPoints n increment) ++
                 (if (Nat.iter n (fun x => (x + increment)%float) 0%float =? W + increment)%float
                  then [] else [(W, 0%float)]))%list).
    { unfold walkPoints. rewrite map_map. unfold number in H.
      destruct (Nat.iter n (fun x => x + increment) 0 =? W + increment)%float;
        cbn [negb] in H; injection H as <-; [now rewrite app_nil_r | reflexivity]. }
    exists n. split; [|split; [exact Hsteps|split]].
    + split; [|exact Hn]. destruct n as [|n]; [|lia].
      change ((0 <=? W)%float = false) in Hstop.
      rewrite (ltb_leb _ _ Hpos) in Hstop. discriminate.
    + split; [now apply walkPoints_below | exact Hstop].
    + apply (symmetric_steps_sampled W increment n _ steps Hsteps).
      destruct (Nat.iter n (fun x => (x + increment)%float) 0%float =? W + increment)%float;
        [now left | now right].
  - intros n Hn. apply integerWalk_upto. apply in_seq. lia.
Qed.

(** Equal dimensions of 0.5 with a unit step, and of 3 with a step of 3:
    two radii each, (0, W) and (W, 0), a symmetric set. *)
Lemma equal_dimensions_walk_witness :
  svgOutlines 2 0.5%float 0.5%float 1%float = Ok [(0, 0.5); (0.5, 0)]%float
  /\ swapSymmetric [(0, 0.5); (0.5, 0)]%float = true
  /\ svgOutlines 3 3%float 3%float 3%float = Ok [(0, 3); (3, 0)]%float
  /\ swapSymmetric [(0, 3); (3, 0)]%float = true
  /\ (exists n : nat,
        Forall (fun radii => sampled 0.5%float 1%float n (snd radii) = true)
          [(0, 0.5); (0.5, 0)]%float)
  /\ integerWalk 5.
Proof.
  destruct equal_dimensions_walk as [Hwalk Hinteger].
  destruct (Hwalk 2%nat 0.5%float 1%float [(0, 0.5); (0.5, 0)]%float eq_refl eq_refl)
    as (n & _ & _ & _ & Hsym).
  split; [reflexivity|]. split; [reflexivity|]. split; [reflexivity|].
  split; [reflexivity|]. split; [exists n; exact (Hsym eq_refl)|].
  apply Hinteger. lia.
Defined.

End SpanStylesRendering.


(** * The font sizes measured in a process *)

Module ProcessProps.

Import SpanStyles Spec Rendering Process JsFacts SpanStylesProps SpanStylesRendering.

(** The invariant looks at the cache, the reads and the layout only. *)
Lemma measuredOnce_same (layout : js string -> js number -> number) (dom dom' : Dom) :
  _fontSizeCache dom' = _fontSizeCache dom ->
  offsetHeightReads dom' = offsetHeightReads dom ->
  offsetHeight dom' = offsetHeight dom ->
  measuredOnce layout dom -> measuredOnce layout dom'.
Proof.
  unfold measuredOnce, cached. intros -> -> ->. exact (fun H => H).
Qed.

Lemma measuredOnce_fresh (layout : js string -> js number -> number) :
  measuredOnce layout (freshDom layout).
Proof.
  split; [reflexivity|]. split; [reflexivity|]. split; [intros r []|].
  intros r H. now contradiction H.
Qed.

(** A pair that is not cached has not been measured. *)
Lemma not_cached_not_read (layout : js string -> js number -> number) (dom : Dom)
    (r : request) :
  measuredOnce layout dom -> cached dom r = None ->
  existsb (sameRequest r) (offsetHeightReads dom) = false.
Proof.
  intros (_ & _ & Hread & _) Hc.
  destruct (existsb (sameRequest r) (offsetHeightReads dom)) eqn:E; [|reflexivity].
  apply existsb_exists in E. destruct E as (r' & Hin & Hsame).
  rewrite (cached_congr dom _ _ Hsame), (Hread r' Hin) in Hc. discriminate.
Qed.

(** A lookup that misses measures, and caches what it has measured. *)
Lemma getFontSize_measures (layout : js string -> js number -> number) (dom : Dom)
    (r : request) :
  measuredOnce layout dom -> cached dom r = None ->
  let lookup := _getFontSize (fst r) (snd r) dom in
  fst lookup = measured layout r
  /\ offsetHeightReads (snd lookup) = (offsetHeightReads dom ++ [r])%list
  /\ measuredOnce layout (snd lookup).
Proof.
  intros Hinv Hc lookup. pose proof Hinv as (Hlayout & Honce & Hread & Hcached).
  destruct r as [fontFamily lineHeight]. cbn [fst snd] in lookup.
  destruct (getFontSize_miss _ _ _ Hc) as (Hv & Hreads & Hheight & Hcache).
  fold lookup in Hv, Hreads, Hheight, Hcache. rewrite Hlayout in Hv.
  split; [exact Hv|]. split; [exact Hreads|].
  split; [now rewrite Hheight|]. split; [|split].
  - rewrite Hreads. apply readAtMostOnce_snoc; [exact Honce|].
    now apply (not_cached_not_read layout).
  - intros r Hin. rewrite Hcache, Hreads in *.
    apply in_app_or in Hin. destruct Hin as [Hin|[<-|[]]].
    + destruct (sameRequest r (fontFamily, lineHeight)) eqn:Hsame; [|now apply Hread].
      rewrite <- (cached_congr dom _ _ Hsame), (Hread r Hin) in Hc. discriminate.
    + rewrite sameRequest_refl, Hlayout. reflexivity.
  - intros r Hr. rewrite Hreads. apply existsb_exists. rewrite Hcache in Hr.
    destruct (sameRequest r (fontFamily, lineHeight)) eqn:Hsame.
    + exists (fontFamily, lineHeight). split; [apply in_or_app; right; now left | exact Hsame].
    + apply Hcached, existsb_exists in Hr. destruct Hr as (r' & Hin & Hr').
      exists r'. split; [apply in_or_app; now left | exact Hr'].
Qed.

(** A lookup that hits answers with the cached value and leaves the page
    as it is. *)
Lemma getFontSize_reuses (layout : js string -> js number -> number) (dom : Dom)
    (r r' : request) :
  measuredOnce layout dom ->
  In r' (offsetHeightReads dom) -> sameRequest r r' = true ->
  _getFontSize (fst r) (snd r) dom = (measured layout r', dom).
Proof.
  intros (_ & _ & Hread & _) Hin Hsame. destruct r as [fontFamily lineHeight].
  cbn [fst snd]. apply getFontSize_hit. now rewrite (cached_congr dom _ _ Hsame), (Hread r' Hin).
Qed.

(** What a call that returns has done to the cache, to the reads and to
    the layout is what its lookup has done. *)
Lemma styled_page (c : styling) (dom : Dom) (w : FilterWrapperSpan) (this' : t) (dom' : Dom) :
  styled c dom = Ok (w, this', dom') ->
  _fontSizeCache dom' = _fontSizeCache (snd (lookupOf c dom))
  /\ offsetHeightReads dom' = offsetHeightReads (snd (lookupOf c dom))
  /\ offsetHeight dom' = offsetHeight (snd (lookupOf c dom)).
Proof.
  intros H.
  destruct (setStylesOnSpan_returns _ _ _ _ _ _ _ _ H) as (Hcache & Hreads & _).
  split; [exact Hcache|]. split; [exact Hreads|].
  unfold styled, setStylesOnSpan in H. unfold lookupOf, requestOf. cbn [fst snd].
  destruct (_getFontSize (_fontName (styles c))
              (effectivePointSize (firstChildIsText (styledSpan c)) (styles c)) dom)
    as [size dom1].
  cbv zeta in H. cbn [snd].
  destruct (colorWithAlpha (_primaryColor (styles c)) (_primaryAlpha (styles c)));
    cbn [bind] in H; try discriminate.
  destruct (colorWithAlpha (_outlineColor (styles c)) (_outlineAlpha (styles c)));
    cbn [bind] in H; try discriminate.
  match type of H with
  | bind ?m _ = _ =>
      destruct m as [[[[[outlineFilter blurFilter] filterId] this1] style1]| |]
  end; cbn [bind] in H; try discriminate.
  match type of H with
  | context [if ?b then _ else _] => destruct b
  end.
  all: match type of H with
       | bind ?m _ = _ => destruct m
       end; cbn [bind] in H; try discriminate.
  all: now inversion H.
Qed.

Lemma leaves_page (c : styling) (dom dom' : Dom) :
  leaves c dom dom' ->
  _fontSizeCache dom' = _fontSizeCache (snd (lookupOf c dom))
  /\ offsetHeightReads dom' = offsetHeightReads (snd (lookupOf c dom))
  /\ offsetHeight dom' = offsetHeight (snd (lookupOf c dom)).
Proof.
  intros [w this' dom1 H|dom1 _ Hcache Hreads Hheight].
  - exact (styled_page _ _ _ _ _ H).
  - now repeat split.
Qed.

(** The font a call that returns has written. *)
Lemma styled_font (c : styling) (dom : Dom) (w : FilterWrapperSpan) (this' : t) (dom' : Dom) :
  styled c dom = Ok (w, this', dom') ->
  getProperty "font" (style (wrapped w)) = fontOf (styles c) (fst (lookupOf c dom)).
Proof.
  intros H.
  destruct (setStylesOnSpan_first_writes _ _ _ _ _ _ _ _ H) as (primaryColor & _ & Hstyle).
  rewrite Hstyle by (simpl; intuition discriminate).
  unfold firstWrites.
  rewrite !getProperty_set_other by discriminate.
  rewrite applyTransform_other by (simpl; intuition discriminate).
  rewrite !getProperty_set_other by discriminate.
  apply getProperty_set_same.
Qed.

(** One call: the invariant is kept, the pair of the call is among the
    reads afterwards, and the reads have grown by that pair or not at
    all. *)
Lemma leaves_measuredOnce (layout : js string -> js number -> number) (c : styling)
    (dom dom' : Dom) :
  measuredOnce layout dom ->
  leaves c dom dom' ->
  measuredOnce layout dom'
  /\ existsb (sameRequest (requestOf c)) (offsetHeightReads dom') = true
  /\ (offsetHeightReads dom' = offsetHeightReads dom
      \/ offsetHeightReads dom' = (offsetHeightReads dom ++ [requestOf c])%list).
Proof.
  intros Hinv H. destruct (leaves_page _ _ _ H) as (Hcache & Hreads & Hheight).
  unfold lookupOf in Hcache, Hreads, Hheight.
  destruct (cached dom (requestOf c)) as [v|] eqn:Hc.
  - pose proof Hinv as (_ & _ & _ & Hcached).
    assert (Hhit : _getFontSize (fst (requestOf c)) (snd (requestOf c)) dom = (v, dom)).
    { apply getFontSize_hit. now rewrite <- surjective_pairing. }
    rewrite Hhit in Hcache, Hreads, Hheight. cbn [snd] in Hcache, Hreads, Hheight.
    split; [exact (measuredOnce_same layout dom dom' Hcache Hreads Hheight Hinv)|].
    split; [|now left].
    rewrite Hreads. apply Hcached. now rewrite Hc.
  - destruct (getFontSize_measures layout dom (requestOf c) Hinv Hc) as (_ & Hmore & Hinv').
    split; [exact (measuredOnce_same layout _ dom' Hcache Hreads Hheight Hinv')|].
    rewrite Hreads, Hmore. split; [|now right].
    rewrite existsb_app. cbn [existsb]. now rewrite sameRequest_refl, orb_true_r.
Qed.

Lemma existsb_more {A} (f : A -> bool) (l l' : list A) :
  (forall x, In x l -> In x l') -> existsb f l = true -> existsb f l' = true.
Proof.
  intros Hincl H. apply existsb_exists in H. destruct H as (x & Hin & Hx).
  apply existsb_exists. exists x. split; [now apply Hincl | exact Hx].
Qed.

(** A sequence of calls. *)
Lemma process_measuredOnce (layout : js string -> js number -> number)
    (calls : list styling) (dom0 dom : Dom) :
  process calls dom0 dom ->
  measuredOnce layout dom0 ->
  measuredOnce layout dom
  /\ (forall r, In r (offsetHeightReads dom0) -> In r (offsetHeightReads dom))
  /\ (forall r, In r (offsetHeightReads dom) ->
        In r (offsetHeightReads dom0) \/ In r (map requestOf calls))
  /\ (forall c, In c calls ->
        existsb (sameRequest (requestOf c)) (offsetHeightReads dom) = true).
Proof.
  induction 1 as [dom|c calls dom0 dom1 dom Hc _ IH]; intros Hinv.
  - split; [exact Hinv|]. split; [auto|]. split; [auto|]. intros c [].
  - destruct (leaves_measuredOnce layout c dom0 dom1 Hinv Hc) as (Hinv1 & Hread1 & Hgrow).
    destruct (IH Hinv1) as (Hinv' & Hkeep & Hfrom & Hall).
    assert (Hkeep1 : forall r, In r (offsetHeightReads dom0) -> In r (offsetHeightReads dom1)).
    { intros r Hr. destruct Hgrow as [->| ->]; [exact Hr | apply in_or_app; now left]. }
    split; [exact Hinv'|]. split; [|split].
    + intros r Hr. apply Hkeep, Hkeep1, Hr.
    + intros r Hr. cbn [map In]. destruct (Hfrom r Hr) as [Hr1|Hr1]; [|now right; right].
      destruct Hgrow as [Hg|Hg]; rewrite Hg in Hr1; [now left|].
      apply in_app_or in Hr1. destruct Hr1 as [Hr1|[<-|[]]]; [now left | now right; left].
    + intros c' [<-|Hc']; [|now apply Hall].
      exact (existsb_more _ _ _ Hkeep Hread1).
Qed.

(** Calls that all return are a process. *)
Lemma stylings_process (calls : list styling) : forall dom dom' : Dom,
  stylings calls dom = Ok dom' -> process calls dom dom'.
Proof.
  induction calls as [|c calls IH]; intros dom dom' H; cbn [stylings] in H.
  - injection H as <-. constructor.
  - destruct (styled c dom) as [[[w this'] dom1]| |] eqn:Hc; cbn [bind snd] in H;
      try discriminate.
    apply (process_cons c calls dom dom1 dom'); [exact (returned c dom w this' dom1 Hc)|].
    now apply IH.
Qed.

(** A call that has nothing to loop for returns. *)
Lemma styled_without_loops (c : styling) (dom : Dom) :
  needsNoLoop c = true ->
  exists w this' dom', styled c dom = Ok (w, this', dom').
Proof.
  unfold needsNoLoop, styled. intros H.
  repeat (apply andb_true_iff in H; destruct H as [H ?]).
  destruct c as [fuel this span animationCollection]. cbn [loopBound styles styledSpan animations] in *.
  destruct fuel as [|fuel]; [discriminate|].
  match goal with Hs : negb (hasDropShadow this) || _ = true |- _ => rename Hs into Hshadow end.
  match goal with Hb : negb (0 <? ToNumber (_blur this))%float = true |- _ =>
    apply negb_true_iff in Hb; rename Hb into Hblur end.
  match goal with Ho : negb (hasOutline this) = true |- _ =>
    apply negb_true_iff in Ho; rename Ho into Houtline end.
  match goal with Hp : present (_outlineColor this) = true |- _ => rename Hp into Houtlined end.
  match goal with Hp : present (_primaryColor this) = true |- _ => rename Hp into Hprimary end.
  unfold setStylesOnSpan.
  destruct (_getFontSize (_fontName this)
              (effectivePointSize (firstChildIsText span) this) dom) as [size dom1].
  cbv zeta.
  destruct (_primaryColor this) as [| |primary]; try discriminate Hprimary.
  destruct (_outlineColor this) as [| |outline]; try discriminate Houtlined.
  cbn [colorWithAlpha bind].
  fold (scaledOutlineWidth this) (scaledOutlineHeight this).
  assert (Hstage : exists outlineFilter blurFilter filterId this1 style1,
            forall style,
              outlineStage (S fuel) this (Color.withAlpha (_outlineAlpha this) outline)
                (scaledOutlineWidth this) (scaledOutlineHeight this) style
              = Ok (outlineFilter, blurFilter, filterId, this1, style1 style)
              /\ forall style', dropShadow this1 style' = dropShadow this style').
  { unfold outlineStage, svgOutlineFilter, svgBlurFilter, shadowOutline.
    fold (hasOutline this). rewrite Houtline.
    destruct (RendererSettings.enableSvg (_settings this)).
    - cbv zeta. cbn [bind forLoop _blur assign_nextFilterId]. rewrite Hblur.
      cbn [bind]. do 5 eexists. intros style. split; reflexivity.
    - cbn [bind]. do 5 eexists. intros style. split; reflexivity. }
  destruct Hstage as (outlineFilter & blurFilter & filterId & this1 & style1 & Hstage).
  match goal with
  | |- exists _ _ _, bind (outlineStage _ _ _ _ _ ?style) _ = _ =>
      destruct (Hstage style) as [-> Hdrop]
  end.
  cbn [bind].
  assert (Hok : forall style, exists style', dropShadow this style = Ok style').
  { intros style. unfold dropShadow. fold (hasDropShadow this).
    destruct (hasDropShadow this); [|now eexists].
    cbn [negb orb] in Hshadow.
    destruct (_shadowColor this); try discriminate Hshadow. cbn [colorWithAlpha bind].
    destruct (isEmpty (getProperty "textShadow" style)); now eexists. }
  match goal with
  | |- context [dropShadow this1 ?style] =>
      rewrite (Hdrop style); destruct (Hok style) as [style2 ->]
  end.
  destruct (negb (isEmpty outlineFilter) || negb (isEmpty blurFilter));
    cbn [bind]; now do 3 eexists.
Qed.

Lemma stylings_without_loops (calls : list styling) : forall dom : Dom,
  forallb needsNoLoop calls = true -> exists dom', stylings calls dom = Ok dom'.
Proof.
  induction calls as [|c calls IH]; intros dom H; cbn [stylings forallb] in *.
  - now exists dom.
  - apply andb_true_iff in H. destruct H as [Hc H].
    destruct (styled_without_loops c dom Hc) as (w & this' & dom1 & ->).
    cbn [bind snd]. now apply IH.
Qed.

(** C7: through all the calls of [setStylesOnSpan] of a process, on
    whatever style states, the measuring element is read at most once per
    (font family, size) pair handed to [_getFontSize]: from the empty cache
    the process starts with, after any sequence of calls, each on the page
    the one before has left, no two reads are for the same pair; the pairs
    read are pairs of the calls, and the pair of every call has been read;
    the cache holds [size * size / measured height] for each of them; a
    further call with a pair read before reads nothing and leaves the cache
    as it is, and when it returns it has written the font from that cached
    value; a further call with a new pair reads once.  Calls that have
    nothing to loop for do return, and calls that return are such a
    process. *)
Theorem font_size_measured_once :
  forall (layout : js string -> js number -> number) (calls : list styling),
    (forallb needsNoLoop calls = true ->
     exists dom, stylings calls (freshDom layout) = Ok dom)
    /\ (forall dom : Dom,
          stylings calls (freshDom layout) = Ok dom -> process calls (freshDom layout) dom)
    /\ forall dom : Dom,
         process calls (freshDom layout) dom ->
         readAtMostOnce (offsetHeightReads dom) = true
         /\ (forall r, In r (offsetHeightReads dom) -> In r (map requestOf calls))
         /\ (forall c, In c calls ->
               existsb (sameRequest (requestOf c)) (offsetHeightReads dom) = true)
         /\ (forall r, In r (offsetHeightReads dom) ->
               cached dom r = Some (measured layout r))
         /\ (forall c dom',
               leaves c dom dom' ->
               (forall r,
                  In r (offsetHeightReads dom) -> sameRequest (requestOf c) r = true ->
                  offsetHeightReads dom' = offsetHeightReads dom
                  /\ _fontSizeCache dom' = _fontSizeCache dom)
               /\ (existsb (sameRequest (requestOf c)) (offsetHeightReads dom) = false ->
                   offsetHeightReads dom' = (offsetHeightReads dom ++ [requestOf c])%list))
         /\ (forall c w this' dom',
               styled c dom = Ok (w, this', dom') ->
               (forall r,
                  In r (offsetHeightReads dom) -> sameRequest (requestOf c) r = true ->
                  getProperty "font" (style (wrapped w))
                  = fontOf (styles c) (measured layout r))
               /\ (existsb (sameRequest (requestOf c)) (offsetHeightReads dom) = false ->
                   getProperty "font" (style (wrapped w))
                   = fontOf (styles c) (measured layout (requestOf c)))).
Proof.
  intros layout calls. split; [apply stylings_without_loops|].
  split; [apply stylings_process|].
  intros dom Hrun.
  destruct (process_measuredOnce layout calls _ dom Hrun (measuredOnce_fresh layout))
    as (Hinv & _ & Hfrom & Hall).
  pose proof Hinv as (_ & Honce & Hread & Hcached).
  assert (Hnew : forall c,
            existsb (sameRequest (requestOf c)) (offsetHeightReads dom) = false ->
            cached dom (requestOf c) = None).
  { intros c Hc. destruct (cached dom (requestOf c)) eqn:E; [|reflexivity].
    rewrite Hcached in Hc; [discriminate | now rewrite E]. }
  split; [exact Honce|]. split; [|split; [exact Hall|split; [exact Hread|split]]].
  - intros r Hr. destruct (Hfrom r Hr) as [[]|H]. exact H.
  - intros c dom' Hc.
    destruct (leaves_page _ _ _ Hc) as (Hcache & Hreads & _).
    unfold lookupOf in Hcache, Hreads. split.
    + intros r Hr Hsame.
      rewrite (getFontSize_reuses layout dom (requestOf c) r Hinv Hr Hsame)
        in Hcache, Hreads.
      now split.
    + intros Hc0. apply Hnew in Hc0.
      destruct (getFontSize_measures layout dom (requestOf c) Hinv Hc0) as (_ & Hmore & _).
      now rewrite Hmore in Hreads.
  - intros c w this' dom' Hc.
    pose proof (styled_font _ _ _ _ _ Hc) as Hfont. unfold lookupOf in Hfont. split.
    + intros r Hr Hsame.
      now rewrite (getFontSize_reuses layout dom (requestOf c) r Hinv Hr Hsame) in Hfont.
    + intros Hc0. apply Hnew in Hc0.
      destruct (getFontSize_measures layout dom (requestOf c) Hinv Hc0) as (Hv & _).
      now rewrite Hv in Hfont.
Qed.

(** Three calls on two style states: a text-only span, a span that is not
    text-only with the same font and size, and a text-only span at another
    size: two reads.  A call that throws for want of a primary colour has
    measured its pair: the next call with that pair reads nothing. *)
Lemma font_size_measured_once_witness :
  let other := new 0 1 plain 1%float 1%float (RendererSettings.mkSettings false false) in
  let first := mkStyling 1 (plainStyles true) textSpan emptyCollection in
  let calls :=
    [first;
     mkStyling 1 other (mkSpan false []) emptyCollection;
     mkStyling 1 (set_fontSize (val 25%float) other) textSpan emptyCollection] in
  let thrower :=
    mkStyling 1 (set_primaryColor undefined (plainStyles true)) textSpan emptyCollection in
  (exists dom,
     stylings calls emptyPage = Ok dom
     /\ readAtMostOnce (offsetHeightReads dom) = true
     /\ offsetHeightReads dom = [(val "Arial", val 20%float); (val "Arial", val 25%float)]
     /\ cached dom (val "Arial", val 20%float) = Some 16%float)
  /\ styled thrower emptyPage = TypeError
  /\ forall dom dom' : Dom,
       leaves thrower emptyPage dom -> leaves first dom dom' ->
       offsetHeightReads dom' = [(val "Arial", val 20%float)].
Proof.
  intros other first calls thrower. split; [|split; [reflexivity|]].
  - destruct (font_size_measured_once (fun _ size => (ToNumber size * 1.25)%float) calls)
      as (Hreturns & Hprocess & Honce).
    destruct (Hreturns eq_refl) as [dom Hrun].
    exists dom. split; [exact Hrun|].
    destruct (Honce dom (Hprocess dom Hrun)) as (H1 & _ & _ & Hcached & _).
    split; [exact H1|].
    assert (Hreads : offsetHeightReads dom
                     = [(val "Arial", val 20%float); (val "Arial", val 25%float)]).
    { pose proof Hrun as Hdom. vm_compute in Hdom. injection Hdom as <-. reflexivity. }
    split; [exact Hreads|].
    rewrite (Hcached (val "Arial", val 20%float)) by (rewrite Hreads; now left).
    reflexivity.
  - intros dom dom' Hthrown Hnext.
    destruct (font_size_measured_once (fun _ size => (ToNumber size * 1.25)%float) [thrower])
      as (_ & _ & Honce).
    destruct (Honce dom (process_cons _ _ _ _ _ Hthrown (process_nil dom)))
      as (_ & _ & _ & _ & Hleaves & _).
    destruct (leaves_page _ _ _ Hthrown) as (_ & Hreads & _).
    change (offsetHeightReads dom = [(val "Arial", val 20%float)]) in Hreads.
    destruct (Hleaves first dom' Hnext) as [Hsame _].
    destruct (Hsame (val "Arial", val 20%float)) as [Hkept _];
      [rewrite Hreads; now left | reflexivity |].
    now rewrite Hkept.
Defined.

End ProcessProps.
